(** * ImageDatasetReader: epoch sharding and sequence materialisation

    A shallow embedding of [Source/Readers/ImageDatasetReader/ImageDatasetReader.cpp]:
    the example adapter [ImageDatasetExample], and the [DataSource] sequence
    enumerator with its [StartEpoch] and [GetNextSequences] members.

    Conventions.
    - A [size_t] is a [Z] in [0, 2^64); every operation that can wrap is
      written with [to_size_t].  An [int] is a [Z] in [-2^31, 2^31).
    - A call ends in one of three ways: it returns ([Ok]), it throws through
      [RuntimeError] ([Fatal]), or it runs into behaviour the language leaves
      undefined, such as a division by zero or an out-of-bounds subscript
      ([Undefined]).
    - [std::vector] is a [list]; subscripts are [nat] positions. *)

From Stdlib Require Import ZArith Lia.
From stdpp Require Import base option list strings.

Open Scope Z_scope.

(** ** Machine integers *)

Definition to_size_t (z : Z) : Z := z mod 2 ^ 64.

Definition is_size_t (z : Z) : Prop := 0 <= z < 2 ^ 64.

(** Conversion to a 32-bit [int] (two's complement wrap-around). *)
Definition to_int (z : Z) : Z := (z + 2 ^ 31) mod 2 ^ 32 - 2 ^ 31.

Definition is_int (z : Z) : Prop := - 2 ^ 31 <= z < 2 ^ 31.

Global Instance is_int_dec z : Decision (is_int z).
Proof. unfold is_int. apply _. Defined.

(** ** Single precision values

    The reader never does arithmetic on the values it moves around; it stores
    the constants 0 and 1 and converts labels to [int].  A value is kept as a
    sign, a magnitude and a binary exponent, [(-1)^neg * m * 2^e]. *)

Inductive float : Type :=
| FNaN
| FInf (neg : bool)
| FFinite (neg : bool) (m : N) (e : Z).

Definition float_one : float := FFinite false 1 0.
Definition float_zero : float := FFinite false 0 0.

(** An exactly representable integer as a [float]. *)
Definition float_of_Z (z : Z) : float := FFinite (z <? 0) (Z.abs_N z) 0.

(** [static_cast<int>(x)]: truncation towards zero; the conversion is
    undefined ([None]) when the truncated value does not fit an [int]. *)
Definition float_to_int (x : float) : option Z :=
  match x with
  | FNaN | FInf _ => None
  | FFinite neg m e =>
      let mag := if 0 <=? e then Z.of_N m * 2 ^ e else Z.of_N m / 2 ^ (- e) in
      let v := if neg then - mag else mag in
      if (- 2 ^ 31 <=? v) && (v <? 2 ^ 31) then Some v else None
  end.

(** ** Outcomes *)

(** One constructor per [RuntimeError] call site of the file. *)
Inductive RuntimeError : Type :=
| EmptyBlobNames
| BlobNotFound (blobName : string)
| BlobNotInDataset (blobName : string)
| InvalidSparseShape
| EpochNotFinished
| RankChanged
| WorkersChanged
| MinibatchNotDivisible
| WorkersChangedSinceStart
| RankChangedSinceStart
| MinibatchChangedSinceStart
| SampleCountMismatch
| MoreWorkersThanSamples
| AppendingMoreThanOne
| DenseWithIgnore
| MissingIgnoreStream
| UnexpectedSparseCount
| InvalidChannel.

Inductive result (A : Type) : Type :=
| Ok (a : A)
| Fatal (e : RuntimeError)
| Undefined.

Arguments Ok {A} a.
Arguments Fatal {A} e.
Arguments Undefined {A}.

Global Instance result_ret : MRet result := fun A a => Ok a.

Global Instance result_bind : MBind result := fun A B k r =>
  match r with
  | Ok a => k a
  | Fatal e => Fatal e
  | Undefined => Undefined
  end.

Definition is_fatal {A : Type} (r : result A) : Prop :=
  exists e, r = Fatal e.

(** An optional value whose absence is undefined behaviour. *)
Definition defined {A : Type} (o : option A) : result A :=
  match o with
  | Some a => Ok a
  | None => Undefined
  end.

(** ** Reader library types (declared outside this file) *)

Inductive StorageType : Type := dense | sparse_csc.

Global Instance StorageType_eq_dec : EqDecision StorageType.
Proof. solve_decision. Defined.

(** [TensorShape(I, J, K)]: the reader only ever builds rank 3 shapes. *)
Record TensorShape : Type := mkTensorShape { dim0 : Z; dim1 : Z; dim2 : Z }.

Module StreamDescription.

Record t : Type := mk {
  m_id : Z;
  m_name : string;
  m_storageType : StorageType;
  m_sampleLayout : TensorShape
}.

End StreamDescription.

Record IgnoreStreamDescriptor : Type := mkIgnoreStreamDescriptor {
  ignoreStreamName : string;
  ignoreLabel : Z
}.

Record StreamDescriptor : Type := mkStreamDescriptor {
  name : string;
  datasetName : string;
  datasetStorageType : StorageType;
  dimension : Z;
  ignoreStream : option IgnoreStreamDescriptor
}.

Module EpochConfiguration.

Record t : Type := mk {
  m_numberOfWorkers : Z;
  m_workerRank : Z;
  m_minibatchSizeInSamples : Z;
  m_totalEpochSizeInSamples : Z
}.

End EpochConfiguration.

Module ReaderConfiguration.

Record t : Type := mk {
  m_numberOfWorkers : Z;
  m_workerRank : Z;
  m_minibatchSizeInSamples : Z
}.

End ReaderConfiguration.

(** Constants and conversions of the reader library whose declarations are
    not part of this file: the reserved epoch size [requestDataSize] and the
    integral type [IndexType] of sparse indices.  Of [IndexType] only one
    thing is assumed: it holds every non-negative 31-bit value unchanged. *)
Class ReaderLib : Type := {
  requestDataSize : Z;
  to_IndexType : Z -> Z;
  to_IndexType_small : forall z, 0 <= z < 2 ^ 31 -> to_IndexType z = z
}.

(** ** Sequences *)

(** [DenseSequenceDataIds] and [SparseSequenceDataIds]; [m_chunk] is always
    null and [m_indices] always points at [m_indicesMemory]. *)
Inductive SequenceData : Type :=
| DenseSequenceDataIds
    (m_id : Z) (m_numberOfSamples : Z) (m_sampleLayout : TensorShape)
    (m_ownedData : list float)
| SparseSequenceDataIds
    (m_id : Z) (m_numberOfSamples : Z)
    (m_nnzCounts : list Z) (m_totalNnzCount : Z)
    (m_indicesMemory : list Z) (m_valuesMemory : list float).

(** [Sequences]: [m_data] is indexed by stream, then by sample; a slot is
    a null pointer ([None]) until a sequence is stored in it. *)
Record Sequences : Type := mkSequences {
  m_data : list (list (option SequenceData));
  m_endOfEpoch : bool
}.

(** ** The example adapter *)

(** [array<int, 3>]: channels, height, width as the loader reports them. *)
Record BlobShape : Type := mkBlobShape { shape0 : Z; shape1 : Z; shape2 : Z }.

(** [reverse(shape.begin(), shape.end())] *)
Definition reverse_shape (s : BlobShape) : BlobShape :=
  mkBlobShape (shape2 s) (shape1 s) (shape0 s).

Record ImageDatasetExample : Type := mkImageDatasetExample {
  m_blobNames : list string;
  m_blobs : list (list float);
  m_blob_shapes : list BlobShape
}.

Definition ImageDatasetExample_new (blobNames : list string)
  : result ImageDatasetExample :=
  if decide (length blobNames = 0%nat) then Fatal EmptyBlobNames
  else Ok (mkImageDatasetExample blobNames
             (replicate (length blobNames) [])
             (replicate (length blobNames) (mkBlobShape 0 0 0))).

(** First position of [blobName] in [names], counted from [ib]. *)
Fixpoint find_blob (blobName : string) (names : list string) (ib : nat)
  : option nat :=
  match names with
  | [] => None
  | n :: rest =>
      if decide (blobName = n) then Some ib else find_blob blobName rest (S ib)
  end.

Definition BlobIndexFromName (ex : ImageDatasetExample) (blobName : string)
  : result nat :=
  match find_blob blobName (m_blobNames ex) 0 with
  | Some index => Ok index
  | None => Fatal (BlobNotFound blobName)
  end.

(** [vector::resize(n)]: keep the first [n] elements, pad with [x]. *)
Definition resize {A : Type} (n : nat) (x : A) (l : list A) : list A :=
  take n l ++ replicate (n - length l) x.

Definition ReshapeBlob (ex : ImageDatasetExample) (index : nat)
    (channels height width : Z) : result ImageDatasetExample :=
  if decide (index < length (m_blob_shapes ex) /\ index < length (m_blobs ex))%nat
  then
    let count := channels * height * width in
    if decide (is_int (channels * height) /\ 0 <= count < 2 ^ 31) then
      buf ← defined (m_blobs ex !! index);
      Ok (mkImageDatasetExample (m_blobNames ex)
            (<[index := resize (Z.to_nat count) float_zero buf]> (m_blobs ex))
            (<[index := mkBlobShape channels height width]> (m_blob_shapes ex)))
    else Undefined
  else Undefined.

(** What the loader does with the pointer [GetBlobMemory(index)] returns: it
    copies its values over the front of the buffer. *)
Definition WriteBlobMemory (ex : ImageDatasetExample) (index : nat)
    (values : list float) : result ImageDatasetExample :=
  buf ← defined (m_blobs ex !! index);
  if decide (length values <= length buf)%nat then
    Ok (mkImageDatasetExample (m_blobNames ex)
          (<[index := values ++ drop (length values) buf]> (m_blobs ex))
          (m_blob_shapes ex))
  else Undefined.

Definition GetBlobShape (ex : ImageDatasetExample) (blobName : string)
  : result BlobShape :=
  index ← BlobIndexFromName ex blobName;
  defined (m_blob_shapes ex !! index).

(** [m_blobs[index].swap(outer)]: returns the adapter after the swap and the
    new contents of [outer]. *)
Definition SwapBlobData (ex : ImageDatasetExample) (blobName : string)
    (outer : list float) : result (ImageDatasetExample * list float) :=
  index ← BlobIndexFromName ex blobName;
  buf ← defined (m_blobs ex !! index);
  Ok (mkImageDatasetExample (m_blobNames ex)
        (<[index := outer]> (m_blobs ex))
        (m_blob_shapes ex),
      buf).

(** ** The dataset loader (external) *)

(** The loader as the reader sees it: its blob names, its example count, and
    the examples it hands out in order, one per [GetExample] call.  An example
    gives, for each blob, the shape and the values. *)
Record IDsLoader : Type := mkIDsLoader {
  GetBlobNames : list string;
  GetExamplesCount : Z;
  examples : nat -> list (BlobShape * list float);
  position : nat
}.

Fixpoint fill_blobs (ex : ImageDatasetExample) (ib : nat)
    (blobs : list (BlobShape * list float)) : result ImageDatasetExample :=
  match blobs with
  | [] => Ok ex
  | (shape, values) :: rest =>
      ex1 ← ReshapeBlob ex ib (shape0 shape) (shape1 shape) (shape2 shape);
      ex2 ← WriteBlobMemory ex1 ib values;
      fill_blobs ex2 (S ib) rest
  end.

(** Modelled from the spec: the loader's [GetExample] is not part of this
    file.  It "fills adapter buffers per the adapter protocol for one example,
    advancing internal position": for each blob it calls [ReshapeBlob], writes
    the blob through [GetBlobMemory], and then moves to the next example. *)
Definition GetExample (ld : IDsLoader) (ex : ImageDatasetExample)
  : result (IDsLoader * ImageDatasetExample) :=
  ex' ← fill_blobs ex 0 (examples ld (position ld));
  Ok (mkIDsLoader (GetBlobNames ld) (GetExamplesCount ld) (examples ld)
        (S (position ld)),
      ex').

(** ** The data source *)

Record DataSource : Type := mkDataSource {
  m_inputStreams : list StreamDescription.t;
  m_outputStreams : list StreamDescription.t;
  m_streamDescriptors : list StreamDescriptor;
  m_dsLoader : IDsLoader;
  m_example : ImageDatasetExample;
  m_minibatchSize : Z;
  m_appendLastMinibatch : bool;
  m_workerRank : Z;
  m_numberOfWorkers : Z;
  m_epochSize : Z;
  m_currEpochSampleCount : Z;
  m_epochOverride : bool
}.

(** The configuration values the constructor reads, after parsing; the
    loader stands for what [CreateLoader] returns for them. *)
Record ConfigParameters : Type := mkConfigParameters {
  epochOverride : bool;
  workerRank : option Z;
  workersCount : option Z;
  streamDescriptors : list StreamDescriptor;
  loader : IDsLoader
}.

(** Stream descriptions under construction, with the two id counters. *)
Record StreamTables : Type := mkStreamTables {
  inputStreams : list StreamDescription.t;
  outputStreams : list StreamDescription.t;
  stream_id_in : Z;
  stream_id_out : Z
}.

Definition TensorShape_of_ints (a b c : Z) : TensorShape :=
  mkTensorShape (to_size_t a) (to_size_t b) (to_size_t c).

(** One turn of the constructor's loop over the stream descriptors. *)
Definition describe_stream (blobNames : list string) (ex : ImageDatasetExample)
    (tb : StreamTables) (streamDescriptor : StreamDescriptor)
  : result StreamTables :=
  if decide (datasetName streamDescriptor ∈ blobNames) then
    blobShape ← GetBlobShape ex (datasetName streamDescriptor);
    let shape := reverse_shape blobShape in
    let sparse := bool_decide (datasetStorageType streamDescriptor = sparse_csc) in
    if sparse && negb (shape2 shape =? 1) then Fatal InvalidSparseShape
    else
      let layout :=
        if sparse
        then TensorShape_of_ints (shape0 shape) (shape1 shape)
               (dimension streamDescriptor)
        else TensorShape_of_ints (shape0 shape) (shape1 shape)
               (shape2 shape) in
      let ignoreLayout :=
        TensorShape_of_ints (shape0 shape) (shape1 shape) 1 in
      let ins :=
        StreamDescription.mk (to_size_t (stream_id_in tb))
          (name streamDescriptor) (datasetStorageType streamDescriptor) layout
        :: match ignoreStream streamDescriptor with
           | Some ig =>
               if sparse
               then [StreamDescription.mk (to_size_t (stream_id_in tb + 1))
                       (ignoreStreamName ig) dense ignoreLayout]
               else []
           | None => []
           end in
      let outs :=
        StreamDescription.mk (to_size_t (stream_id_out tb))
          (name streamDescriptor) dense layout
        :: match ignoreStream streamDescriptor with
           | Some ig =>
               if sparse
               then [StreamDescription.mk (to_size_t (stream_id_out tb + 1))
                       (ignoreStreamName ig) dense ignoreLayout]
               else []
           | None => []
           end in
      Ok (mkStreamTables (inputStreams tb ++ ins) (outputStreams tb ++ outs)
            (stream_id_in tb + Z.of_nat (length ins))
            (stream_id_out tb + Z.of_nat (length outs)))
  else Fatal (BlobNotInDataset (datasetName streamDescriptor)).

Fixpoint describe_streams (blobNames : list string) (ex : ImageDatasetExample)
    (tb : StreamTables) (descriptors : list StreamDescriptor)
  : result StreamTables :=
  match descriptors with
  | [] => Ok tb
  | d :: rest =>
      tb' ← describe_stream blobNames ex tb d;
      describe_streams blobNames ex tb' rest
  end.

(** The constructor.  It leaves [m_minibatchSize] and [m_appendLastMinibatch]
    without a value; [garbageSize] and [garbageFlag] are whatever the members
    hold then. *)
Definition DataSource_new (config : ConfigParameters)
    (garbageSize : Z) (garbageFlag : bool) : result DataSource :=
  let blobNames := GetBlobNames (loader config) in
  ex0 ← ImageDatasetExample_new blobNames;
  '(ld, ex) ← GetExample (loader config) ex0;
  tb ← describe_streams blobNames ex (mkStreamTables [] [] 0 0)
         (streamDescriptors config);
  Ok (mkDataSource (inputStreams tb) (outputStreams tb)
        (streamDescriptors config) ld ex
        garbageSize garbageFlag
        (default 0 (workerRank config))
        (default 1 (workersCount config))
        0 0 (epochOverride config)).

Section Reader.

Context `{ReaderLib}.

(** *** StartEpoch *)

Definition UseAllExamplesFromDatasetForEpoch (config : EpochConfiguration.t)
  : bool :=
  EpochConfiguration.m_totalEpochSizeInSamples config =? requestDataSize.

(** The epoch size of the whole job (lines 383-400): the value [m_epochSize]
    holds before the share of this reader replaces it. *)
Definition globalEpochSize (s : DataSource) (config : EpochConfiguration.t)
  : Z :=
  if UseAllExamplesFromDatasetForEpoch config then
    if m_epochOverride s
    then to_size_t (m_numberOfWorkers s
                    * to_size_t (GetExamplesCount (m_dsLoader s)))
    else to_size_t (GetExamplesCount (m_dsLoader s))
  else EpochConfiguration.m_totalEpochSizeInSamples config.

(** The share of one reader (lines 403-430): its epoch size and whether its
    last minibatch is appended to the one before.  The divisors are not zero
    where [StartEpoch] calls it. *)
Definition thisReaderEpochSize (epochSize minibatchSize numberOfWorkers rank : Z)
  : Z * bool :=
  let full := to_size_t (epochSize / minibatchSize * minibatchSize)
              / numberOfWorkers in
  if negb (epochSize mod minibatchSize =? 0) then
    let partOfMiniBatch := epochSize mod minibatchSize / numberOfWorkers in
    let allWorkersActiveInLastMinibatch := negb (partOfMiniBatch =? 0) in
    let withPart := to_size_t (full + partOfMiniBatch) in
    if negb (epochSize mod minibatchSize mod numberOfWorkers =? 0) then
      if rank <? epochSize mod minibatchSize mod numberOfWorkers
      then (to_size_t (withPart + 1), negb allWorkersActiveInLastMinibatch)
      else (withPart, false)
    else (withPart, false)
  else (full, false).

Definition StartEpoch (s : DataSource) (config : EpochConfiguration.t)
  : result DataSource :=
  if negb (m_epochSize s =? m_currEpochSampleCount s) then
    Fatal EpochNotFinished
  else if negb (m_workerRank s =? EpochConfiguration.m_workerRank config) then
    Fatal RankChanged
  else if negb (m_numberOfWorkers s
                =? EpochConfiguration.m_numberOfWorkers config) then
    Fatal WorkersChanged
  else
    let minibatchSize := EpochConfiguration.m_minibatchSizeInSamples config in
    if m_numberOfWorkers s =? 0 then Undefined
    else if negb (minibatchSize mod m_numberOfWorkers s =? 0) then
      Fatal MinibatchNotDivisible
    else
      let epochSize := globalEpochSize s config in
      if minibatchSize =? 0 then Undefined
      else
        let '(thisReader, append) :=
          thisReaderEpochSize epochSize minibatchSize
            (m_numberOfWorkers s) (m_workerRank s) in
        Ok (mkDataSource (m_inputStreams s) (m_outputStreams s)
              (m_streamDescriptors s) (m_dsLoader s) (m_example s)
              minibatchSize append
              (m_workerRank s) (m_numberOfWorkers s)
              thisReader 0 (m_epochOverride s)).

(** *** SetConfiguration *)

Definition SetConfiguration (s : DataSource) (config : ReaderConfiguration.t)
  : result DataSource :=
  if negb (ReaderConfiguration.m_numberOfWorkers config =? m_numberOfWorkers s)
  then Fatal WorkersChangedSinceStart
  else if negb (ReaderConfiguration.m_workerRank config =? m_workerRank s)
  then Fatal RankChangedSinceStart
  else if negb (ReaderConfiguration.m_minibatchSizeInSamples config
                =? m_minibatchSize s)
  then Fatal MinibatchChangedSinceStart
  else Ok s.

(** *** GetNextSequences *)

(** Lines 475-506: the number of samples this call reads and whether it is
    the last call of the epoch; a fresh [Sequences] does not mark the end of
    the epoch. *)
Definition samplesForThisCall (s : DataSource) (totalSampleCount : Z)
  : result (Z * bool) :=
  if negb (totalSampleCount =? m_minibatchSize s) then
    Fatal SampleCountMismatch
  else if m_numberOfWorkers s =? 0 then Undefined
  else
    let sampleCount := totalSampleCount / m_numberOfWorkers s in
    if sampleCount =? 0 then Fatal MoreWorkersThanSamples
    else
      let remainingEpochSamples :=
        to_size_t (m_epochSize s - m_currEpochSampleCount s) in
      if m_appendLastMinibatch s
         && (remainingEpochSamples <=? to_size_t (2 * sampleCount)) then
        if negb (remainingEpochSamples =? to_size_t (sampleCount + 1)) then
          Fatal AppendingMoreThanOne
        else Ok (remainingEpochSamples, true)
      else if negb (m_appendLastMinibatch s)
              && (remainingEpochSamples <=? sampleCount) then
        Ok (remainingEpochSamples, true)
      else Ok (sampleCount, false).

(** [sequences.m_data[istr][ismpl] = sequence] *)
Definition store_sequence (data : list (list (option SequenceData)))
    (istr ismpl : nat) (sequence : SequenceData)
  : result (list (list (option SequenceData))) :=
  row ← defined (data !! istr);
  if decide (ismpl < length row)%nat
  then Ok (<[istr := <[ismpl := Some sequence]> row]> data)
  else Undefined.

(** [( *ignoreBuffer)[inz] = 0], where [ignoreBuffer] points at the
    [m_ownedData] of the sequence stored at [data[istr][ismpl]]. *)
Definition clear_ignore_entry (data : list (list (option SequenceData)))
    (istr ismpl inz : nat) : result (list (list (option SequenceData))) :=
  row ← defined (data !! istr);
  slot ← defined (row !! ismpl);
  match slot with
  | Some (DenseSequenceDataIds id n layout owned) =>
      if decide (inz < length owned)%nat then
        Ok (<[istr := <[ismpl :=
               Some (DenseSequenceDataIds id n layout
                       (<[inz := float_zero]> owned))]> row]> data)
      else Undefined
  | _ => Undefined
  end.

(** Lines 617-639, from position [inz] on: [labels] are the values of [data]
    not yet converted.  [ignoreBuffer] is the stream of the mask sequence
    when there is one. *)
Fixpoint convert_labels (ignore : option IgnoreStreamDescriptor)
    (ignoreBuffer : option nat) (ismpl : nat) (spatialSize outChannels : Z)
    (labels : list float) (inz : nat)
    (data : list (list (option SequenceData))) (indicesMemory : list Z)
  : result (list (list (option SequenceData)) * list Z) :=
  match labels with
  | [] => Ok (data, indicesMemory)
  | x :: rest =>
      c ← defined (float_to_int x);
      match ignoreBuffer, ignore with
      | Some istrIgnore, Some ig =>
          if c =? ignoreLabel ig then
            data' ← clear_ignore_entry data istrIgnore ismpl inz;
            convert_labels ignore ignoreBuffer ismpl spatialSize outChannels
              rest (S inz) data'
              (<[inz := to_IndexType (Z.of_nat inz)]> indicesMemory)
          else if (c <? 0) || (to_size_t (outChannels - 1) <? to_size_t c) then
            Fatal InvalidChannel
          else
            let index := to_size_t (to_size_t (to_size_t c * spatialSize)
                                    + Z.of_nat inz) in
            convert_labels ignore ignoreBuffer ismpl spatialSize outChannels
              rest (S inz) data
              (<[inz := to_IndexType index]> indicesMemory)
      | Some _, None => Undefined
      | None, _ =>
          if (c <? 0) || (to_size_t (outChannels - 1) <? to_size_t c) then
            Fatal InvalidChannel
          else
            let index := to_size_t (to_size_t (to_size_t c * spatialSize)
                                    + Z.of_nat inz) in
            convert_labels ignore ignoreBuffer ismpl spatialSize outChannels
              rest (S inz) data
              (<[inz := to_IndexType index]> indicesMemory)
      end
  end.

(** Lines 532-557: a dense stream. *)
Definition dense_stream (ex : ImageDatasetExample)
    (data : list (list (option SequenceData)))
    (streamDescriptor : StreamDescriptor) (istr ismpl : nat)
  : result (nat * ImageDatasetExample * list (list (option SequenceData))) :=
  match ignoreStream streamDescriptor with
  | Some _ => Fatal DenseWithIgnore
  | None =>
      blobShape ← GetBlobShape ex (datasetName streamDescriptor);
      let shape := reverse_shape blobShape in
      '(ex', ownedData) ← SwapBlobData ex (datasetName streamDescriptor) [];
      let newSequenceDataDense :=
        DenseSequenceDataIds (Z.of_nat ismpl) 1
          (TensorShape_of_ints (shape0 shape) (shape1 shape) (shape2 shape))
          ownedData in
      data' ← store_sequence data istr ismpl newSequenceDataDense;
      Ok (S istr, ex', data')
  end.

(** Lines 561-651: a sparse stream, with its mask stream when the descriptor
    names an ignore label. *)
Definition sparse_stream (inputs : list StreamDescription.t)
    (ex : ImageDatasetExample) (data : list (list (option SequenceData)))
    (streamDescriptor : StreamDescriptor) (istr ismpl : nat)
  : result (nat * ImageDatasetExample * list (list (option SequenceData))) :=
  '(ignoreBuffer, data1) ←
    match ignoreStream streamDescriptor with
    | Some _ =>
        if decide (length inputs <= istr + 1)%nat then Fatal MissingIgnoreStream
        else
          ignoreInput ← defined (inputs !! (istr + 1)%nat);
          let ignoreDims := StreamDescription.m_sampleLayout ignoreInput in
          let count := to_size_t (to_size_t (dim0 ignoreDims * dim1 ignoreDims)
                                  * dim2 ignoreDims) in
          let newSequenceDataDenseIgnore :=
            DenseSequenceDataIds (Z.of_nat ismpl) 1 ignoreDims
              (replicate (Z.to_nat count) float_one) in
          data1 ← store_sequence data (istr + 1) ismpl
                    newSequenceDataDenseIgnore;
          Ok (Some (istr + 1)%nat, data1)
    | None => Ok (None, data)
    end;
  input ← defined (inputs !! istr);
  let dims := StreamDescription.m_sampleLayout input in
  '(ex', labels) ← SwapBlobData ex (datasetName streamDescriptor) [];
  if negb (Z.of_nat (length labels) =? to_size_t (dim0 dims * dim1 dims)) then
    Fatal UnexpectedSparseCount
  else
    let spatialSize := to_size_t (dim0 dims * dim1 dims) in
    let outChannels := dim2 dims in
    '(data2, indicesMemory) ←
      convert_labels (ignoreStream streamDescriptor) ignoreBuffer ismpl
        spatialSize outChannels labels 0 data1
        (replicate (length labels) 0);
    let newSequenceDataSparse :=
      SparseSequenceDataIds (Z.of_nat ismpl) 1
        [to_IndexType (Z.of_nat (length labels))]
        (to_IndexType (Z.of_nat (length labels)))
        indicesMemory
        (replicate (length labels) float_one) in
    data3 ← store_sequence data2 istr ismpl newSequenceDataSparse;
    Ok (match ignoreStream streamDescriptor with
        | Some _ => S (S istr)
        | None => S istr
        end, ex', data3).

(** One turn of the loop over the streams of a sample (lines 524-652). *)
Definition stream_step (inputs : list StreamDescription.t)
    (ex : ImageDatasetExample) (data : list (list (option SequenceData)))
    (streamDescriptor : StreamDescriptor) (istr ismpl : nat)
  : result (nat * ImageDatasetExample * list (list (option SequenceData))) :=
  input ← defined (inputs !! istr);
  if decide (StreamDescription.m_storageType input = dense)
  then dense_stream ex data streamDescriptor istr ismpl
  else sparse_stream inputs ex data streamDescriptor istr ismpl.

(** The loop [while (istr < m_inputStreams.size())]; [descriptors] are the
    stream descriptors from [iStreamDesc] on.  Every turn reads one, and
    reading past the last one is undefined. *)
Fixpoint fill_streams (inputs : list StreamDescription.t)
    (descriptors : list StreamDescriptor) (istr ismpl : nat)
    (ex : ImageDatasetExample) (data : list (list (option SequenceData)))
  : result (ImageDatasetExample * list (list (option SequenceData))) :=
  if decide (istr < length inputs)%nat then
    match descriptors with
    | [] => Undefined
    | streamDescriptor :: rest =>
        '(istr', ex', data') ←
          stream_step inputs ex data streamDescriptor istr ismpl;
        fill_streams inputs rest istr' ismpl ex' data'
    end
  else Ok (ex, data).

(** The loop over the samples (lines 517-656): [count] samples from
    [ismpl] on. *)
Fixpoint fill_samples (inputs : list StreamDescription.t)
    (descriptors : list StreamDescriptor) (count : nat) (ismpl : nat)
    (ld : IDsLoader) (ex : ImageDatasetExample)
    (data : list (list (option SequenceData)))
  : result (IDsLoader * ImageDatasetExample
            * list (list (option SequenceData))) :=
  match count with
  | O => Ok (ld, ex, data)
  | S count' =>
      '(ex1, data1) ← fill_streams inputs descriptors 0 ismpl ex data;
      '(ld', ex2) ← GetExample ld ex1;
      fill_samples inputs descriptors count' (S ismpl) ld' ex2 data1
  end.

Definition GetNextSequences (s : DataSource) (totalSampleCount : Z)
  : result (DataSource * Sequences) :=
  '(sampleCount, endOfEpoch) ← samplesForThisCall s totalSampleCount;
  let data :=
    replicate (length (m_inputStreams s))
      (replicate (Z.to_nat sampleCount) (None : option SequenceData)) in
  '(ld, ex, data') ←
    fill_samples (m_inputStreams s) (m_streamDescriptors s)
      (Z.to_nat sampleCount) 0 (m_dsLoader s) (m_example s) data;
  Ok (mkDataSource (m_inputStreams s) (m_outputStreams s)
        (m_streamDescriptors s) ld ex
        (m_minibatchSize s) (m_appendLastMinibatch s)
        (m_workerRank s) (m_numberOfWorkers s)
        (m_epochSize s)
        (to_size_t (m_currEpochSampleCount s + to_int sampleCount))
        (m_epochOverride s),
      mkSequences data' endOfEpoch).

End Reader.

(** *** A job of several readers *)

(** The reader of rank [rank] in a job whose readers are otherwise alike,
    and the configuration the job hands to it. *)
Definition at_rank (s : DataSource) (rank : Z) : DataSource :=
  mkDataSource (m_inputStreams s) (m_outputStreams s) (m_streamDescriptors s)
    (m_dsLoader s) (m_example s) (m_minibatchSize s) (m_appendLastMinibatch s)
    rank (m_numberOfWorkers s) (m_epochSize s) (m_currEpochSampleCount s)
    (m_epochOverride s).

Definition config_at_rank (config : EpochConfiguration.t) (rank : Z)
  : EpochConfiguration.t :=
  EpochConfiguration.mk (EpochConfiguration.m_numberOfWorkers config) rank
    (EpochConfiguration.m_minibatchSizeInSamples config)
    (EpochConfiguration.m_totalEpochSizeInSamples config).

(** The epoch size [StartEpoch] leaves in the reader of rank [rank]. *)
Definition epochSizeOfWorker `{ReaderLib} (s : DataSource)
    (config : EpochConfiguration.t) (rank : Z) : option Z :=
  match StartEpoch (at_rank s rank) (config_at_rank config rank) with
  | Ok s' => Some (m_epochSize s')
  | _ => None
  end.

Definition sumZ (l : list Z) : Z := foldr Z.add 0 l.

(** *** The readers a caller can hold *)

(** A reader is what the constructor returned, changed by any number of
    calls of [StartEpoch] and [GetNextSequences] that returned.  Worker
    rank, worker count and the values of an epoch configuration are
    [size_t]s, and so is whatever [m_minibatchSize] holds at first. *)
Inductive Reachable `{ReaderLib} : DataSource -> Prop :=
| Reachable_new config garbageSize garbageFlag s :
    is_size_t garbageSize ->
    is_size_t (default 0 (workerRank config)) ->
    is_size_t (default 1 (workersCount config)) ->
    DataSource_new config garbageSize garbageFlag = Ok s ->
    Reachable s
| Reachable_StartEpoch s config s' :
    Reachable s ->
    is_size_t (EpochConfiguration.m_minibatchSizeInSamples config) ->
    is_size_t (EpochConfiguration.m_totalEpochSizeInSamples config) ->
    StartEpoch s config = Ok s' ->
    Reachable s'
| Reachable_GetNextSequences s totalSampleCount s' sequences :
    Reachable s ->
    GetNextSequences s totalSampleCount = Ok (s', sequences) ->
    Reachable s'.

(** ** Vocabulary of the properties *)

(** *** Values in range *)

(** The members of the epoch state hold values of their type. *)
Definition epoch_state_ok (s : DataSource) : Prop :=
  is_size_t (m_workerRank s) /\ is_size_t (m_numberOfWorkers s) /\
  is_size_t (m_epochSize s) /\ is_size_t (m_currEpochSampleCount s).

Definition epoch_config_ok (config : EpochConfiguration.t) : Prop :=
  is_size_t (EpochConfiguration.m_workerRank config) /\
  is_size_t (EpochConfiguration.m_numberOfWorkers config) /\
  is_size_t (EpochConfiguration.m_minibatchSizeInSamples config) /\
  is_size_t (EpochConfiguration.m_totalEpochSizeInSamples config).

(** *** StartEpoch *)

(** The checks [StartEpoch] makes before it computes anything. *)
Definition StartEpoch_rejects (s : DataSource) (config : EpochConfiguration.t)
  : Prop :=
  m_epochSize s <> m_currEpochSampleCount s \/
  m_workerRank s <> EpochConfiguration.m_workerRank config \/
  m_numberOfWorkers s <> EpochConfiguration.m_numberOfWorkers config \/
  EpochConfiguration.m_minibatchSizeInSamples config mod m_numberOfWorkers s
    <> 0.

(** *** GetNextSequences: the count of samples *)

(** The reader after a call that read [taken] samples and left the loader
    and the adapter as [ld] and [ex]. *)
Definition after_reading (s : DataSource) (ld : IDsLoader)
    (ex : ImageDatasetExample) (taken : Z) : DataSource :=
  mkDataSource (m_inputStreams s) (m_outputStreams s) (m_streamDescriptors s)
    ld ex (m_minibatchSize s) (m_appendLastMinibatch s)
    (m_workerRank s) (m_numberOfWorkers s) (m_epochSize s)
    (m_currEpochSampleCount s + taken) (m_epochOverride s).

(** The sequences of a call before any is stored. *)
Definition blank_sequences (s : DataSource) (taken : Z)
  : list (list (option SequenceData)) :=
  replicate (length (m_inputStreams s))
    (replicate (Z.to_nat taken) None).

(** The three checks of lines 475-496, in the words of the specification. *)
Definition call_rejected (s : DataSource) (totalSampleCount : Z) : Prop :=
  let sampleCount := totalSampleCount / m_numberOfWorkers s in
  let remaining := m_epochSize s - m_currEpochSampleCount s in
  totalSampleCount <> m_minibatchSize s \/
  sampleCount = 0 \/
  (m_appendLastMinibatch s = true /\
   remaining <= 2 * sampleCount /\ remaining <> sampleCount + 1).

Global Instance call_rejected_dec s total : Decision (call_rejected s total).
Proof. unfold call_rejected. apply _. Defined.

(** The number of samples the specification gives to a call that passes the
    checks, and its end-of-epoch mark. *)
Definition samples_taken (s : DataSource) (totalSampleCount : Z) : Z :=
  let sampleCount := totalSampleCount / m_numberOfWorkers s in
  let remaining := m_epochSize s - m_currEpochSampleCount s in
  if m_appendLastMinibatch s && (remaining =? sampleCount + 1) then remaining
  else if negb (m_appendLastMinibatch s) && (remaining <=? sampleCount)
       then remaining
       else sampleCount.

Definition marks_end (s : DataSource) (totalSampleCount : Z) : bool :=
  let sampleCount := totalSampleCount / m_numberOfWorkers s in
  let remaining := m_epochSize s - m_currEpochSampleCount s in
  (m_appendLastMinibatch s && (remaining =? sampleCount + 1))
  || (negb (m_appendLastMinibatch s) && (remaining <=? sampleCount)).

(** What the checks need to mean what they say: the members hold values of
    their type, no more samples were read than the epoch has, and a
    minibatch slice with one appended sample still fits an [int]. *)
Definition call_in_range (s : DataSource) (totalSampleCount : Z) : Prop :=
  epoch_state_ok s /\ 0 <= totalSampleCount /\
  0 < m_numberOfWorkers s /\
  m_currEpochSampleCount s <= m_epochSize s /\
  totalSampleCount / m_numberOfWorkers s + 1 < 2 ^ 31.

(** What holds of every reader a caller can hold. *)
Definition epoch_invariant (s : DataSource) : Prop :=
  epoch_state_ok s /\ is_size_t (m_minibatchSize s) /\
  (m_currEpochSampleCount s = m_epochSize s \/
   (m_minibatchSize s / m_numberOfWorkers s + 1 < 2 ^ 31 ->
    m_currEpochSampleCount s <= m_epochSize s)).

(** The number of slots of every stream. *)
Definition slots (data : list (list (option SequenceData))) : list nat :=
  length <$> data.

(** *** GetNextSequences: the labels of a sparse stream *)

(** The label at a position is the ignore label of the descriptor. *)
Definition is_ignored (ignore : option IgnoreStreamDescriptor) (c : Z) : bool :=
  match ignore with
  | Some ig => c =? ignoreLabel ig
  | None => false
  end.

(** A label the conversion accepts: the ignore label, or a channel. *)
Definition label_ok (ignore : option IgnoreStreamDescriptor) (outChannels : Z)
    (c : Z) : bool :=
  is_ignored ignore c || ((0 <=? c) && (c <? outChannels)).

(** The mask and the indices in the words of the specification: the mask is
    0 at the ignored positions and 1 elsewhere; the index at a position is
    [label * spatialSize + position], and the position itself where the
    label is ignored. *)
Definition spec_ignore_mask (ignore : option IgnoreStreamDescriptor)
    (labels : list Z) : list float :=
  (fun c => if is_ignored ignore c then float_zero else float_one) <$> labels.

Definition spec_index (ignore : option IgnoreStreamDescriptor)
    (spatialSize : Z) (inz : nat) (c : Z) : Z :=
  if is_ignored ignore c then Z.of_nat inz
  else c * spatialSize + Z.of_nat inz.

Definition spec_sparse_indices (ignore : option IgnoreStreamDescriptor)
    (spatialSize : Z) (labels : list Z) : list Z :=
  imap (spec_index ignore spatialSize) labels.

(** The mask and the indices as the loop of lines 617-639 leaves them, one
    subscripted write per position from [inz] on. *)
Fixpoint mask_after (ignore : option IgnoreStreamDescriptor) (inz : nat)
    (labels : list Z) (mask : list float) : list float :=
  match labels with
  | [] => mask
  | c :: rest =>
      mask_after ignore (S inz) rest
        (if is_ignored ignore c then <[inz := float_zero]> mask else mask)
  end.

Fixpoint indices_after (ignore : option IgnoreStreamDescriptor)
    (spatialSize : Z) (inz : nat) (labels : list Z) (indices : list Z)
  : list Z :=
  match labels with
  | [] => indices
  | c :: rest =>
      indices_after ignore spatialSize (S inz) rest
        (<[inz := spec_index ignore spatialSize inz c]> indices)
  end.

(** The sequences with the mask [mask] in the sequence that [ignoreBuffer]
    points into, at [data[j][ismpl]]. *)
Definition put_mask (data : list (list (option SequenceData))) (j ismpl : nat)
    (row : list (option SequenceData)) (id n : Z) (layout : TensorShape)
    (mask : list float) : list (list (option SequenceData)) :=
  <[j := <[ismpl := Some (DenseSequenceDataIds id n layout mask)]> row]> data.

Definition with_mask (ignoreBuffer : option nat)
    (data : list (list (option SequenceData))) (ismpl : nat)
    (row : list (option SequenceData)) (id n : Z) (layout : TensorShape)
    (mask : list float) : list (list (option SequenceData)) :=
  match ignoreBuffer with
  | Some j => put_mask data j ismpl row id n layout mask
  | None => data
  end.

(** *** GetNextSequences: one turn of the stream loop *)

(** The adapter after [SwapBlobData] handed out the blob at [index]: the
    buffer there is the empty one that was swapped in. *)
Definition after_swap (ex : ImageDatasetExample) (index : nat)
  : ImageDatasetExample :=
  mkImageDatasetExample (m_blobNames ex) (<[index := []]> (m_blobs ex))
    (m_blob_shapes ex).

(** What a turn for a sparse stream finds: the stream at [istr] is sparse
    and has room for sample [ismpl]; the adapter holds the labels [xs] of the
    blob, which convert to the [int]s [cs]; the layout has at least one
    channel, and all of its positions can be [IndexType] indices. *)
Definition sparse_turn (inputs : list StreamDescription.t)
    (ex : ImageDatasetExample) (data : list (list (option SequenceData)))
    (d : StreamDescriptor) (istr ismpl : nat) (input : StreamDescription.t)
    (row : list (option SequenceData)) (index : nat)
    (xs : list float) (cs : list Z) : Prop :=
  let dims := StreamDescription.m_sampleLayout input in
  inputs !! istr = Some input /\
  StreamDescription.m_storageType input = sparse_csc /\
  data !! istr = Some row /\ (ismpl < length row)%nat /\
  find_blob (datasetName d) (m_blobNames ex) 0 = Some index /\
  m_blobs ex !! index = Some xs /\
  Forall2 (fun x c => float_to_int x = Some c) xs cs /\
  0 <= dim0 dims /\ 0 <= dim1 dims /\ 1 <= dim2 dims < 2 ^ 64 /\
  dim2 dims * (dim0 dims * dim1 dims) < 2 ^ 31.

(** What it finds when the descriptor names an ignore label: the next stream
    is the mask stream the constructor made for it, of the same height and
    width and one channel, with room for sample [ismpl]. *)
Definition ignore_turn (inputs : list StreamDescription.t)
    (data : list (list (option SequenceData))) (istr ismpl : nat)
    (input ignoreInput : StreamDescription.t)
    (ignoreRow : list (option SequenceData)) : Prop :=
  let dims := StreamDescription.m_sampleLayout input in
  inputs !! (istr + 1)%nat = Some ignoreInput /\
  StreamDescription.m_sampleLayout ignoreInput
    = mkTensorShape (dim0 dims) (dim1 dims) 1 /\
  data !! (istr + 1)%nat = Some ignoreRow /\ (ismpl < length ignoreRow)%nat.

(** The sequences a turn for a sparse stream leaves: the mask sequence,
    when there is one, and the sparse sequence. *)
Definition turn_mask_sequence (ismpl : nat) (dims : TensorShape)
    (ignore : option IgnoreStreamDescriptor) (cs : list Z) : SequenceData :=
  DenseSequenceDataIds (Z.of_nat ismpl) 1
    (mkTensorShape (dim0 dims) (dim1 dims) 1)
    (spec_ignore_mask ignore cs).

Definition turn_sparse_sequence (ismpl : nat) (spatialSize : Z)
    (ignore : option IgnoreStreamDescriptor) (cs : list Z) : SequenceData :=
  SparseSequenceDataIds (Z.of_nat ismpl) 1 [spatialSize] spatialSize
    (spec_sparse_indices ignore spatialSize cs)
    (replicate (length cs) float_one).

(** ** A sample installation

    Two blobs per example: ["data"], two channels of one row of three values,
    and ["label"], one label for each of the three positions. *)

(** One admissible reader library: [IndexType] is [int] and the reserved
    epoch size is [((size_t) -1) >> 2]. *)
Definition sample_lib : ReaderLib.
Proof.
  refine {| requestDataSize := 2 ^ 62 - 1; to_IndexType := to_int |}.
  abstract (intros z Hz; unfold to_int; rewrite Z.mod_small by lia; lia).
Defined.

Definition sample_pixels : list float :=
  float_of_Z <$> [10; 11; 12; 13; 14; 15].

Definition sample_blobs (labels : list Z) : list (BlobShape * list float) :=
  [ (mkBlobShape 2 1 3, sample_pixels);
    (mkBlobShape 1 1 3, float_of_Z <$> labels) ].

Definition sample_loader (labels : list Z) : IDsLoader :=
  mkIDsLoader ["data"; "label"]%string 7 (fun _ => sample_blobs labels) 0.

Definition sample_dense : StreamDescriptor :=
  mkStreamDescriptor "features" "data" dense 0 None.

Definition sample_sparse (channels : Z) (ignore : option IgnoreStreamDescriptor)
  : StreamDescriptor :=
  mkStreamDescriptor "labels" "label" sparse_csc channels ignore.

Definition sample_config (override : bool)
    (descriptors : list StreamDescriptor)
    (labels : list Z) (rank workers : Z) : ConfigParameters :=
  mkConfigParameters override (Some rank) (Some workers) descriptors
    (sample_loader labels).

(** The reader a constructor call returns, or a reader without streams when
    the constructor throws. *)
Definition constructed (config : ConfigParameters) : DataSource :=
  match DataSource_new config 0 false with
  | Ok s => s
  | _ =>
      mkDataSource [] [] [] (loader config) (mkImageDatasetExample [] [] [])
        0 false 0 1 0 0 false
  end.

(** The reader after a call of [StartEpoch], or the reader as it was when
    the call does not return. *)
Definition started `{ReaderLib} (s : DataSource) (config : EpochConfiguration.t)
  : DataSource :=
  match StartEpoch s config with
  | Ok s' => s'
  | _ => s
  end.

(** The step of [GetNextSequences], or the reader with no sequences when the
    call does not return. *)
Definition next_sequences `{ReaderLib} (s : DataSource) (totalSampleCount : Z)
  : DataSource * Sequences :=
  match GetNextSequences s totalSampleCount with
  | Ok r => r
  | _ => (s, mkSequences [] false)
  end.

(** A reader of rank [rank] among [workers], with the dense stream and a
    sparse stream of three channels; its examples carry the labels
    [2, 0, 1]. *)
Definition sample_reader (rank workers : Z) : DataSource :=
  constructed
    (sample_config false [sample_dense; sample_sparse 3 None] [2; 0; 1]
       rank workers).

(** The same with the epoch override. *)
Definition sample_reader_override (rank workers : Z) : DataSource :=
  constructed
    (sample_config true [sample_dense; sample_sparse 3 None] [2; 0; 1]
       rank workers).

(** A single reader whose sparse stream has two channels and the ignore
    label 2; its examples carry the labels [2, 1, 0]. *)
Definition sample_ignore : IgnoreStreamDescriptor :=
  mkIgnoreStreamDescriptor "ignore" 2.

Definition sample_reader_ignore : DataSource :=
  constructed
    (sample_config false [sample_dense; sample_sparse 2 (Some sample_ignore)]
       [2; 1; 0] 0 1).

(** A single reader whose examples carry a label that is no channel. *)
Definition sample_reader_bad_label : DataSource :=
  constructed
    (sample_config false [sample_dense; sample_sparse 3 None] [5; 0; 1] 0 1).

(** A single reader in an epoch of 5 samples, read 2 at a time. *)
Definition sample_epoch : DataSource :=
  @started sample_lib (sample_reader 0 1) (EpochConfiguration.mk 1 0 2 5).

(** The reader with the ignore label 2 at the start of an epoch of 5
    samples, read one at a time. *)
Definition sample_epoch_ignore : DataSource :=
  @started sample_lib sample_reader_ignore (EpochConfiguration.mk 1 0 1 5).

(** The reader whose examples carry the label 5, in the same epoch. *)
Definition sample_epoch_bad_label : DataSource :=
  @started sample_lib sample_reader_bad_label (EpochConfiguration.mk 1 0 2 5).

(** [sample_epoch] and its sequences after one call for 2 samples. *)
Definition sample_after : DataSource * Sequences :=
  @next_sequences sample_lib sample_epoch 2.

(** ** Vocabulary of the further properties *)

(** *** The adapter *)

(** The buffers and the shapes of the adapter are one per blob name. *)
Definition adapter_ok (ex : ImageDatasetExample) : Prop :=
  length (m_blobs ex) = length (m_blobNames ex) /\
  length (m_blob_shapes ex) = length (m_blobNames ex).

(** *** The stream tables of the constructor *)

(** An input stream and the output stream made with it: the same id, name
    and layout, and the output stream dense. *)
Definition output_of (input output : StreamDescription.t) : Prop :=
  StreamDescription.m_id output = StreamDescription.m_id input /\
  StreamDescription.m_name output = StreamDescription.m_name input /\
  StreamDescription.m_sampleLayout output
    = StreamDescription.m_sampleLayout input /\
  StreamDescription.m_storageType output = dense.

(** Tables in which every input stream has its output stream and the id of
    a stream is its position; the counters stand at the next position. *)
Definition tables_ok (tb : StreamTables) : Prop :=
  Forall2 output_of (inputStreams tb) (outputStreams tb) /\
  stream_id_in tb = Z.of_nat (length (inputStreams tb)) /\
  stream_id_out tb = Z.of_nat (length (outputStreams tb)) /\
  forall i sd,
    inputStreams tb !! i = Some sd ->
    StreamDescription.m_id sd = to_size_t (Z.of_nat i).

(** The input streams stand in the order of the descriptors: one stream of
    the descriptor's name and storage for each, of as many channels as the
    descriptor says when it is sparse, and right after the stream of a
    sparse descriptor with an ignore label the dense mask stream of that
    name, of the same first two dimensions and one channel.  This is the
    order in which the stream loop of [GetNextSequences] walks them. *)
Fixpoint lockstep (inputs : list StreamDescription.t)
    (descriptors : list StreamDescriptor) : Prop :=
  match descriptors with
  | [] => inputs = []
  | d :: rest =>
      match inputs with
      | [] => False
      | sd :: more =>
          StreamDescription.m_name sd = name d /\
          StreamDescription.m_storageType sd = datasetStorageType d /\
          match datasetStorageType d with
          | dense => lockstep more rest
          | sparse_csc =>
              dim2 (StreamDescription.m_sampleLayout sd)
                = to_size_t (dimension d) /\
              match ignoreStream d with
              | None => lockstep more rest
              | Some ig =>
                  match more with
                  | [] => False
                  | mask :: more' =>
                      StreamDescription.m_name mask = ignoreStreamName ig /\
                      StreamDescription.m_storageType mask = dense /\
                      StreamDescription.m_sampleLayout mask
                        = mkTensorShape
                            (dim0 (StreamDescription.m_sampleLayout sd))
                            (dim1 (StreamDescription.m_sampleLayout sd)) 1 /\
                      lockstep more' rest
                  end
              end
          end
      end
  end.

(** The blob of a sparse descriptor has one channel in the adapter. *)
Definition sparse_shape_ok (ex : ImageDatasetExample) (d : StreamDescriptor)
  : bool :=
  match GetBlobShape ex (datasetName d) with
  | Ok shape => shape0 shape =? 1
  | _ => false
  end.

(** A descriptor the constructor accepts: its blob is one of the loader,
    with one channel when the descriptor is sparse. *)
Definition describable (blobNames : list string) (ex : ImageDatasetExample)
    (d : StreamDescriptor) : Prop :=
  datasetName d ∈ blobNames /\
  (datasetStorageType d = sparse_csc -> sparse_shape_ok ex d = true).

(** The error the constructor raises for a descriptor it does not accept. *)
Definition describe_error (blobNames : list string) (d : StreamDescriptor)
  : RuntimeError :=
  if decide (datasetName d ∈ blobNames) then InvalidSparseShape
  else BlobNotInDataset (datasetName d).

(** *** A whole epoch *)

(** The calls of [GetNextSequences] an epoch of [E] samples takes, with
    minibatches of [M] samples over [W] workers: one for every full
    minibatch, and one more when the rest gives every worker a sample. *)
Definition calls_per_epoch (E M W : Z) : Z :=
  E / M + (if E mod M / W =? 0 then 0 else 1).

(** The calls a reader still needs to read its epoch to the end. *)
Definition calls_left (s : DataSource) : Z :=
  let sampleCount := m_minibatchSize s / m_numberOfWorkers s in
  let remaining := m_epochSize s - m_currEpochSampleCount s in
  if m_appendLastMinibatch s
  then if remaining =? 0 then 0 else (remaining - 1) / sampleCount
  else (remaining + sampleCount - 1) / sampleCount.

(** A reader in the middle of an epoch: its members are in range, its
    minibatch is split evenly over the workers, a slice with one more
    sample fits an [int], and when it appends its last minibatch, what is
    left of its epoch is a number of slices and one sample. *)
Definition in_epoch (s : DataSource) : Prop :=
  let sampleCount := m_minibatchSize s / m_numberOfWorkers s in
  let remaining := m_epochSize s - m_currEpochSampleCount s in
  epoch_state_ok s /\
  0 < m_numberOfWorkers s /\ 0 < m_minibatchSize s /\
  m_minibatchSize s mod m_numberOfWorkers s = 0 /\
  sampleCount + 1 < 2 ^ 31 /\
  0 <= remaining /\
  (m_appendLastMinibatch s = true ->
   remaining = 0 \/ exists j, 1 <= j /\ remaining = j * sampleCount + 1).

(** [count] calls of [GetNextSequences] in a row, each for the minibatch
    size of the reader and each returning; [mark] is the end-of-epoch mark
    of the last of them. *)
Inductive Reads `{ReaderLib} : DataSource -> nat -> bool -> DataSource -> Prop :=
| Reads_none s : Reads s 0 false s
| Reads_more s count mark s1 s' sequences :
    Reads s count mark s1 ->
    GetNextSequences s1 (m_minibatchSize s1) = Ok (s', sequences) ->
    Reads s (S count) (m_endOfEpoch sequences) s'.

(** *** The sequences of a minibatch *)

(** The fields [m_id] and [m_numberOfSamples] of a sequence. *)
Definition m_id (q : SequenceData) : Z :=
  match q with
  | DenseSequenceDataIds id _ _ _ => id
  | SparseSequenceDataIds id _ _ _ _ _ => id
  end.

Definition m_numberOfSamples (q : SequenceData) : Z :=
  match q with
  | DenseSequenceDataIds _ n _ _ => n
  | SparseSequenceDataIds _ n _ _ _ _ => n
  end.

(** The slot [data[istr][ismpl]]. *)
Definition slot_at (data : list (list (option SequenceData)))
    (istr ismpl : nat) : option (option SequenceData) :=
  match data !! istr with
  | Some row => row !! ismpl
  | None => None
  end.

(** The slot [data[istr][ismpl]] holds a sequence, the one of sample
    [ismpl]. *)
Definition filled (data : list (list (option SequenceData)))
    (istr ismpl : nat) : Prop :=
  exists q,
    slot_at data istr ismpl = Some (Some q) /\
    m_id q = Z.of_nat ismpl /\ m_numberOfSamples q = 1.

(** A dense descriptor that names an ignore label. *)
Definition dense_with_ignore (d : StreamDescriptor) : Prop :=
  datasetStorageType d = dense /\ ignoreStream d <> None.

(** The streams of a reader as the constructor leaves them: the input
    streams in the order of the descriptors, and every descriptor naming a
    blob of the adapter, which has one buffer and one shape per name. *)
Definition streams_ok (s : DataSource) : Prop :=
  lockstep (m_inputStreams s) (m_streamDescriptors s) /\
  adapter_ok (m_example s) /\
  Forall (fun d => datasetName d ∈ m_blobNames (m_example s))
    (m_streamDescriptors s).

(** The errors of [GetNextSequences] that depend on the call, the epoch
    and the data: all of its errors but the one for a missing mask stream,
    and none of the adapter. *)
Definition call_error (e : RuntimeError) : bool :=
  match e with
  | SampleCountMismatch | MoreWorkersThanSamples | AppendingMoreThanOne
  | DenseWithIgnore | UnexpectedSparseCount | InvalidChannel => true
  | _ => false
  end.

(** A result that is no other fatal error than those. *)
Definition raises_only {A : Type} (r : result A) : Prop :=
  forall e, r = Fatal e -> call_error e = true.

(** *** Further samples *)

(** The adapter of the sample reader, holding the first example. *)
Definition sample_adapter : ImageDatasetExample :=
  m_example (sample_reader 0 1).

(** The adapter the constructor builds for the two blob names, before the
    first example. *)
Definition sample_blank_adapter : ImageDatasetExample :=
  match ImageDatasetExample_new ["data"; "label"]%string with
  | Ok ex => ex
  | _ => mkImageDatasetExample [] [] []
  end.

(** The adapter and the caller's vector after the labels were swapped
    out. *)
Definition sample_swapped : ImageDatasetExample * list float :=
  match SwapBlobData sample_adapter "label" [] with
  | Ok r => r
  | _ => (sample_adapter, [])
  end.

(** The adapter after the label blob was reshaped to one channel of two
    rows of two values. *)
Definition sample_reshaped : ImageDatasetExample :=
  match ReshapeBlob sample_adapter 1 1 2 2 with
  | Ok ex => ex
  | _ => sample_adapter
  end.

(** The reader of rank 0 of three workers in an epoch of 18 samples, read
    in minibatches of 6. *)
Definition sample_epoch_even : DataSource :=
  @started sample_lib (sample_reader 0 3) (EpochConfiguration.mk 3 0 6 18).

(** The same reader in an epoch of 2 samples, fewer than the workers. *)
Definition sample_epoch_short : DataSource :=
  @started sample_lib (sample_reader 0 3) (EpochConfiguration.mk 3 0 3 2).

(** The reader of rank 1 of three workers with the epoch override, in an
    epoch of all examples. *)
Definition sample_epoch_override : DataSource :=
  @started sample_lib (sample_reader_override 1 3)
    (EpochConfiguration.mk 3 1 6 (2 ^ 62 - 1)).

(** The second and the third call of [sample_epoch] for 2 samples. *)
Definition sample_after2 : DataSource * Sequences :=
  @next_sequences sample_lib (fst sample_after) 2.

Definition sample_after3 : DataSource * Sequences :=
  @next_sequences sample_lib (fst sample_after2) 2.

(** The first call of [sample_epoch_ignore] for 1 sample. *)
Definition sample_after_ignore : DataSource * Sequences :=
  @next_sequences sample_lib sample_epoch_ignore 1.

(** A single reader whose dense stream names an ignore label, in an epoch
    of no samples. *)
Definition sample_dense_ignore : StreamDescriptor :=
  mkStreamDescriptor "features" "data" dense 0 (Some sample_ignore).

Definition sample_reader_dense_ignore : DataSource :=
  constructed (sample_config false [sample_dense_ignore] [2; 0; 1] 0 1).

Definition sample_epoch_empty : DataSource :=
  @started sample_lib sample_reader_dense_ignore
    (EpochConfiguration.mk 1 0 1 0).

(** ** The turns of the stream loop inside a call *)

Section Turns.

Context `{ReaderLib}.

(** The stream loop of one sample (lines 522-653) stopped when [j] turns
    are done: the stream index, the adapter and the sequences with which
    the turn for the next descriptor begins.  There is no such state when
    the loop has ended, or a turn has not returned, before that. *)
Fixpoint stream_loop_before (inputs : list StreamDescription.t)
    (descriptors : list StreamDescriptor) (j istr ismpl : nat)
    (ex : ImageDatasetExample) (data : list (list (option SequenceData)))
    {struct j}
  : option (nat * ImageDatasetExample * list (list (option SequenceData))) :=
  match j with
  | O => Some (istr, ex, data)
  | S j' =>
      if decide (istr < length inputs)%nat then
        match descriptors with
        | [] => None
        | streamDescriptor :: rest =>
            match stream_step inputs ex data streamDescriptor istr ismpl with
            | Ok (istr', ex', data') =>
                stream_loop_before inputs rest j' istr' ismpl ex' data'
            | _ => None
            end
        end
      else None
  end.

(** The state in which a call of [GetNextSequences] that reads [taken]
    samples begins the turn for descriptor [j] of sample [ismpl]: the
    samples before [ismpl] are filled in, and [j] turns of the stream loop
    of sample [ismpl] are done. *)
Definition turn_state (s : DataSource) (taken : Z) (ismpl j : nat)
  : option (nat * ImageDatasetExample * list (list (option SequenceData))) :=
  match fill_samples (m_inputStreams s) (m_streamDescriptors s) ismpl 0
          (m_dsLoader s) (m_example s) (blank_sequences s taken) with
  | Ok (_, ex, data) =>
      stream_loop_before (m_inputStreams s) (m_streamDescriptors s) j 0 ismpl
        ex data
  | _ => None
  end.

(** The call [GetNextSequences(totalSampleCount)] passes its checks, has
    sample [ismpl] to read, and comes to the turn for descriptor [j] of
    that sample, [d], with the stream index [istr], the adapter [ex] and
    the sequences [data]. *)
Definition call_reaches (s : DataSource) (totalSampleCount : Z)
    (ismpl j : nat) (d : StreamDescriptor) (istr : nat)
    (ex : ImageDatasetExample) (data : list (list (option SequenceData)))
  : Prop :=
  exists taken endOfEpoch,
    samplesForThisCall s totalSampleCount = Ok (taken, endOfEpoch) /\
    (ismpl < Z.to_nat taken)%nat /\
    m_streamDescriptors s !! j = Some d /\
    turn_state s taken ismpl j = Some (istr, ex, data).

End Turns.

(** *** Samples of turns *)

(** The turn for the sparse stream in the second sample of [sample_epoch],
    and the turn for the dense stream there. *)
Definition sample_sparse_turn
  : nat * ImageDatasetExample * list (list (option SequenceData)) :=
  default (0%nat, m_example sample_epoch, [])
    (@turn_state sample_lib sample_epoch 2 1 1).

Definition sample_dense_turn
  : nat * ImageDatasetExample * list (list (option SequenceData)) :=
  default (0%nat, m_example sample_epoch, [])
    (@turn_state sample_lib sample_epoch 2 1 0).

(** The turn for the sparse stream in the one sample of
    [sample_epoch_ignore]. *)
Definition sample_ignore_turn
  : nat * ImageDatasetExample * list (list (option SequenceData)) :=
  default (0%nat, m_example sample_epoch_ignore, [])
    (@turn_state sample_lib sample_epoch_ignore 1 0 1).

(** A loader whose first example carries the three labels [2, 1, 0] and
    whose later examples carry the two labels [1, 0], and a single reader
    on it whose sparse stream has two channels and the ignore label 2, at
    the start of an epoch of 5 samples read 2 at a time. *)
Definition sample_loader_short : IDsLoader :=
  mkIDsLoader ["data"; "label"]%string 7
    (fun position =>
       match position with
       | O => sample_blobs [2; 1; 0]
       | S _ => [ (mkBlobShape 2 1 3, sample_pixels);
                  (mkBlobShape 1 1 2, float_of_Z <$> [1; 0]) ]
       end) 0.

Definition sample_epoch_short_labels : DataSource :=
  @started sample_lib
    (constructed
       (mkConfigParameters false (Some 0) (Some 1)
          [sample_dense; sample_sparse 2 (Some sample_ignore)]
          sample_loader_short))
    (EpochConfiguration.mk 1 0 2 5).

(** A single reader whose sparse stream is configured with no channel and
    the ignore label 2, on examples with the labels [2, 1, 5], at the start
    of an epoch of 5 samples read one at a time. *)
Definition sample_epoch_no_channel : DataSource :=
  @started sample_lib
    (constructed
       (sample_config false [sample_dense; sample_sparse 0 (Some sample_ignore)]
          [2; 1; 5] 0 1))
    (EpochConfiguration.mk 1 0 1 5).

(** A single reader without streams, at the start of an epoch of [2^33]
    samples read in minibatches of [2^31]. *)
Definition sample_reader_no_streams : DataSource :=
  constructed (sample_config false [] [2; 0; 1] 0 1).

Definition sample_epoch_wide : DataSource :=
  @started sample_lib sample_reader_no_streams
    (EpochConfiguration.mk 1 0 (2 ^ 31) (2 ^ 33)).

(** * Properties *)

(** ** Arithmetic of the machine integers *)

Lemma to_size_t_small z : is_size_t z -> to_size_t z = z.
Proof. intros Hz. apply Z.mod_small. exact Hz. Qed.

Lemma to_size_t_range z : is_size_t (to_size_t z).
Proof. unfold is_size_t, to_size_t. apply Z.mod_pos_bound. lia. Qed.

Lemma to_int_small z : is_int z -> to_int z = z.
Proof.
  unfold is_int, to_int. intros Hz.
  rewrite Z.mod_small by lia. lia.
Qed.

Lemma float_to_int_of_Z z : is_int z -> float_to_int (float_of_Z z) = Some z.
Proof.
  unfold is_int, float_to_int, float_of_Z. intros Hz.
  change (0 <=? 0) with true. cbv iota.
  rewrite Z.pow_0_r, Z.mul_1_r, N2Z.inj_abs_N.
  destruct (Z.ltb_spec z 0) as [Hneg | Hpos].
  - rewrite Z.abs_neq by lia. rewrite Z.opp_involutive.
    destruct (Z.leb_spec (- 2 ^ 31) z); [| lia].
    destruct (Z.ltb_spec z (2 ^ 31)); [reflexivity | lia].
  - rewrite Z.abs_eq by lia.
    destruct (Z.leb_spec (- 2 ^ 31) z); [| lia].
    destruct (Z.ltb_spec z (2 ^ 31)); [reflexivity | lia].
Qed.

Lemma float_to_int_range x c : float_to_int x = Some c -> is_int c.
Proof.
  unfold float_to_int, is_int. destruct x as [| neg | neg m e];
    [discriminate | discriminate |].
  set (v := if neg then _ else _).
  destruct (Z.leb_spec (- 2 ^ 31) v); [| discriminate].
  destruct (Z.ltb_spec v (2 ^ 31)); [| discriminate].
  cbn [andb]. intros [= <-]. lia.
Qed.

(** ** The share of one reader *)

Section ShareArithmetic.

Variables E M W : Z.
Hypothesis E_range : is_size_t E.
Hypothesis M_pos : 0 < M.
Hypothesis W_pos : 0 < W.

Lemma full_minibatches_le : 0 <= E / M * M <= E.
Proof.
  destruct E_range as [HE0 _].
  pose proof (Z.mul_div_le E M M_pos).
  pose proof (Z.div_pos E M HE0 M_pos).
  nia.
Qed.

Lemma remainder_range : 0 <= E mod M < M.
Proof. apply Z.mod_pos_bound. exact M_pos. Qed.

Lemma epoch_decomposition : E = E / M * M + E mod M.
Proof. rewrite Z.mul_comm. apply Z.div_mod. lia. Qed.

Lemma share_bounds :
  0 <= E / M * M / W /\
  0 <= E mod M / W /\
  E / M * M / W + E mod M / W + (if 0 <? E mod M mod W then 1 else 0) <= E.
Proof.
  pose proof full_minibatches_le as [Hf0 Hf].
  pose proof remainder_range as [Hr0 _].
  pose proof epoch_decomposition as HE.
  assert (Hq1 : 0 <= E / M * M / W) by (apply Z.div_pos; lia).
  assert (Hq2 : 0 <= E mod M / W) by (apply Z.div_pos; lia).
  assert (Hl1 : W * (E / M * M / W) <= E / M * M)
    by (apply Z.mul_div_le; lia).
  pose proof (Z.div_mod (E mod M) W ltac:(lia)) as Hdm.
  pose proof (Z.mod_pos_bound (E mod M) W W_pos) as [Hm0 Hm].
  split; [exact Hq1 | split; [exact Hq2 |]].
  destruct (Z.ltb_spec 0 (E mod M mod W)); nia.
Qed.

Lemma thisReaderEpochSize_eq rank :
  0 <= rank ->
  thisReaderEpochSize E M W rank =
    (E / M * M / W + E mod M / W
       + (if rank <? E mod M mod W then 1 else 0),
     (E mod M / W =? 0) && (rank <? E mod M mod W)).
Proof.
  intros Hrank.
  pose proof full_minibatches_le as [Hf0 Hf].
  pose proof share_bounds as (Hq1 & Hq2 & Hsum).
  destruct E_range as [HE0 HE1].
  pose proof (Z.mod_pos_bound (E mod M) W W_pos) as [Hm0 Hm].
  unfold thisReaderEpochSize.
  rewrite (to_size_t_small (E / M * M)) by (unfold is_size_t; lia).
  destruct (Z.eqb_spec (E mod M) 0) as [Hr | Hr]; cbn [negb].
  - rewrite Hr. rewrite Z.div_0_l, Z.mod_0_l by lia.
    destruct (Z.ltb_spec rank 0); [lia |].
    rewrite andb_false_r. f_equal. lia.
  - assert (Hwp : is_size_t (E / M * M / W + E mod M / W)).
    { unfold is_size_t.
      destruct (Z.ltb_spec 0 (E mod M mod W)); lia. }
    rewrite (to_size_t_small _ Hwp).
    destruct (Z.eqb_spec (E mod M mod W) 0) as [Hx | Hx]; cbn [negb].
    + rewrite Hx. destruct (Z.ltb_spec rank 0); [lia |].
      rewrite andb_false_r. f_equal. lia.
    + destruct (Z.ltb_spec rank (E mod M mod W)) as [Hlt | Hge].
      * rewrite to_size_t_small.
        2:{ unfold is_size_t.
            destruct (Z.ltb_spec 0 (E mod M mod W)); lia. }
        rewrite negb_involutive, andb_true_r. reflexivity.
      * rewrite andb_false_r. f_equal. lia.
Qed.

End ShareArithmetic.

(** ** StartEpoch *)

Section StartEpochFacts.

Context `{ReaderLib}.

Lemma globalEpochSize_size_t s config :
  is_size_t (EpochConfiguration.m_totalEpochSizeInSamples config) ->
  is_size_t (globalEpochSize s config).
Proof.
  intros Htotal. unfold globalEpochSize.
  destruct (UseAllExamplesFromDatasetForEpoch config); [| exact Htotal].
  destruct (m_epochOverride s); apply to_size_t_range.
Qed.

Lemma globalEpochSize_range s config :
  epoch_config_ok config -> is_size_t (globalEpochSize s config).
Proof. intros (_ & _ & _ & Htotal). apply globalEpochSize_size_t, Htotal. Qed.

Lemma StartEpoch_accepts s config :
  ~ StartEpoch_rejects s config ->
  m_numberOfWorkers s <> 0 ->
  EpochConfiguration.m_minibatchSizeInSamples config <> 0 ->
  StartEpoch s config =
    let share :=
      thisReaderEpochSize (globalEpochSize s config)
        (EpochConfiguration.m_minibatchSizeInSamples config)
        (m_numberOfWorkers s) (m_workerRank s) in
    Ok (mkDataSource (m_inputStreams s) (m_outputStreams s)
          (m_streamDescriptors s) (m_dsLoader s) (m_example s)
          (EpochConfiguration.m_minibatchSizeInSamples config) (snd share)
          (m_workerRank s) (m_numberOfWorkers s)
          (fst share) 0 (m_epochOverride s)).
Proof.
  unfold StartEpoch_rejects, StartEpoch. intros Hrej HW HM.
  destruct (Z.eqb_spec (m_epochSize s) (m_currEpochSampleCount s));
    [| tauto].
  destruct (Z.eqb_spec (m_workerRank s) (EpochConfiguration.m_workerRank config));
    [| tauto].
  destruct (Z.eqb_spec (m_numberOfWorkers s)
              (EpochConfiguration.m_numberOfWorkers config)); [| tauto].
  destruct (Z.eqb_spec (m_numberOfWorkers s) 0); [tauto |].
  destruct (Z.eqb_spec
              (EpochConfiguration.m_minibatchSizeInSamples config
                 mod m_numberOfWorkers s) 0); [| tauto].
  destruct (Z.eqb_spec (EpochConfiguration.m_minibatchSizeInSamples config) 0);
    [tauto |].
  cbn [negb].
  destruct (thisReaderEpochSize _ _ _ _) as [size append]. reflexivity.
Qed.

Lemma StartEpoch_rejected s config :
  m_numberOfWorkers s <> 0 ->
  StartEpoch_rejects s config -> is_fatal (StartEpoch s config).
Proof.
  unfold StartEpoch_rejects, StartEpoch, is_fatal. intros HW Hrej.
  destruct (Z.eqb_spec (m_epochSize s) (m_currEpochSampleCount s));
    [| eauto].
  destruct (Z.eqb_spec (m_workerRank s) (EpochConfiguration.m_workerRank config));
    [| eauto].
  destruct (Z.eqb_spec (m_numberOfWorkers s)
              (EpochConfiguration.m_numberOfWorkers config)); [| eauto].
  destruct (Z.eqb_spec (m_numberOfWorkers s) 0); [tauto |].
  destruct (Z.eqb_spec
              (EpochConfiguration.m_minibatchSizeInSamples config
                 mod m_numberOfWorkers s) 0); [tauto | eauto].
Qed.

Lemma StartEpoch_fatal_rejects s config :
  is_fatal (StartEpoch s config) -> StartEpoch_rejects s config.
Proof.
  unfold StartEpoch_rejects, StartEpoch, is_fatal. intros [e He].
  destruct (Z.eqb_spec (m_epochSize s) (m_currEpochSampleCount s));
    [| tauto].
  destruct (Z.eqb_spec (m_workerRank s) (EpochConfiguration.m_workerRank config));
    [| tauto].
  destruct (Z.eqb_spec (m_numberOfWorkers s)
              (EpochConfiguration.m_numberOfWorkers config)); [| tauto].
  destruct (Z.eqb_spec (m_numberOfWorkers s) 0); [discriminate |].
  destruct (Z.eqb_spec
              (EpochConfiguration.m_minibatchSizeInSamples config
                 mod m_numberOfWorkers s) 0); [| tauto].
  cbn [negb] in He.
  destruct (Z.eqb_spec (EpochConfiguration.m_minibatchSizeInSamples config) 0);
    [discriminate |].
  destruct (thisReaderEpochSize _ _ _ _); discriminate.
Qed.

Lemma StartEpoch_ok_inv s config s' :
  StartEpoch s config = Ok s' ->
  ~ StartEpoch_rejects s config /\
  m_numberOfWorkers s <> 0 /\
  EpochConfiguration.m_minibatchSizeInSamples config <> 0.
Proof.
  unfold StartEpoch_rejects, StartEpoch. intros Hok.
  destruct (Z.eqb_spec (m_epochSize s) (m_currEpochSampleCount s));
    [| discriminate].
  destruct (Z.eqb_spec (m_workerRank s) (EpochConfiguration.m_workerRank config));
    [| discriminate].
  destruct (Z.eqb_spec (m_numberOfWorkers s)
              (EpochConfiguration.m_numberOfWorkers config)); [| discriminate].
  destruct (Z.eqb_spec (m_numberOfWorkers s) 0); [discriminate |].
  destruct (Z.eqb_spec
              (EpochConfiguration.m_minibatchSizeInSamples config
                 mod m_numberOfWorkers s) 0); [| discriminate].
  cbn [negb] in Hok.
  destruct (Z.eqb_spec (EpochConfiguration.m_minibatchSizeInSamples config) 0);
    [discriminate |].
  tauto.
Qed.

End StartEpochFacts.

(** ** The shares of all readers *)

Lemma sumZ_app l1 l2 : sumZ (l1 ++ l2) = sumZ l1 + sumZ l2.
Proof.
  unfold sumZ. induction l1 as [| x l1 IH]; cbn [foldr app]; [reflexivity |].
  rewrite IH. lia.
Qed.

(** [n] readers with the same base share, the first [e] of them with one
    sample more. *)
Lemma sumZ_shares (n : nat) (b e : Z) :
  0 <= e ->
  sumZ ((fun k => b + (if k <? e then 1 else 0)) <$> seqZ 0 (Z.of_nat n))
  = Z.of_nat n * b + Z.min e (Z.of_nat n).
Proof.
  intros He. induction n as [| n IH].
  - rewrite seqZ_nil by lia. cbn. lia.
  - rewrite seqZ_S, fmap_app, sumZ_app, IH. unfold sumZ. cbn.
    rewrite Z.add_0_l.
    destruct (Z.ltb_spec (Z.of_nat n) e); lia.
Qed.

Lemma exact_split (a M W : Z) :
  0 < W -> M mod W = 0 -> W * (a * M / W) = a * M.
Proof.
  intros HW HM.
  assert (Hdiv : (W | a * M)).
  { apply Z.divide_mul_r. apply Z.mod_divide; [lia | exact HM]. }
  destruct Hdiv as [q Hq]. rewrite Hq.
  rewrite Z.div_mul by lia. lia.
Qed.

(** [SetConfiguration] only checks: when it returns, the reader is as it
    was. *)
Lemma SetConfiguration_checks_only s config s' :
  SetConfiguration s config = Ok s' -> s' = s.
Proof.
  unfold SetConfiguration. intros Hok.
  repeat match type of Hok with
         | context [if ?b then _ else _] => destruct b
         end; congruence.
Qed.

Section Claims_StartEpoch.

Context `{ReaderLib}.

(** C2.  For an epoch size [E] of the job and a positive minibatch size [M]
    that the number of workers [W] divides, [StartEpoch] returns, and it
    leaves as epoch size of the reader [floor(E/M)*M/W], plus [floor(r/W)]
    for the rest [r = E mod M] when there is one, plus one sample when the
    rank of the reader is below [r mod W]; it sets [m_appendLastMinibatch]
    exactly when [r > 0], [floor(r/W) = 0] and the rank is below
    [r mod W]. *)
Theorem StartEpoch_reader_share (s : DataSource) (config : EpochConfiguration.t) :
  let E := globalEpochSize s config in
  let M := EpochConfiguration.m_minibatchSizeInSamples config in
  let W := m_numberOfWorkers s in
  let rank := m_workerRank s in
  let r := E mod M in
  epoch_state_ok s -> epoch_config_ok config ->
  m_epochSize s = m_currEpochSampleCount s ->
  rank = EpochConfiguration.m_workerRank config ->
  W = EpochConfiguration.m_numberOfWorkers config ->
  0 < W -> 0 < M -> M mod W = 0 ->
  exists s',
    StartEpoch s config = Ok s' /\
    m_epochSize s' =
      E / M * M / W + (if 0 <? r then r / W else 0)
      + (if rank <? r mod W then 1 else 0) /\
    (m_appendLastMinibatch s' = true <->
       0 < r /\ r / W = 0 /\ rank < r mod W).
Proof.
  intros E M W rank r Hs Hc Hdone Hrank Hworkers HW HM Hdiv.
  pose proof (globalEpochSize_range s config Hc) as HE.
  destruct Hs as (Hr0 & _).
  assert (Hacc : ~ StartEpoch_rejects s config).
  { unfold StartEpoch_rejects. fold M W rank. lia. }
  rewrite (StartEpoch_accepts s config Hacc) by (fold W M; lia).
  fold E M W rank.
  rewrite (thisReaderEpochSize_eq E M W HE HM HW rank)
    by (destruct Hr0; assumption).
  fold r. cbn zeta. eexists. split; [reflexivity |]. cbn [m_epochSize
    m_appendLastMinibatch fst snd].
  pose proof (Z.mod_pos_bound E M HM) as [Hr1 Hr2]. fold r in Hr1, Hr2.
  pose proof (Z.mod_pos_bound r W HW) as [Hx1 Hx2].
  split.
  - destruct (Z.ltb_spec 0 r) as [Hpos | Hzero]; [reflexivity |].
    assert (r = 0) as -> by lia. rewrite Z.div_0_l by lia. reflexivity.
  - rewrite andb_true_iff, Z.eqb_eq, Z.ltb_lt.
    split; [| tauto]. intros [Hq Hlt]. repeat split; try assumption.
    destruct (Z.eq_dec r 0) as [Hz | Hz]; [| lia].
    rewrite Hz, Z.mod_0_l in Hlt by lia. destruct Hr0. lia.
Qed.

(** C1.  In a job of [W] readers whose minibatch size [M] is positive and
    divisible by [W], [StartEpoch] returns in the reader of every rank, and
    the epoch sizes it leaves in the readers of ranks [0 .. W-1] add up to
    the epoch size of the job, whether or not [M] divides that size. *)
Theorem StartEpoch_shares_sum (s : DataSource) (config : EpochConfiguration.t) :
  let M := EpochConfiguration.m_minibatchSizeInSamples config in
  let W := m_numberOfWorkers s in
  epoch_config_ok config ->
  m_epochSize s = m_currEpochSampleCount s ->
  W = EpochConfiguration.m_numberOfWorkers config ->
  0 < W -> 0 < M -> M mod W = 0 ->
  exists sizes,
    mapM (epochSizeOfWorker s config) (seqZ 0 W) = Some sizes /\
    sumZ sizes = globalEpochSize s config.
Proof.
  intros M W Hc Hdone Hworkers HW HM Hdiv.
  set (E := globalEpochSize s config).
  pose proof (globalEpochSize_range s config Hc) as HE. fold E in HE.
  set (share := fun k =>
    (E / M * M / W + E mod M / W) + (if k <? E mod M mod W then 1 else 0)).
  exists (share <$> seqZ 0 W). split.
  - apply mapM_Some_2, Forall2_fmap_r, Forall_Forall2_diag, Forall_seqZ.
    intros rank Hrank. unfold epochSizeOfWorker.
    assert (Hacc : ~ StartEpoch_rejects (at_rank s rank)
                      (config_at_rank config rank)).
    { unfold StartEpoch_rejects. cbn. fold M W. lia. }
    rewrite (StartEpoch_accepts _ _ Hacc) by (cbn; fold W M; lia).
    cbn zeta. cbn [m_epochSize].
    change (globalEpochSize (at_rank s rank) (config_at_rank config rank))
      with E.
    change (EpochConfiguration.m_minibatchSizeInSamples
              (config_at_rank config rank)) with M.
    change (m_numberOfWorkers (at_rank s rank)) with W.
    change (m_workerRank (at_rank s rank)) with rank.
    rewrite (thisReaderEpochSize_eq E M W HE HM HW rank) by lia.
    reflexivity.
  - rewrite <- (Z2Nat.id W) at 1 by lia. unfold share.
    rewrite sumZ_shares by (apply Z.mod_pos_bound; lia).
    rewrite Z2Nat.id by lia.
    pose proof (Z.mod_pos_bound (E mod M) W HW) as [Hx1 Hx2].
    rewrite Z.min_l by lia.
    pose proof (exact_split (E / M) M W HW Hdiv) as Hfull.
    pose proof (Z.div_mod (E mod M) W ltac:(lia)) as Hrest.
    pose proof (epoch_decomposition E M HM) as Hdec.
    lia.
Qed.

(** C8.  In a reader with at least one worker, [StartEpoch] raises a fatal
    error exactly when the samples read in the previous epoch differ from
    its epoch size, or the rank or the number of workers differ from those
    of the reader, or the number of workers does not divide the new minibatch
    size; otherwise it returns for every minibatch size but zero, and
    whenever it returns the count of samples read is 0. *)
Theorem StartEpoch_fatal_iff (s : DataSource) (config : EpochConfiguration.t) :
  m_numberOfWorkers s <> 0 ->
  (is_fatal (StartEpoch s config) <->
     m_epochSize s <> m_currEpochSampleCount s \/
     m_workerRank s <> EpochConfiguration.m_workerRank config \/
     m_numberOfWorkers s <> EpochConfiguration.m_numberOfWorkers config \/
     EpochConfiguration.m_minibatchSizeInSamples config
       mod m_numberOfWorkers s <> 0) /\
  (~ is_fatal (StartEpoch s config) ->
   EpochConfiguration.m_minibatchSizeInSamples config <> 0 ->
   exists s', StartEpoch s config = Ok s') /\
  (forall s', StartEpoch s config = Ok s' -> m_currEpochSampleCount s' = 0).
Proof.
  intros HW. split; [| split].
  - split.
    + apply StartEpoch_fatal_rejects.
    + apply StartEpoch_rejected. exact HW.
  - intros Hnf HM.
    assert (Hacc : ~ StartEpoch_rejects s config).
    { intros Hrej. apply Hnf. apply StartEpoch_rejected; assumption. }
    rewrite (StartEpoch_accepts s config Hacc HW HM). eauto.
  - intros s' Hok.
    destruct (StartEpoch_ok_inv s config s' Hok) as (Hacc & _ & HM).
    rewrite (StartEpoch_accepts s config Hacc HW HM) in Hok.
    injection Hok as <-. reflexivity.
Qed.

(** C9.  When the loader's example count, and in override mode its product
    with the number of workers, are values of [size_t]: called with the
    reserved total epoch size, [StartEpoch] takes as epoch size of the job
    the number of workers times the loader's example count if the
    epoch override was configured, and the loader's example count
    otherwise; called with any other total, it takes that total.  The epoch
    size it leaves in the reader is the share of that size. *)
Theorem StartEpoch_global_size (s : DataSource) (config : EpochConfiguration.t) :
  let count := GetExamplesCount (m_dsLoader s) in
  let total := EpochConfiguration.m_totalEpochSizeInSamples config in
  is_size_t count ->
  (m_epochOverride s = true ->
   0 <= m_numberOfWorkers s /\ is_size_t (m_numberOfWorkers s * count)) ->
  globalEpochSize s config =
    (if decide (total = requestDataSize)
     then if m_epochOverride s then m_numberOfWorkers s * count else count
     else total) /\
  (forall s', StartEpoch s config = Ok s' ->
     (m_epochSize s', m_appendLastMinibatch s') =
       thisReaderEpochSize (globalEpochSize s config)
         (EpochConfiguration.m_minibatchSizeInSamples config)
         (m_numberOfWorkers s) (m_workerRank s)).
Proof.
  intros count total Hcount Hover. split.
  - unfold globalEpochSize, UseAllExamplesFromDatasetForEpoch. fold total count.
    destruct (Z.eqb_spec total requestDataSize) as [Heq | Hne].
    + rewrite decide_True by exact Heq.
      rewrite (to_size_t_small count Hcount).
      destruct (m_epochOverride s); [| reflexivity].
      apply to_size_t_small. apply Hover. reflexivity.
    + rewrite decide_False by exact Hne. reflexivity.
  - intros s' Hok.
    destruct (StartEpoch_ok_inv s config s' Hok) as (Hacc & HW & HM).
    rewrite (StartEpoch_accepts s config Hacc HW HM) in Hok.
    injection Hok as <-. cbn.
    destruct (thisReaderEpochSize _ _ _ _). reflexivity.
Qed.

(** C4 (as amended).  With an epoch of 100 samples, minibatches of 10 and 3
    workers, [StartEpoch] raises a fatal error in every reader, since 3 does
    not divide 10, and leaves no epoch size.  The share computation alone
    gives every rank [floor(100/10)*10/3 = 33] with no rest to hand out. *)
Theorem StartEpoch_100_10_3 (s : DataSource) (config : EpochConfiguration.t) :
  m_numberOfWorkers s = 3 ->
  EpochConfiguration.m_minibatchSizeInSamples config = 10 ->
  is_fatal (StartEpoch s config) /\
  100 mod 10 = 0 /\
  (forall rank, thisReaderEpochSize 100 10 3 rank = (33, false)).
Proof.
  intros HW HM. split; [| split; [reflexivity | intros rank; reflexivity]].
  apply StartEpoch_rejected; [lia |].
  unfold StartEpoch_rejects. rewrite HW, HM.
  right; right; right. discriminate.
Qed.

End Claims_StartEpoch.

(** ** GetNextSequences: how many samples a call reads *)

Section SampleCount.

Context `{ReaderLib}.

Lemma samplesForThisCall_rejected s total :
  call_in_range s total ->
  call_rejected s total -> is_fatal (samplesForThisCall s total).
Proof.
  unfold call_in_range, call_rejected, epoch_state_ok, is_size_t,
    samplesForThisCall, is_fatal.
  intros (Hs & Htot & HW & Hle & Hfit) Hrej.
  set (sc := total / m_numberOfWorkers s) in *.
  assert (Hsc : 0 <= sc) by (apply Z.div_pos; lia).
  destruct (Z.eqb_spec total (m_minibatchSize s)); cbn [negb]; [| eauto].
  destruct (Z.eqb_spec (m_numberOfWorkers s) 0); [lia |].
  destruct (Z.eqb_spec sc 0); [eauto |].
  destruct Hrej as [Hrej | [Hrej | (Happ & Hrem & Hne)]]; [tauto | tauto |].
  rewrite Happ. cbn [andb negb].
  rewrite !to_size_t_small by (unfold is_size_t; lia).
  destruct (Z.leb_spec (m_epochSize s - m_currEpochSampleCount s) (2 * sc));
    [| lia].
  destruct (Z.eqb_spec (m_epochSize s - m_currEpochSampleCount s) (sc + 1));
    [lia | cbn [negb]; eauto].
Qed.

Lemma samplesForThisCall_accepted s total :
  call_in_range s total ->
  ~ call_rejected s total ->
  samplesForThisCall s total = Ok (samples_taken s total, marks_end s total).
Proof.
  unfold call_in_range, call_rejected, epoch_state_ok, is_size_t,
    samplesForThisCall, samples_taken, marks_end.
  intros (Hs & Htot & HW & Hle & Hfit) Hrej.
  set (sc := total / m_numberOfWorkers s) in *.
  assert (Hsc : 0 <= sc) by (apply Z.div_pos; lia).
  destruct (Z.eqb_spec total (m_minibatchSize s)); cbn [negb]; [| tauto].
  destruct (Z.eqb_spec (m_numberOfWorkers s) 0); [lia |].
  destruct (Z.eqb_spec sc 0); [tauto |].
  rewrite !to_size_t_small by (unfold is_size_t; lia).
  set (rem := m_epochSize s - m_currEpochSampleCount s) in *.
  destruct (m_appendLastMinibatch s); cbn [andb negb orb].
  - destruct (Z.leb_spec rem (2 * sc)).
    + destruct (Z.eqb_spec rem (sc + 1)); [reflexivity |].
      exfalso. apply Hrej. right; right. auto.
    + destruct (Z.eqb_spec rem (sc + 1)); [lia | reflexivity].
  - destruct (Z.leb_spec rem sc); reflexivity.
Qed.

Lemma samples_taken_range s total :
  call_in_range s total -> ~ call_rejected s total ->
  0 <= samples_taken s total < 2 ^ 31 /\
  samples_taken s total
    <= m_epochSize s - m_currEpochSampleCount s /\
  (marks_end s total = true <->
   samples_taken s total = m_epochSize s - m_currEpochSampleCount s).
Proof.
  unfold call_in_range, call_rejected, samples_taken, marks_end.
  intros (Hs & Htot & HW & Hle & Hfit) Hrej.
  set (sc := total / m_numberOfWorkers s) in *.
  set (rem := m_epochSize s - m_currEpochSampleCount s) in *.
  assert (Hsc : 0 <= sc) by (apply Z.div_pos; lia).
  destruct (m_appendLastMinibatch s); cbn [andb negb orb].
  - destruct (Z.eqb_spec rem (sc + 1)).
    + split; [lia | split; [lia | tauto]].
    + assert (2 * sc < rem).
      { destruct (Z.le_gt_cases rem (2 * sc)); [| lia].
        exfalso. apply Hrej. right; right. auto. }
      split; [lia | split; [lia |]]. split; [discriminate | lia].
  - destruct (Z.leb_spec rem sc).
    + split; [lia | split; [lia | tauto]].
    + split; [lia | split; [lia |]]. split; [discriminate | lia].
Qed.

(** A call returns exactly when its checks pass and the samples can be
    filled in; it then adds the number of samples, through [int], to the
    count of samples read. *)
Lemma GetNextSequences_unfold s total :
  GetNextSequences s total =
    '(sampleCount, endOfEpoch) ← samplesForThisCall s total;
    '(ld, ex, data) ←
      fill_samples (m_inputStreams s) (m_streamDescriptors s)
        (Z.to_nat sampleCount) 0 (m_dsLoader s) (m_example s)
        (blank_sequences s sampleCount);
    Ok (after_reading s ld ex
          (to_size_t (m_currEpochSampleCount s + to_int sampleCount)
           - m_currEpochSampleCount s),
        mkSequences data endOfEpoch).
Proof.
  unfold GetNextSequences, after_reading, blank_sequences.
  destruct (samplesForThisCall s total) as [[n e] | |]; cbn; [| reflexivity ..].
  destruct (fill_samples _ _ _ _ _ _ _) as [[[ld ex] data] | |]; cbn;
    [| reflexivity ..].
  do 3 f_equal. lia.
Qed.

End SampleCount.

(** ** GetNextSequences: the sequences keep their places *)

Lemma bind_Ok {A B : Type} (r : result A) (k : A -> result B) (b : B) :
  (r ≫= k) = Ok b -> exists a, r = Ok a /\ k a = Ok b.
Proof. destruct r; cbn; intros Hb; [eauto | discriminate ..]. Qed.

Lemma defined_Ok {A : Type} (o : option A) (a : A) :
  defined o = Ok a -> o = Some a.
Proof. destruct o; cbn; congruence. Qed.

Ltac bind_inv Hb :=
  let a := fresh "a" in
  let Ha := fresh "Ha" in
  apply bind_Ok in Hb as (a & Ha & Hb).

Lemma slots_insert_row data istr row row' :
  data !! istr = Some row -> length row' = length row ->
  slots (<[istr := row']> data) = slots data.
Proof.
  intros Hrow Hlen. unfold slots.
  rewrite list_fmap_insert, Hlen.
  apply list_insert_id. rewrite list_lookup_fmap, Hrow. reflexivity.
Qed.

Lemma store_sequence_slots data istr ismpl sequence data' :
  store_sequence data istr ismpl sequence = Ok data' ->
  slots data' = slots data.
Proof.
  unfold store_sequence. intros Hst. bind_inv Hst.
  apply defined_Ok in Ha. destruct (decide _); [| discriminate].
  injection Hst as <-.
  apply (slots_insert_row _ _ a); [exact Ha | apply length_insert].
Qed.

Lemma clear_ignore_entry_slots data istr ismpl inz data' :
  clear_ignore_entry data istr ismpl inz = Ok data' ->
  slots data' = slots data.
Proof.
  unfold clear_ignore_entry. intros Hcl. bind_inv Hcl. bind_inv Hcl.
  apply defined_Ok in Ha. 
  destruct a0 as [[id n layout owned | ] |]; try discriminate.
  destruct (decide _); [| discriminate].
  injection Hcl as <-.
  apply (slots_insert_row _ _ a); [exact Ha | apply length_insert].
Qed.

Section Slots.

Context `{ReaderLib}.

Lemma convert_labels_slots ignore ignoreBuffer ismpl spatialSize outChannels
    labels :
  forall inz data indicesMemory data' indicesMemory',
  convert_labels ignore ignoreBuffer ismpl spatialSize outChannels labels inz
    data indicesMemory = Ok (data', indicesMemory') ->
  slots data' = slots data.
Proof.
  induction labels as [| x rest IH]; intros inz data ind data' ind' Hc;
    cbn [convert_labels] in Hc.
  - injection Hc as <- _. reflexivity.
  - bind_inv Hc.
    destruct ignoreBuffer as [istrIgnore |]; [destruct ignore as [ig |] |].
    + destruct (a =? ignoreLabel ig).
      * bind_inv Hc. apply IH in Hc. rewrite Hc.
        eapply clear_ignore_entry_slots; eassumption.
      * destruct (_ || _); [discriminate |]. eapply IH; eassumption.
    + discriminate.
    + destruct (_ || _); [discriminate |]. eapply IH; eassumption.
Qed.

Lemma stream_step_slots inputs ex data streamDescriptor istr ismpl
    istr' ex' data' :
  stream_step inputs ex data streamDescriptor istr ismpl
    = Ok (istr', ex', data') ->
  slots data' = slots data /\ (istr < istr')%nat.
Proof.
  unfold stream_step. intros Hs. bind_inv Hs.
  destruct (decide _) as [Hdense | Hsparse].
  - unfold dense_stream in Hs.
    destruct (ignoreStream streamDescriptor); [discriminate |].
    bind_inv Hs. bind_inv Hs. destruct a1 as [ex1 owned]. bind_inv Hs.
    injection Hs as <- <- <-.
    split; [eapply store_sequence_slots; eassumption | lia].
  - unfold sparse_stream in Hs.
    bind_inv Hs. destruct a0 as [ignoreBuffer data1].
    bind_inv Hs. bind_inv Hs. destruct a1 as [ex1 labels].
    destruct (negb _); [discriminate |].
    bind_inv Hs. destruct a1 as [data2 indicesMemory]. bind_inv Hs.
    injection Hs as <- <- <-.
    apply store_sequence_slots in Ha4. apply convert_labels_slots in Ha3.
    rewrite Ha4, Ha3. split.
    + destruct (ignoreStream streamDescriptor).
      * destruct (decide _); [discriminate |].
        bind_inv Ha0. bind_inv Ha0. injection Ha0 as _ <-.
        eapply store_sequence_slots; eassumption.
      * injection Ha0 as _ <-. reflexivity.
    + destruct (ignoreStream streamDescriptor); lia.
Qed.

Lemma fill_streams_slots inputs descriptors :
  forall istr ismpl ex data ex' data',
  fill_streams inputs descriptors istr ismpl ex data = Ok (ex', data') ->
  slots data' = slots data.
Proof.
  induction descriptors as [| d rest IH]; intros istr ismpl ex data ex' data' Hf;
    cbn [fill_streams] in Hf.
  - destruct (decide _); [discriminate |]. injection Hf as _ <-. reflexivity.
  - destruct (decide _).
    + bind_inv Hf. destruct a as [[istr1 ex1] data1].
      apply stream_step_slots in Ha as [Ha _].
      apply IH in Hf. congruence.
    + injection Hf as _ <-. reflexivity.
Qed.

Lemma GetExample_position ld ex ld' ex' :
  GetExample ld ex = Ok (ld', ex') -> position ld' = S (position ld).
Proof.
  unfold GetExample. intros Hg. bind_inv Hg. injection Hg as <- _.
  reflexivity.
Qed.

Lemma fill_samples_slots inputs descriptors count :
  forall ismpl ld ex data ld' ex' data',
  fill_samples inputs descriptors count ismpl ld ex data
    = Ok (ld', ex', data') ->
  slots data' = slots data /\ position ld' = (position ld + count)%nat.
Proof.
  induction count as [| count IH]; intros ismpl ld ex data ld' ex' data' Hf;
    cbn [fill_samples] in Hf.
  - injection Hf as <- _ <-. split; [reflexivity | lia].
  - bind_inv Hf. destruct a as [ex1 data1].
    bind_inv Hf. destruct a as [ld1 ex2].
    apply fill_streams_slots in Ha. apply GetExample_position in Ha0.
    apply IH in Hf as [Hf1 Hf2]. split; [congruence | lia].
Qed.

End Slots.

(** ** GetNextSequences: the count of samples read *)

Section Consumption.

Context `{ReaderLib}.

Lemma samplesForThisCall_fatal s total :
  call_in_range s total ->
  is_fatal (samplesForThisCall s total) <-> call_rejected s total.
Proof.
  intros Hrange. split.
  - intros [e He]. destruct (decide (call_rejected s total)) as [| Hacc];
      [assumption |].
    rewrite (samplesForThisCall_accepted s total Hrange Hacc) in He.
    discriminate.
  - apply samplesForThisCall_rejected. exact Hrange.
Qed.

Lemma counter_after s total :
  call_in_range s total -> ~ call_rejected s total ->
  to_size_t (m_currEpochSampleCount s + to_int (samples_taken s total))
    - m_currEpochSampleCount s
  = samples_taken s total.
Proof.
  intros Hrange Hacc.
  destruct (samples_taken_range s total Hrange Hacc) as (Ht & Hle & _).
  destruct Hrange as ((_ & _ & He & Hc) & _).
  unfold is_size_t in *.
  rewrite to_int_small by (unfold is_int; lia).
  rewrite to_size_t_small by (unfold is_size_t; lia). lia.
Qed.

(** C3 (as amended).  For a reader whose members are in range and whose
    minibatch slice fits an [int]: the checks [GetNextSequences] makes before
    it reads a sample fail fatally exactly when [totalSampleCount] differs
    from the minibatch size, or [totalSampleCount / workerCount] is zero, or
    [m_appendLastMinibatch] is set and [remaining = epochSize - consumed] is
    at most [2 * sampleCount] but not [sampleCount + 1].  The call as a whole
    fails fatally exactly when these checks do or filling in the samples
    does.  When the samples are filled in, the call returns; it has read all
    remaining samples and marks the end of the epoch when appending with
    [remaining = sampleCount + 1], and when not appending with
    [remaining <= sampleCount]; in every other case it has read
    [sampleCount] samples and does not mark the end. *)
Theorem GetNextSequences_outcome (s : DataSource) (totalSampleCount : Z) :
  let taken := samples_taken s totalSampleCount in
  let filled :=
    fill_samples (m_inputStreams s) (m_streamDescriptors s)
      (Z.to_nat taken) 0 (m_dsLoader s) (m_example s)
      (blank_sequences s taken) in
  call_in_range s totalSampleCount ->
  (is_fatal (samplesForThisCall s totalSampleCount)
     <-> call_rejected s totalSampleCount) /\
  (is_fatal (GetNextSequences s totalSampleCount)
     <-> call_rejected s totalSampleCount \/ is_fatal filled) /\
  (forall ld ex data,
     ~ call_rejected s totalSampleCount ->
     filled = Ok (ld, ex, data) ->
     GetNextSequences s totalSampleCount =
       Ok (after_reading s ld ex taken,
           mkSequences data (marks_end s totalSampleCount)) /\
     position ld = (position (m_dsLoader s) + Z.to_nat taken)%nat /\
     Forall (fun row => length row = Z.to_nat taken) data).
Proof.
  intros taken filled Hrange.
  split; [apply samplesForThisCall_fatal; exact Hrange |].
  split.
  - rewrite GetNextSequences_unfold.
    destruct (decide (call_rejected s totalSampleCount)) as [Hrej | Hacc].
    + split; [tauto |]. intros _.
      destruct (samplesForThisCall_rejected s _ Hrange Hrej) as [e He].
      rewrite He. exists e. reflexivity.
    + rewrite (samplesForThisCall_accepted s _ Hrange Hacc). cbn.
      fold taken. fold filled.
      split.
      * intros [e He]. right.
        destruct filled as [[[ld ex] data] | e' |]; cbn in He;
          [discriminate | | discriminate].
        exists e'. reflexivity.
      * intros [Hrej | [e He]]; [tauto |]. rewrite He. exists e. reflexivity.
  - intros ld ex data Hacc Hfilled.
    rewrite GetNextSequences_unfold.
    rewrite (samplesForThisCall_accepted s _ Hrange Hacc). cbn.
    fold taken. fold filled. rewrite Hfilled. cbn.
    unfold taken at 1. rewrite (counter_after s _ Hrange Hacc). fold taken.
    split; [reflexivity |].
    apply fill_samples_slots in Hfilled as [Hslots Hpos].
    split; [exact Hpos |].
    unfold slots, blank_sequences in Hslots.
    rewrite fmap_replicate, length_replicate in Hslots.
    assert (Hall : Forall (fun k => k = Z.to_nat taken) (length <$> data)).
    { rewrite Hslots. apply Forall_replicate. reflexivity. }
    apply Forall_fmap in Hall. exact Hall.
Qed.

Lemma DataSource_new_members config garbageSize garbageFlag s :
  DataSource_new config garbageSize garbageFlag = Ok s ->
  m_minibatchSize s = garbageSize /\
  m_workerRank s = default 0 (workerRank config) /\
  m_numberOfWorkers s = default 1 (workersCount config) /\
  m_epochSize s = 0 /\ m_currEpochSampleCount s = 0.
Proof.
  unfold DataSource_new. intros Hnew.
  bind_inv Hnew. bind_inv Hnew. destruct a0 as [ld ex]. bind_inv Hnew.
  injection Hnew as <-. cbn. tauto.
Qed.

Lemma thisReaderEpochSize_range E M W rank :
  is_size_t E -> 0 < M -> 0 < W -> 0 <= rank ->
  is_size_t (fst (thisReaderEpochSize E M W rank)).
Proof.
  intros HE HM HW Hrank.
  rewrite (thisReaderEpochSize_eq E M W HE HM HW rank Hrank). cbn [fst].
  pose proof (share_bounds E M W HE HM HW) as (H1 & H2 & H3).
  pose proof (Z.mod_pos_bound (E mod M) W HW) as [Hx1 Hx2].
  destruct HE. unfold is_size_t.
  destruct (Z.ltb_spec rank (E mod M mod W));
    destruct (Z.ltb_spec 0 (E mod M mod W)); lia.
Qed.

(** A call that returns in a reader that has read its whole epoch reads
    nothing, whatever its minibatch size. *)
Lemma samplesForThisCall_epoch_done s total n e :
  is_size_t (m_minibatchSize s) -> 0 < m_numberOfWorkers s ->
  m_currEpochSampleCount s = m_epochSize s ->
  samplesForThisCall s total = Ok (n, e) -> n = 0 /\ e = true.
Proof.
  unfold samplesForThisCall, is_size_t. intros HM HW Hdone Hok.
  destruct (Z.eqb_spec total (m_minibatchSize s)); cbn [negb] in Hok;
    [| discriminate].
  destruct (Z.eqb_spec (m_numberOfWorkers s) 0); [lia |].
  destruct (Z.eqb_spec (total / m_numberOfWorkers s) 0); [discriminate |].
  assert (0 <= total / m_numberOfWorkers s) by (apply Z.div_pos; lia).
  rewrite Hdone, Z.sub_diag in Hok. change (to_size_t 0) with 0 in Hok.
  destruct (m_appendLastMinibatch s); cbn [andb negb] in Hok.
  - pose proof (to_size_t_range (2 * (total / m_numberOfWorkers s))) as [Hr _].
    destruct (Z.leb_spec 0 (to_size_t (2 * (total / m_numberOfWorkers s))));
      [| lia].
    destruct (negb _); [discriminate |]. injection Hok as <- <-. tauto.
  - destruct (Z.leb_spec 0 (total / m_numberOfWorkers s)); [| lia].
    injection Hok as <- <-. tauto.
Qed.

Lemma GetNextSequences_Ok_inv s total s' sequences :
  GetNextSequences s total = Ok (s', sequences) ->
  exists n ld ex,
    samplesForThisCall s total = Ok (n, m_endOfEpoch sequences) /\
    s' = after_reading s ld ex
           (to_size_t (m_currEpochSampleCount s + to_int n)
            - m_currEpochSampleCount s).
Proof.
  rewrite GetNextSequences_unfold. intros Hok.
  bind_inv Hok. destruct a as [n e]. bind_inv Hok.
  destruct a as [[ld ex] data]. injection Hok as <- <-.
  exists n, ld, ex. split; [exact Ha | reflexivity].
Qed.

Lemma samplesForThisCall_Ok_workers s total r :
  samplesForThisCall s total = Ok r ->
  total = m_minibatchSize s /\ m_numberOfWorkers s <> 0.
Proof.
  unfold samplesForThisCall. intros Hok.
  destruct (Z.eqb_spec total (m_minibatchSize s)); [| discriminate].
  destruct (Z.eqb_spec (m_numberOfWorkers s) 0); [discriminate |]. tauto.
Qed.

(** One call from a reader that satisfies the invariant. *)
Lemma GetNextSequences_step s total s' sequences :
  epoch_invariant s ->
  GetNextSequences s total = Ok (s', sequences) ->
  epoch_invariant s' /\
  (m_minibatchSize s / m_numberOfWorkers s + 1 < 2 ^ 31 ->
   m_currEpochSampleCount s' <= m_epochSize s' /\
   (m_endOfEpoch sequences = true <->
    m_currEpochSampleCount s' = m_epochSize s')).
Proof.
  intros (Hs & HM & Hinv) Hok.
  destruct (GetNextSequences_Ok_inv _ _ _ _ Hok) as (n & ld & ex & Hn & ->).
  destruct (samplesForThisCall_Ok_workers _ _ _ Hn) as [-> HW0].
  pose proof Hs as (Hrank & HW & HE & HC).
  assert (HWpos : 0 < m_numberOfWorkers s) by (destruct HW; lia).
  assert (Hcases :
    (n = 0 /\ m_endOfEpoch sequences = true /\
     m_currEpochSampleCount s = m_epochSize s) \/
    (call_in_range s (m_minibatchSize s) /\
     ~ call_rejected s (m_minibatchSize s) /\
     n = samples_taken s (m_minibatchSize s) /\
     m_endOfEpoch sequences = marks_end s (m_minibatchSize s)) \/
    ~ m_minibatchSize s / m_numberOfWorkers s + 1 < 2 ^ 31).
  { destruct (Z.eq_dec (m_currEpochSampleCount s) (m_epochSize s)) as [Hd | Hd].
    - left.
      destruct (samplesForThisCall_epoch_done _ _ _ _ HM HWpos Hd Hn); tauto.
    - destruct (Z.lt_ge_cases (m_minibatchSize s / m_numberOfWorkers s + 1)
                  (2 ^ 31)) as [Hfit | Hbig]; [| right; right; lia].
      right; left.
      assert (Hrange : call_in_range s (m_minibatchSize s)).
      { unfold call_in_range. split; [exact Hs |].
        unfold is_size_t in *. destruct Hinv; [tauto | lia]. }
      split; [exact Hrange |].
      destruct (decide (call_rejected s (m_minibatchSize s))) as [Hrej | Hacc].
      + destruct (samplesForThisCall_rejected _ _ Hrange Hrej) as [e He].
        congruence.
      + rewrite (samplesForThisCall_accepted _ _ Hrange Hacc) in Hn.
        injection Hn as <- <-. tauto. }
  destruct Hcases as [(-> & Hend & Hd) | [(Hrange & Hacc & -> & Hend) | Hbig]].
  - change (to_int 0) with 0. rewrite Z.add_0_r.
    rewrite (to_size_t_small _ HC), Z.sub_diag.
    unfold epoch_invariant, epoch_state_ok, after_reading. cbn.
    rewrite Z.add_0_r.
    split; [tauto |]. intros _. split; [lia | tauto].
  - rewrite (counter_after _ _ Hrange Hacc).
    destruct (samples_taken_range _ _ Hrange Hacc) as (Ht & Hle & Hmark).
    unfold epoch_invariant, epoch_state_ok, after_reading. cbn.
    rewrite Hend. unfold is_size_t in *.
    split; [| intros _; split; [lia |]].
    + split; [| split; [lia | right; lia]].
      split; [lia | split; [lia | split; lia]].
    + rewrite Hmark. lia.
  - split; [| intros Hfit; lia].
    unfold epoch_invariant, epoch_state_ok, after_reading. cbn.
    rewrite Zplus_minus.
    split; [| split; [exact HM | right; intros Hfit; lia]].
    split; [exact Hrank | split; [exact HW | split; [exact HE |]]].
    apply to_size_t_range.
Qed.

Lemma StartEpoch_step s config s' :
  epoch_invariant s ->
  is_size_t (EpochConfiguration.m_minibatchSizeInSamples config) ->
  is_size_t (EpochConfiguration.m_totalEpochSizeInSamples config) ->
  StartEpoch s config = Ok s' ->
  epoch_invariant s'.
Proof.
  intros ((Hrank & HW & HE & HC) & _ & _) HM Htotal Hok.
  destruct (StartEpoch_ok_inv s config s' Hok) as (Hacc & HW0 & HM0).
  rewrite (StartEpoch_accepts s config Hacc HW0 HM0) in Hok.
  injection Hok as <-.
  assert (Hshare : is_size_t
            (fst (thisReaderEpochSize (globalEpochSize s config)
                    (EpochConfiguration.m_minibatchSizeInSamples config)
                    (m_numberOfWorkers s) (m_workerRank s)))).
  { unfold is_size_t in HM, HW, Hrank.
    apply thisReaderEpochSize_range; try lia.
    apply globalEpochSize_size_t, Htotal. }
  unfold epoch_invariant, epoch_state_ok. cbn.
  split; [| split; [exact HM | right; intros _; apply Hshare]].
  split; [exact Hrank | split; [exact HW | split; [exact Hshare |]]].
  unfold is_size_t. lia.
Qed.

Lemma Reachable_invariant s : Reachable s -> epoch_invariant s.
Proof.
  induction 1 as [config garbageSize garbageFlag s Hg Hrank HW Hnew
                 | s config s' _ IH HM Htotal Hok
                 | s total s' sequences _ IH Hok].
  - destruct (DataSource_new_members _ _ _ _ Hnew)
      as (HeqM & Heqr & HeqW & HeqE & HeqC).
    unfold epoch_invariant, epoch_state_ok.
    rewrite HeqM, Heqr, HeqW, HeqE, HeqC.
    split; [| split; [exact Hg | left; reflexivity]].
    split; [exact Hrank | split; [exact HW |]].
    unfold is_size_t. lia.
  - eapply StartEpoch_step; eassumption.
  - eapply GetNextSequences_step; eassumption.
Qed.

(** Where the cast of line 658 keeps the sample count, that is with a
    minibatch slice that still fits an [int] after one sample is appended,
    the counter stays within the epoch: in a reader a caller can hold, after
    a call of [GetNextSequences] that returns, the count of samples read
    does not exceed the epoch size of the reader, and the call marks the
    end of the epoch exactly when the count equals that size; after such a
    mark [StartEpoch] does not fail on its check that the previous epoch was
    read to the end.  Outside this range the counter can pass the epoch
    size. *)
Theorem consumed_within_epoch (s : DataSource) (totalSampleCount : Z)
    (s' : DataSource) (sequences : Sequences) :
  Reachable s ->
  m_minibatchSize s / m_numberOfWorkers s + 1 < 2 ^ 31 ->
  GetNextSequences s totalSampleCount = Ok (s', sequences) ->
  m_currEpochSampleCount s' <= m_epochSize s' /\
  (m_endOfEpoch sequences = true <->
   m_currEpochSampleCount s' = m_epochSize s') /\
  (m_endOfEpoch sequences = true ->
   forall config, StartEpoch s' config <> Fatal EpochNotFinished).
Proof.
  intros Hreach Hfit Hok.
  apply Reachable_invariant in Hreach.
  destruct (GetNextSequences_step _ _ _ _ Hreach Hok) as [_ Hstep].
  destruct (Hstep Hfit) as [Hle Hend].
  split; [exact Hle | split; [exact Hend |]].
  intros Hmark config. apply Hend in Hmark.
  unfold StartEpoch. rewrite Hmark, Z.eqb_refl. cbn [negb].
  repeat match goal with
         | |- context [if ?b then _ else _] => destruct b
         | |- context [let '(_, _) := ?p in _] => destruct p
         end; discriminate.
Qed.

End Consumption.

(** ** Sparse streams: the labels of one sample *)

Lemma mask_after_length ignore labels :
  forall inz mask, length (mask_after ignore inz labels mask) = length mask.
Proof.
  induction labels as [| c rest IH]; intros inz mask; cbn [mask_after];
    [reflexivity |].
  rewrite IH. destruct (is_ignored ignore c); [apply length_insert | reflexivity].
Qed.

Lemma mask_after_ones ignore labels :
  forall inz done,
  length done = inz ->
  mask_after ignore inz labels (done ++ replicate (length labels) float_one)
  = done ++ spec_ignore_mask ignore labels.
Proof.
  unfold spec_ignore_mask.
  induction labels as [| c rest IH]; intros inz done Hlen;
    cbn [mask_after length replicate fmap list_fmap]; [reflexivity |].
  replace (if is_ignored ignore c
           then <[inz := float_zero]> (done ++ float_one :: replicate (length rest) float_one)
           else done ++ float_one :: replicate (length rest) float_one)
    with ((done ++ [if is_ignored ignore c then float_zero else float_one])
          ++ replicate (length rest) float_one).
  - rewrite IH by (rewrite length_app; cbn; lia).
    rewrite <- app_assoc. reflexivity.
  - rewrite <- app_assoc. cbn [app].
    destruct (is_ignored ignore c); [| reflexivity].
    rewrite insert_app_r_alt by lia.
    rewrite Hlen, Nat.sub_diag. reflexivity.
Qed.

Lemma indices_after_zeros ignore spatialSize labels :
  forall inz done,
  length done = inz ->
  indices_after ignore spatialSize inz labels
    (done ++ replicate (length labels) 0)
  = done ++ imap (fun p => spec_index ignore spatialSize (inz + p)) labels.
Proof.
  induction labels as [| c rest IH]; intros inz done Hlen;
    cbn [indices_after length replicate imap]; [reflexivity |].
  rewrite insert_app_r_alt by lia.
  rewrite Hlen, Nat.sub_diag. cbn [insert list_insert].
  change (done ++ ?x :: ?l) with (done ++ [x] ++ l).
  rewrite app_assoc, IH by (rewrite length_app; cbn; lia).
  rewrite <- app_assoc. cbn [app]. rewrite Nat.add_0_r.
  do 2 f_equal. apply imap_ext. intros p x _. cbn.
  f_equal. lia.
Qed.

Lemma indices_after_spec ignore spatialSize labels :
  indices_after ignore spatialSize 0 labels (replicate (length labels) 0)
  = spec_sparse_indices ignore spatialSize labels.
Proof.
  apply (indices_after_zeros ignore spatialSize labels 0 [] eq_refl).
Qed.

Lemma mask_after_spec ignore labels :
  mask_after ignore 0 labels (replicate (length labels) float_one)
  = spec_ignore_mask ignore labels.
Proof. apply (mask_after_ones ignore labels 0 [] eq_refl). Qed.

Lemma clear_put_mask data j ismpl row id n layout mask inz :
  data !! j = Some row -> (ismpl < length row)%nat ->
  (inz < length mask)%nat ->
  clear_ignore_entry (put_mask data j ismpl row id n layout mask) j ismpl inz
  = Ok (put_mask data j ismpl row id n layout (<[inz := float_zero]> mask)).
Proof.
  intros Hrow Hsmpl Hinz. unfold clear_ignore_entry, put_mask.
  rewrite list_lookup_insert_eq by (eapply lookup_lt_Some; eassumption).
  cbn. rewrite list_lookup_insert_eq by exact Hsmpl. cbn.
  rewrite decide_True by exact Hinz.
  rewrite !list_insert_insert_eq. reflexivity.
Qed.

Section Labels.

Context `{ReaderLib}.

Variables (ignore : option IgnoreStreamDescriptor) (ignoreBuffer : option nat).
Variables (ismpl : nat) (spatialSize outChannels : Z).
Variables (data : list (list (option SequenceData))).
Variables (row : list (option SequenceData)) (id n : Z) (layout : TensorShape).

Hypothesis buffer_of_ignore :
  match ignoreBuffer, ignore with
  | Some j, Some _ => data !! j = Some row /\ (ismpl < length row)%nat
  | None, None => True
  | _, _ => False
  end.
Hypothesis spatial_range : 0 <= spatialSize.
Hypothesis channels_range : 1 <= outChannels < 2 ^ 64.
Hypothesis indices_fit : outChannels * spatialSize <= 2 ^ 31.

(** The loop of lines 617-639 on labels that convert to [int]: it stops with
    a fatal error at the first label that is neither ignored nor a channel,
    and otherwise leaves the mask and the indices as [mask_after] and
    [indices_after] say. *)
Lemma convert_labels_eq (xs : list float) (cs : list Z) :
  Forall2 (fun x c => float_to_int x = Some c) xs cs ->
  forall inz mask indices,
  (inz + length cs <= length mask)%nat ->
  Z.of_nat (inz + length cs) <= spatialSize ->
  convert_labels ignore ignoreBuffer ismpl spatialSize outChannels xs inz
    (with_mask ignoreBuffer data ismpl row id n layout mask) indices
  = if forallb (label_ok ignore outChannels) cs
    then Ok (with_mask ignoreBuffer data ismpl row id n layout
               (mask_after ignore inz cs mask),
             indices_after ignore spatialSize inz cs indices)
    else Fatal InvalidChannel.
Proof.
  induction 1 as [| x c xs cs Hx _ IH]; intros inz mask indices Hmask Hsp;
    cbn [convert_labels forallb mask_after indices_after]; [reflexivity |].
  rewrite Hx. cbn [defined mbind result_bind].
  cbn [length] in Hmask, Hsp.
  assert (Hinz : 0 <= Z.of_nat inz < spatialSize) by lia.
  assert (Hbound : spatialSize <= outChannels * spatialSize) by nia.
  pose proof (float_to_int_range x c Hx) as Hc.
  assert (Hcheck :
    (c <? 0) || (to_size_t (outChannels - 1) <? to_size_t c)
    = negb ((0 <=? c) && (c <? outChannels))).
  { destruct (Z.ltb_spec c 0) as [Hneg | Hpos]; cbn [orb].
    - destruct (Z.leb_spec 0 c); [lia | reflexivity].
    - rewrite !to_size_t_small by (unfold is_size_t, is_int in *; lia).
      destruct (Z.leb_spec 0 c); [| lia]. cbn [andb].
      destruct (Z.ltb_spec (outChannels - 1) c);
        destruct (Z.ltb_spec c outChannels); try lia; reflexivity. }
  assert (Hindex :
    (0 <=? c) && (c <? outChannels) = true ->
    to_IndexType (to_size_t (to_size_t (to_size_t c * spatialSize)
                             + Z.of_nat inz))
    = c * spatialSize + Z.of_nat inz).
  { rewrite andb_true_iff, Z.leb_le, Z.ltb_lt. intros [Hc0 Hc1].
    assert (0 <= c * spatialSize) by nia.
    assert (c * spatialSize + spatialSize <= outChannels * spatialSize) by nia.
    rewrite (to_size_t_small c) by (unfold is_size_t; lia).
    rewrite (to_size_t_small (c * spatialSize)) by (unfold is_size_t; lia).
    rewrite to_size_t_small by (unfold is_size_t; lia).
    apply to_IndexType_small. lia. }
  unfold label_ok at 1, spec_index.
  destruct ignoreBuffer as [j |]; destruct ignore as [ig |];
    try contradiction; cbn [is_ignored with_mask] in *.
  - destruct buffer_of_ignore as [Hrow Hsmpl].
    destruct (Z.eqb_spec c (ignoreLabel ig)) as [Hig | Hnig]; cbn [orb].
    + rewrite clear_put_mask by (assumption || lia).
      cbn [mbind result_bind].
      rewrite to_IndexType_small by lia.
      apply IH; [rewrite length_insert |]; lia.
    + rewrite Hcheck.
      destruct ((0 <=? c) && (c <? outChannels)) eqn:Hok; cbn [negb andb];
        [| reflexivity].
      rewrite (Hindex eq_refl). apply IH; lia.
  - rewrite Hcheck.
    destruct ((0 <=? c) && (c <? outChannels)) eqn:Hok; cbn [negb andb];
      [| reflexivity].
    rewrite (Hindex eq_refl). apply (IH (S inz) mask); lia.
Qed.

End Labels.

(** ** Sparse streams: one turn of the stream loop *)

Lemma SwapBlobData_found ex blobName index buf :
  find_blob blobName (m_blobNames ex) 0 = Some index ->
  m_blobs ex !! index = Some buf ->
  SwapBlobData ex blobName [] = Ok (after_swap ex index, buf).
Proof.
  intros Hfind Hbuf. unfold SwapBlobData, BlobIndexFromName.
  rewrite Hfind. cbn. rewrite Hbuf. reflexivity.
Qed.

Lemma store_sequence_at data istr ismpl sequence row :
  data !! istr = Some row -> (ismpl < length row)%nat ->
  store_sequence data istr ismpl sequence
  = Ok (<[istr := <[ismpl := Some sequence]> row]> data).
Proof.
  intros Hrow Hslot. unfold store_sequence. rewrite Hrow. cbn.
  rewrite decide_True by exact Hslot. reflexivity.
Qed.

Section SparseTurn.

Context `{ReaderLib}.

Variables (inputs : list StreamDescription.t) (ex : ImageDatasetExample).
Variables (data : list (list (option SequenceData))) (d : StreamDescriptor).
Variables (istr ismpl : nat) (input ignoreInput : StreamDescription.t).
Variables (row ignoreRow : list (option SequenceData)) (index : nat).
Variables (xs : list float) (cs : list Z).

Hypothesis turn : sparse_turn inputs ex data d istr ismpl input row index xs cs.
Hypothesis mask_turn :
  ignoreStream d <> None ->
  ignore_turn inputs data istr ismpl input ignoreInput ignoreRow.

Lemma sparse_stream_eq :
  let dims := StreamDescription.m_sampleLayout input in
  let spatialSize := dim0 dims * dim1 dims in
  let outChannels := dim2 dims in
  let sparse_sequence :=
    turn_sparse_sequence ismpl spatialSize (ignoreStream d) cs in
  let mask_sequence := turn_mask_sequence ismpl dims (ignoreStream d) cs in
  sparse_stream inputs ex data d istr ismpl =
    if negb (Z.of_nat (length xs) =? spatialSize)
    then Fatal UnexpectedSparseCount
    else if forallb (label_ok (ignoreStream d) outChannels) cs
    then Ok (match ignoreStream d with
             | Some _ => S (S istr)
             | None => S istr
             end,
             after_swap ex index,
             <[istr := <[ismpl := Some sparse_sequence]> row]>
               (match ignoreStream d with
                | Some _ =>
                    <[(istr + 1)%nat := <[ismpl := Some mask_sequence]> ignoreRow]>
                      data
                | None => data
                end))
    else Fatal InvalidChannel.
Proof.
  intros dims spatialSize outChannels sparse_sequence mask_sequence.
  unfold turn_sparse_sequence in sparse_sequence.
  unfold turn_mask_sequence in mask_sequence.
  destruct turn as (Hinput & Hsparse & Hrow & Hslot & Hfind & Hblob & Hcast
                    & Hd0 & Hd1 & Hd2 & Hfit).
  fold dims in Hd0, Hd1, Hd2, Hfit. fold spatialSize outChannels in Hfit, Hd2.
  assert (Hsp : 0 <= spatialSize) by (unfold spatialSize; nia).
  assert (Hsp2 : spatialSize < 2 ^ 31) by nia.
  assert (Hfit' : outChannels * spatialSize <= 2 ^ 31) by lia.
  assert (Hsize : to_size_t spatialSize = spatialSize)
    by (apply to_size_t_small; unfold is_size_t; lia).
  pose proof (Forall2_length _ _ _ Hcast) as Hlen.
  unfold sparse_stream.
  destruct (ignoreStream d) as [ig |] eqn:Hig.
  - destruct (mask_turn ltac:(discriminate))
      as (Hinput' & Hlayout & Hrow' & Hslot').
    rewrite decide_False
      by (apply lookup_lt_Some in Hinput'; lia).
    rewrite Hinput'. cbn [defined mbind result_bind].
    rewrite Hlayout. cbn [dim0 dim1 dim2]. fold dims spatialSize.
    rewrite Hsize, Z.mul_1_r, Hsize.
    rewrite (store_sequence_at _ _ _ _ _ Hrow' Hslot').
    cbn [mbind result_bind]. rewrite Hinput. cbn [defined mbind result_bind].
    rewrite (SwapBlobData_found _ _ _ _ Hfind Hblob).
    cbn [mbind result_bind]. fold dims spatialSize outChannels. rewrite Hsize.
    destruct (Z.eqb_spec (Z.of_nat (length xs)) spatialSize) as [Hcount |];
      cbn [negb]; [| reflexivity].
    assert (Hnat : Z.to_nat spatialSize = length cs) by lia.
    rewrite Hnat, Hlen.
    pose proof (convert_labels_eq (Some ig) (Some (istr + 1)%nat) ismpl
                  spatialSize outChannels data ignoreRow (Z.of_nat ismpl) 1
                  (mkTensorShape (dim0 dims) (dim1 dims) 1)
                  (conj Hrow' Hslot') Hsp Hd2 Hfit' xs cs Hcast 0%nat
                  (replicate (length cs) float_one)
                  (replicate (length cs) 0)) as Hconv.
    cbn [with_mask] in Hconv. unfold put_mask in Hconv.
    rewrite Hconv by (rewrite ?length_replicate; lia).
    destruct (forallb _ cs); cbn [mbind result_bind]; [| reflexivity].
    rewrite mask_after_spec, indices_after_spec.
    rewrite to_IndexType_small by lia.
    rewrite (store_sequence_at _ _ _ _ row);
      [| rewrite list_lookup_insert_ne by lia; exact Hrow | exact Hslot].
    cbn [mbind result_bind]. subst sparse_sequence mask_sequence.
    replace (Z.of_nat (length cs)) with spatialSize by lia.
    reflexivity.
  - cbn [mbind result_bind]. rewrite Hinput. cbn [defined mbind result_bind].
    rewrite (SwapBlobData_found _ _ _ _ Hfind Hblob).
    cbn [mbind result_bind]. fold dims spatialSize outChannels. rewrite Hsize.
    destruct (Z.eqb_spec (Z.of_nat (length xs)) spatialSize) as [Hcount |];
      cbn [negb]; [| reflexivity].
    rewrite Hlen.
    pose proof (convert_labels_eq None None ismpl
                  spatialSize outChannels data row 0 0
                  (mkTensorShape 0 0 0)
                  I Hsp Hd2 Hfit' xs cs Hcast 0%nat
                  (replicate (length cs) float_one)
                  (replicate (length cs) 0)) as Hconv.
    cbn [with_mask] in Hconv.
    rewrite Hconv by (rewrite ?length_replicate; lia).
    destruct (forallb _ cs); cbn [mbind result_bind]; [| reflexivity].
    rewrite indices_after_spec.
    rewrite to_IndexType_small by lia.
    rewrite (store_sequence_at _ _ _ _ row Hrow Hslot).
    cbn [mbind result_bind]. subst sparse_sequence.
    replace (Z.of_nat (length cs)) with spatialSize by lia.
    reflexivity.
Qed.

Lemma stream_step_sparse :
  stream_step inputs ex data d istr ismpl
  = sparse_stream inputs ex data d istr ismpl.
Proof.
  destruct turn as (Hinput & Hsparse & _).
  unfold stream_step. rewrite Hinput. cbn [defined mbind result_bind].
  rewrite decide_False by (rewrite Hsparse; discriminate). reflexivity.
Qed.

End SparseTurn.

Lemma forallb_label_ok ignore outChannels cs :
  forallb (label_ok ignore outChannels) cs = false <->
  exists position label,
    cs !! position = Some label /\ is_ignored ignore label = false /\
    ~ 0 <= label < outChannels.
Proof.
  induction cs as [| c rest IH]; cbn [forallb].
  - split; [discriminate |]. intros (p & l & Hl & _). discriminate.
  - rewrite andb_false_iff, IH. unfold label_ok at 1.
    rewrite orb_false_iff, andb_false_iff, Z.leb_gt, Z.ltb_ge. split.
    + intros [[Hig Hch] | (p & l & Hl & Hbad)].
      * exists 0%nat, c. split; [reflexivity |]. split; [exact Hig | lia].
      * exists (S p), l. split; [exact Hl | exact Hbad].
    + intros ([| p] & l & Hl & Hig & Hch).
      * injection Hl as ->. left. split; [exact Hig | lia].
      * right. exists p, l. auto.
Qed.

Lemma spec_sparse_indices_lookup ignore spatialSize cs position label :
  cs !! position = Some label ->
  spec_sparse_indices ignore spatialSize cs !! position
  = Some (spec_index ignore spatialSize position label).
Proof.
  intros Hl. unfold spec_sparse_indices.
  rewrite list_lookup_imap, Hl. reflexivity.
Qed.

Lemma spec_ignore_mask_lookup ignore cs position label :
  cs !! position = Some label ->
  spec_ignore_mask ignore cs !! position
  = Some (if is_ignored ignore label then float_zero else float_one).
Proof.
  intros Hl. unfold spec_ignore_mask.
  rewrite list_lookup_fmap, Hl. reflexivity.
Qed.

Section StreamTurns.

Context `{ReaderLib}.

(** A turn of the stream loop of [GetNextSequences] for a sparse stream
    none of whose labels is an ignore label: when the label buffer does not
    have exactly [spatial0 * spatial1] elements the turn fails fatally;
    when it has, and every label is a channel, the turn stores a sparse
    sequence whose index at each position is
    [label * spatialSize + position], whose values are all 1.0, and whose
    count of nonzeros is the spatial size.  On the labels [2, 0, 1] with
    spatial size 3 and 3 channels the conversion loop leaves the indices
    [6, 1, 5]. *)
Lemma sparse_turn_one_hot
    (inputs : list StreamDescription.t) (ex : ImageDatasetExample)
    (data : list (list (option SequenceData))) (d : StreamDescriptor)
    (istr ismpl : nat) (input ignoreInput : StreamDescription.t)
    (row ignoreRow : list (option SequenceData)) (index : nat)
    (xs : list float) (cs : list Z) :
  let dims := StreamDescription.m_sampleLayout input in
  let spatialSize := dim0 dims * dim1 dims in
  sparse_turn inputs ex data d istr ismpl input row index xs cs ->
  (ignoreStream d <> None ->
   ignore_turn inputs data istr ismpl input ignoreInput ignoreRow) ->
  Forall (fun label => is_ignored (ignoreStream d) label = false) cs ->
  (Z.of_nat (length xs) <> spatialSize ->
   stream_step inputs ex data d istr ismpl = Fatal UnexpectedSparseCount) /\
  (Z.of_nat (length xs) = spatialSize ->
   Forall (fun label => 0 <= label < dim2 dims) cs ->
   exists next ex' data' indices,
     stream_step inputs ex data d istr ismpl = Ok (next, ex', data') /\
     data' !! istr =
       Some (<[ismpl :=
                Some (SparseSequenceDataIds (Z.of_nat ismpl) 1
                        [spatialSize] spatialSize indices
                        (replicate (Z.to_nat spatialSize) float_one))]> row) /\
     length indices = Z.to_nat spatialSize /\
     forall position label,
       cs !! position = Some label ->
       indices !! position
       = Some (label * spatialSize + Z.of_nat position)) /\
  (forall sequences,
     convert_labels None None ismpl 3 3 (float_of_Z <$> [2; 0; 1]) 0
       sequences [0; 0; 0]
     = Ok (sequences, [6; 1; 5])).
Proof.
  intros dims spatialSize Hturn Hmask Hnone.
  pose proof (stream_step_sparse inputs ex data d istr ismpl input row index
                xs cs Hturn) as Hstep.
  pose proof (sparse_stream_eq inputs ex data d istr ismpl input ignoreInput
                row ignoreRow index xs cs Hturn Hmask) as Heq.
  cbv zeta in Heq. unfold turn_sparse_sequence, turn_mask_sequence in Heq.
  fold dims spatialSize in Heq. rewrite <- Hstep in Heq.
  pose proof Hturn as (_ & _ & Hrow & Hslot & _ & _ & Hcast & _).
  pose proof (Forall2_length _ _ _ Hcast) as Hlen.
  split; [| split].
  - intros Hne. rewrite Heq.
    destruct (Z.eqb_spec (Z.of_nat (length xs)) spatialSize); [tauto |].
    reflexivity.
  - intros Hcount Hchannels. rewrite Heq.
    rewrite (proj2 (Z.eqb_eq _ _) Hcount). cbn [negb].
    assert (Hall : forallb (label_ok (ignoreStream d) (dim2 dims)) cs = true).
    { destruct (forallb _ cs) eqn:Hf; [reflexivity |].
      apply forallb_label_ok in Hf as (p & l & Hl & _ & Hbad).
      exfalso. apply Hbad.
      apply (proj1 (Forall_lookup _ _) Hchannels p l Hl). }
    rewrite Hall. eexists _, _, _, _. split; [reflexivity |].
    split; [| split].
    + rewrite list_lookup_insert_eq.
      2:{ destruct (ignoreStream d);
          rewrite ?length_insert; eapply lookup_lt_Some; eassumption. }
      replace (Z.to_nat spatialSize) with (length cs) by lia. reflexivity.
    + unfold spec_sparse_indices. rewrite length_imap. lia.
    + intros position label Hl.
      rewrite (spec_sparse_indices_lookup _ _ _ _ _ Hl). unfold spec_index.
      rewrite (proj1 (Forall_lookup _ _) Hnone position label Hl).
      reflexivity.
  - intros sequences.
    assert (Hconcrete : Forall2 (fun x c => float_to_int x = Some c)
                          (float_of_Z <$> [2; 0; 1]) [2; 0; 1])
      by (repeat constructor).
    rewrite (convert_labels_eq None None ismpl 3 3 sequences [] 0 0
               (mkTensorShape 0 0 0) I ltac:(lia) ltac:(lia) ltac:(lia)
               _ _ Hconcrete 0%nat [float_one; float_one; float_one]
               [0; 0; 0]) by (cbn; lia).
    reflexivity.
Qed.

(** A turn of the stream loop of [GetNextSequences] for a sparse stream
    paired with an ignore stream, on a label buffer of the expected size:
    the turn fails fatally exactly when the label at some position is not
    the ignore label and lies outside [0, outChannels).  Otherwise it stores
    a dense mask sequence and the sparse sequence; the mask is 1.0 at every
    position but those whose label is the ignore label, where it is 0 and
    where the sparse index is the position itself, the index of channel 0
    there, inside the layout.  With ignore label 2 the labels [2, 1, 0]
    leave the mask [0, 1, 1]. *)
Lemma sparse_turn_ignore_mask
    (inputs : list StreamDescription.t) (ex : ImageDatasetExample)
    (data : list (list (option SequenceData))) (d : StreamDescriptor)
    (ig : IgnoreStreamDescriptor)
    (istr ismpl : nat) (input ignoreInput : StreamDescription.t)
    (row ignoreRow : list (option SequenceData)) (index : nat)
    (xs : list float) (cs : list Z) :
  let dims := StreamDescription.m_sampleLayout input in
  let spatialSize := dim0 dims * dim1 dims in
  let outChannels := dim2 dims in
  let outcome := stream_step inputs ex data d istr ismpl in
  sparse_turn inputs ex data d istr ismpl input row index xs cs ->
  ignoreStream d = Some ig ->
  ignore_turn inputs data istr ismpl input ignoreInput ignoreRow ->
  Z.of_nat (length xs) = spatialSize ->
  (is_fatal outcome <->
   exists position label,
     cs !! position = Some label /\ label <> ignoreLabel ig /\
     ~ 0 <= label < outChannels) /\
  (~ is_fatal outcome ->
   exists ex' data' mask indices,
     outcome = Ok (S (S istr), ex', data') /\
     data' !! (istr + 1)%nat =
       Some (<[ismpl :=
                Some (DenseSequenceDataIds (Z.of_nat ismpl) 1
                        (mkTensorShape (dim0 dims) (dim1 dims) 1) mask)]>
               ignoreRow) /\
     data' !! istr =
       Some (<[ismpl :=
                Some (SparseSequenceDataIds (Z.of_nat ismpl) 1
                        [spatialSize] spatialSize indices
                        (replicate (Z.to_nat spatialSize) float_one))]> row) /\
     length mask = Z.to_nat spatialSize /\
     length indices = Z.to_nat spatialSize /\
     forall position label,
       cs !! position = Some label ->
       (label = ignoreLabel ig ->
        mask !! position = Some float_zero /\
        indices !! position = Some (Z.of_nat position) /\
        0 <= Z.of_nat position < outChannels * spatialSize) /\
       (label <> ignoreLabel ig ->
        mask !! position = Some float_one /\
        indices !! position
        = Some (label * spatialSize + Z.of_nat position))) /\
  convert_labels (Some (mkIgnoreStreamDescriptor "ignore" 2)) (Some 1%nat)
    0 3 2 (float_of_Z <$> [2; 1; 0]) 0
    [[None];
     [Some (DenseSequenceDataIds 0 1 (mkTensorShape 3 1 1)
              [float_one; float_one; float_one])]]
    [0; 0; 0]
  = Ok ([[None];
         [Some (DenseSequenceDataIds 0 1 (mkTensorShape 3 1 1)
                  [float_zero; float_one; float_one])]],
        [0; 4; 2]).
Proof.
  intros dims spatialSize outChannels outcome Hturn Hig Hmask Hcount.
  pose proof (stream_step_sparse inputs ex data d istr ismpl input row index
                xs cs Hturn) as Hstep.
  pose proof (sparse_stream_eq inputs ex data d istr ismpl input ignoreInput
                row ignoreRow index xs cs Hturn (fun _ => Hmask)) as Heq.
  cbv zeta in Heq. unfold turn_sparse_sequence, turn_mask_sequence in Heq.
  fold dims spatialSize outChannels in Heq. rewrite <- Hstep in Heq.
  fold outcome in Heq.
  rewrite (proj2 (Z.eqb_eq _ _) Hcount), Hig in Heq. cbn [negb] in Heq.
  pose proof Hturn as (_ & _ & Hrow & Hslot & _ & _ & Hcast
                       & Hd0 & Hd1 & Hd2 & Hfit).
  destruct Hmask as (_ & _ & Hrow' & Hslot').
  pose proof (Forall2_length _ _ _ Hcast) as Hlen.
  assert (Hbad :
    forallb (label_ok (Some ig) outChannels) cs = false <->
    exists position label,
      cs !! position = Some label /\ label <> ignoreLabel ig /\
      ~ 0 <= label < outChannels).
  { rewrite forallb_label_ok. cbn [is_ignored].
    split; intros (p & l & Hl & Hne & Hch); exists p, l;
      (split; [exact Hl | split; [| exact Hch]]).
    - apply Z.eqb_neq. exact Hne.
    - apply Z.eqb_neq. exact Hne. }
  split; [| split].
  - rewrite <- Hbad, Heq.
    destruct (forallb _ cs); split.
    + intros [e He]. discriminate.
    + discriminate.
    + reflexivity.
    + intros _. exists InvalidChannel. reflexivity.
  - intros Hnf. rewrite Heq in Hnf |- *.
    destruct (forallb _ cs) eqn:Hall.
    2:{ exfalso. apply Hnf. exists InvalidChannel. reflexivity. }
    eexists _, _, _, _. split; [reflexivity |].
    assert (Hi1 : (istr + 1 < length data)%nat)
      by (eapply lookup_lt_Some; eassumption).
    assert (Hi0 : (istr < length data)%nat)
      by (eapply lookup_lt_Some; eassumption).
    split; [| split; [| split; [| split]]].
    + rewrite list_lookup_insert_ne by lia.
      rewrite list_lookup_insert_eq by lia. reflexivity.
    + rewrite list_lookup_insert_eq by (rewrite length_insert; lia).
      replace (Z.to_nat spatialSize) with (length cs) by lia. reflexivity.
    + unfold spec_ignore_mask. rewrite length_fmap. lia.
    + unfold spec_sparse_indices. rewrite length_imap. lia.
    + intros position label Hl.
      rewrite (spec_ignore_mask_lookup _ _ _ _ Hl).
      rewrite (spec_sparse_indices_lookup _ _ _ _ _ Hl).
      unfold spec_index. cbn [is_ignored].
      apply lookup_lt_Some in Hl as Hpos.
      destruct (Z.eqb_spec label (ignoreLabel ig)) as [Heql | Hnel].
      * split; [| tauto]. intros _.
        split; [reflexivity | split; [reflexivity |]].
        fold dims in Hd0, Hd1, Hd2, Hfit.
        fold spatialSize outChannels in Hd2, Hfit.
        assert (0 <= spatialSize) by (unfold spatialSize; nia).
        nia.
      * split; [tauto |]. intros _. split; reflexivity.
  - assert (Hconcrete : Forall2 (fun x c => float_to_int x = Some c)
                          (float_of_Z <$> [2; 1; 0]) [2; 1; 0])
      by (repeat constructor).
    pose proof (convert_labels_eq
                  (Some (mkIgnoreStreamDescriptor "ignore" 2)) (Some 1%nat)
                  0 3 2 [[None]; [None]] [None] 0 1 (mkTensorShape 3 1 1)
                  (conj eq_refl (Nat.lt_0_succ 0))
                  ltac:(lia) ltac:(lia) ltac:(lia)
                  _ _ Hconcrete 0%nat [float_one; float_one; float_one]
                  [0; 0; 0]) as Hconv.
    specialize (Hconv ltac:(cbn; lia) ltac:(cbn; lia)). exact Hconv.
Qed.

(** A turn of the stream loop of [GetNextSequences] for a dense stream
    without an ignore stream stores a dense sequence that owns exactly the
    values the adapter held for the blob right before the turn, element for
    element; the adapter is left with the empty buffer that was swapped in.
    The sequence is one sample, and its shape is the shape of the blob with
    the order of the dimensions reversed. *)
Lemma dense_turn_moves_buffer
    (inputs : list StreamDescription.t) (ex : ImageDatasetExample)
    (data : list (list (option SequenceData))) (d : StreamDescriptor)
    (istr ismpl : nat) (input : StreamDescription.t)
    (row : list (option SequenceData)) (index : nat)
    (buffer : list float) (shape : BlobShape) :
  inputs !! istr = Some input ->
  StreamDescription.m_storageType input = dense ->
  ignoreStream d = None ->
  find_blob (datasetName d) (m_blobNames ex) 0 = Some index ->
  m_blobs ex !! index = Some buffer ->
  m_blob_shapes ex !! index = Some shape ->
  0 <= shape0 shape < 2 ^ 31 -> 0 <= shape1 shape < 2 ^ 31 ->
  0 <= shape2 shape < 2 ^ 31 ->
  data !! istr = Some row -> (ismpl < length row)%nat ->
  exists ex' data',
    stream_step inputs ex data d istr ismpl = Ok (S istr, ex', data') /\
    data' !! istr =
      Some (<[ismpl :=
               Some (DenseSequenceDataIds (Z.of_nat ismpl) 1
                       (mkTensorShape (shape2 shape) (shape1 shape)
                          (shape0 shape))
                       buffer)]> row) /\
    m_blobs ex' !! index = Some [] /\
    (forall other, other <> index -> m_blobs ex' !! other = m_blobs ex !! other).
Proof.
  intros Hinput Hdense Hig Hfind Hblob Hshape H0 H1 H2 Hrow Hslot.
  unfold stream_step. rewrite Hinput. cbn [defined mbind result_bind].
  rewrite decide_True by exact Hdense.
  unfold dense_stream. rewrite Hig.
  unfold GetBlobShape, BlobIndexFromName. rewrite Hfind.
  cbn [mbind result_bind]. rewrite Hshape. cbn [defined mbind result_bind].
  change (match find_blob (datasetName d) (m_blobNames ex) 0 with
          | Some index0 => Ok index0
          | None => Fatal (BlobNotFound (datasetName d))
          end) with (BlobIndexFromName ex (datasetName d)).
  rewrite (SwapBlobData_found _ _ _ _ Hfind Hblob).
  cbn [mbind result_bind].
  rewrite (store_sequence_at _ _ _ _ _ Hrow Hslot). cbn [mbind result_bind].
  eexists _, _. split; [reflexivity |].
  split; [| split].
  - rewrite list_lookup_insert_eq by (eapply lookup_lt_Some; eassumption).
    unfold TensorShape_of_ints, reverse_shape. cbn [shape0 shape1 shape2].
    rewrite !to_size_t_small by (unfold is_size_t; lia). reflexivity.
  - cbn. apply list_lookup_insert_eq. eapply lookup_lt_Some; eassumption.
  - intros other Hother. cbn. apply list_lookup_insert_ne. congruence.
Qed.

End StreamTurns.


(** * Further properties *)

(** ** The adapter *)

Lemma find_blob_Some blobName names :
  forall ib index,
  find_blob blobName names ib = Some index <->
  (ib <= index)%nat /\ names !! (index - ib)%nat = Some blobName /\
  forall j, (j < index - ib)%nat -> names !! j <> Some blobName.
Proof.
  induction names as [| x rest IH]; intros ib index; cbn [find_blob].
  - split; [discriminate |]. intros (_ & Hl & _). discriminate.
  - destruct (decide (blobName = x)) as [-> | Hne].
    + split.
      * intros [= <-]. rewrite Nat.sub_diag.
        split; [lia | split; [reflexivity |]]. intros j Hj. lia.
      * intros (Hle & _ & Hfirst).
        destruct (decide (index - ib = 0)%nat) as [Hz | Hnz];
          [f_equal; lia |].
        exfalso. apply (Hfirst 0%nat); [lia | reflexivity].
    + rewrite IH. split.
      * intros (Hle & Hl & Hfirst).
        split; [lia |].
        replace (index - ib)%nat with (S (index - S ib)) by lia.
        split; [exact Hl |].
        intros [| j] Hj; cbn; [congruence |]. apply Hfirst. lia.
      * intros (Hle & Hl & Hfirst).
        destruct (index - ib)%nat as [| k] eqn:Hk.
        { cbn in Hl. congruence. }
        replace (index - S ib)%nat with k by lia.
        split; [lia | split; [exact Hl |]].
        intros j Hj. apply (Hfirst (S j)). lia.
Qed.

Lemma find_blob_None blobName names :
  forall ib, find_blob blobName names ib = None <-> blobName ∉ names.
Proof.
  induction names as [| x rest IH]; intros ib; cbn [find_blob].
  - split; [intros _; apply not_elem_of_nil | reflexivity].
  - rewrite not_elem_of_cons.
    destruct (decide (blobName = x)) as [-> | Hne].
    + split; [discriminate | tauto].
    + rewrite IH. tauto.
Qed.

(** X1.  [BlobIndexFromName] returns the first position at which the name
    stands among the blob names, and fails fatally, naming the blob, exactly
    when the name stands nowhere. *)
Theorem BlobIndexFromName_first (ex : ImageDatasetExample) (blobName : string) :
  (forall index,
     BlobIndexFromName ex blobName = Ok index <->
     m_blobNames ex !! index = Some blobName /\
     forall j, (j < index)%nat -> m_blobNames ex !! j <> Some blobName) /\
  (BlobIndexFromName ex blobName = Fatal (BlobNotFound blobName) <->
   blobName ∉ m_blobNames ex) /\
  BlobIndexFromName ex blobName <> Undefined.
Proof.
  unfold BlobIndexFromName.
  pose proof (find_blob_Some blobName (m_blobNames ex) 0) as HS.
  pose proof (find_blob_None blobName (m_blobNames ex) 0) as HN.
  destruct (find_blob blobName (m_blobNames ex) 0) as [i |].
  - split; [| split; [| discriminate]].
    + intros index. specialize (HS index). rewrite Nat.sub_0_r in HS.
      split.
      * intros [= <-]. destruct (proj1 HS eq_refl) as (_ & Hl & Hf). auto.
      * intros [Hl Hf]. f_equal.
        assert (Some i = Some index) as [= ->]; [| reflexivity].
        apply HS. split; [lia | auto].
    + split; [discriminate |]. intros Hnot. apply HN in Hnot. discriminate.
  - split; [| split; [| discriminate]].
    + intros index. specialize (HS index). rewrite Nat.sub_0_r in HS.
      split; [discriminate |]. intros [Hl Hf].
      assert (None = Some index) by (apply HS; split; [lia | auto]).
      discriminate.
    + split; [intros _; apply HN; reflexivity | reflexivity].
Qed.

Lemma find_blob_bound blobName names index :
  find_blob blobName names 0 = Some index -> (index < length names)%nat.
Proof.
  intros Hf. apply find_blob_Some in Hf as (_ & Hl & _).
  rewrite Nat.sub_0_r in Hl. eapply lookup_lt_Some. exact Hl.
Qed.

Lemma find_blob_elem_of blobName names :
  blobName ∈ names -> exists index, find_blob blobName names 0 = Some index.
Proof.
  intros Hin. destruct (find_blob blobName names 0) as [i |] eqn:Hf;
    [eauto |].
  apply find_blob_None in Hf. contradiction.
Qed.

Lemma length_resize {A : Type} (n : nat) (x : A) (l : list A) :
  length (resize n x l) = n.
Proof.
  unfold resize. rewrite length_app, length_take, length_replicate. lia.
Qed.

(** X2.  The adapter built for a list of blob names has one empty buffer and
    one shape per name, and building it fails exactly for the empty list;
    [ReshapeBlob] and [SwapBlobData] keep one buffer and one shape per name,
    and neither changes the names. *)
Theorem adapter_vectors_parallel :
  (forall blobNames,
     ImageDatasetExample_new blobNames = Fatal EmptyBlobNames <->
     blobNames = []) /\
  (forall blobNames ex,
     ImageDatasetExample_new blobNames = Ok ex ->
     adapter_ok ex /\ m_blobNames ex = blobNames /\
     Forall (fun buffer => buffer = []) (m_blobs ex)) /\
  (forall ex index channels height width ex',
     adapter_ok ex ->
     ReshapeBlob ex index channels height width = Ok ex' ->
     adapter_ok ex' /\ m_blobNames ex' = m_blobNames ex) /\
  (forall ex blobName outer ex' buffer,
     adapter_ok ex ->
     SwapBlobData ex blobName outer = Ok (ex', buffer) ->
     adapter_ok ex' /\ m_blobNames ex' = m_blobNames ex /\
     m_blob_shapes ex' = m_blob_shapes ex).
Proof.
  split; [| split; [| split]].
  - intros blobNames. unfold ImageDatasetExample_new.
    destruct (decide (length blobNames = 0%nat)) as [Hz | Hnz].
    + split; [| reflexivity]. intros _. destruct blobNames; [reflexivity |].
      discriminate Hz.
    + split; [discriminate |]. intros ->. contradiction Hnz. reflexivity.
  - intros blobNames ex. unfold ImageDatasetExample_new.
    destruct (decide _); [discriminate |]. intros [= <-].
    unfold adapter_ok. cbn. rewrite !length_replicate.
    split; [split; reflexivity | split; [reflexivity |]].
    apply Forall_replicate. reflexivity.
  - intros ex index channels height width ex' [Hb Hs]. unfold ReshapeBlob.
    destruct (decide _); [| discriminate].
    destruct (decide _); [| discriminate].
    intros Hr. bind_inv Hr. injection Hr as <-.
    unfold adapter_ok. cbn. rewrite !length_insert. auto.
  - intros ex blobName outer ex' buffer [Hb Hs]. unfold SwapBlobData.
    intros Hw. bind_inv Hw. bind_inv Hw. injection Hw as <- _.
    unfold adapter_ok. cbn. rewrite !length_insert. auto.
Qed.

(** X3.  On an adapter with one buffer and one shape per name,
    [SwapBlobData] and [GetBlobShape] never run into undefined behaviour:
    for a name among the blob names they return, [SwapBlobData] handing out
    the buffer at the first position of the name and keeping the caller's
    vector there; for any other name they fail fatally, naming the blob. *)
Theorem adapter_lookup_total (ex : ImageDatasetExample) (blobName : string)
    (outer : list float) :
  adapter_ok ex ->
  (blobName ∈ m_blobNames ex ->
   exists index buffer shape,
     BlobIndexFromName ex blobName = Ok index /\
     m_blobs ex !! index = Some buffer /\
     SwapBlobData ex blobName outer
     = Ok (mkImageDatasetExample (m_blobNames ex)
             (<[index := outer]> (m_blobs ex)) (m_blob_shapes ex),
           buffer) /\
     GetBlobShape ex blobName = Ok shape /\
     m_blob_shapes ex !! index = Some shape) /\
  (blobName ∉ m_blobNames ex ->
   SwapBlobData ex blobName outer = Fatal (BlobNotFound blobName) /\
   GetBlobShape ex blobName = Fatal (BlobNotFound blobName)).
Proof.
  intros [Hb Hs]. split.
  - intros Hin. destruct (find_blob_elem_of _ _ Hin) as [index Hf].
    pose proof (find_blob_bound _ _ _ Hf) as Hlt.
    destruct (lookup_lt_is_Some_2 (m_blobs ex) index ltac:(lia))
      as [buffer Hbuf].
    destruct (lookup_lt_is_Some_2 (m_blob_shapes ex) index ltac:(lia))
      as [shape Hshape].
    exists index, buffer, shape.
    unfold SwapBlobData, GetBlobShape, BlobIndexFromName. rewrite Hf. cbn.
    rewrite Hbuf, Hshape. cbn. auto.
  - intros Hnot. apply (find_blob_None _ _ 0%nat) in Hnot.
    unfold SwapBlobData, GetBlobShape, BlobIndexFromName. rewrite Hnot.
    split; reflexivity.
Qed.

(** X4.  Swapping a buffer out of the adapter and swapping it back in
    restores the adapter and gives the caller's vector back. *)
Theorem SwapBlobData_round_trip (ex : ImageDatasetExample) (blobName : string)
    (outer : list float) (ex' : ImageDatasetExample) (buffer : list float) :
  SwapBlobData ex blobName outer = Ok (ex', buffer) ->
  SwapBlobData ex' blobName buffer = Ok (ex, outer).
Proof.
  unfold SwapBlobData, BlobIndexFromName.
  destruct (find_blob blobName (m_blobNames ex) 0) as [index |] eqn:Hf;
    [| discriminate].
  cbn. destruct (m_blobs ex !! index) as [buf |] eqn:Hbuf; [| discriminate].
  cbn. intros [= <- <-]. cbn. rewrite Hf. cbn.
  rewrite list_lookup_insert_eq by (eapply lookup_lt_Some; exact Hbuf).
  cbn. rewrite list_insert_insert_eq, (list_insert_id _ _ _ Hbuf).
  destruct ex. reflexivity.
Qed.

(** X5.  After [ReshapeBlob] the buffer of the blob has exactly
    [channels * height * width] elements, of which those that were there
    before are unchanged, and [GetBlobShape] gives the three numbers for the
    name that stands first at that position; no other buffer or shape
    changes. *)
Theorem ReshapeBlob_shape (ex : ImageDatasetExample) (index : nat)
    (channels height width : Z) (ex' : ImageDatasetExample) :
  ReshapeBlob ex index channels height width = Ok ex' ->
  (exists old buffer,
     m_blobs ex !! index = Some old /\
     m_blobs ex' !! index = Some buffer /\
     Z.of_nat (length buffer) = channels * height * width /\
     forall k x,
       (k < length buffer)%nat -> old !! k = Some x -> buffer !! k = Some x) /\
  (forall blobName,
     BlobIndexFromName ex blobName = Ok index ->
     GetBlobShape ex' blobName = Ok (mkBlobShape channels height width)) /\
  (forall other,
     other <> index ->
     m_blobs ex' !! other = m_blobs ex !! other /\
     m_blob_shapes ex' !! other = m_blob_shapes ex !! other).
Proof.
  unfold ReshapeBlob.
  destruct (decide _) as [[Hs Hb] |]; [| discriminate].
  destruct (decide _) as [[Hint Hcount] |]; [| discriminate].
  intros Hr. bind_inv Hr. apply defined_Ok in Ha. injection Hr as <-.
  split; [| split].
  - exists a, (resize (Z.to_nat (channels * height * width)) float_zero a).
    split; [exact Ha |]. cbn.
    split; [apply list_lookup_insert_eq; exact Hb |].
    split; [rewrite length_resize; lia |].
    intros k x Hk Hold. rewrite length_resize in Hk. unfold resize.
    rewrite lookup_app_l by (rewrite length_take;
                             apply lookup_lt_Some in Hold; lia).
    rewrite lookup_take_lt by exact Hk. exact Hold.
  - intros blobName Hidx. unfold GetBlobShape. cbn.
    unfold BlobIndexFromName in *. cbn.
    destruct (find_blob blobName (m_blobNames ex) 0); [| discriminate].
    injection Hidx as ->. cbn.
    rewrite list_lookup_insert_eq by exact Hs. reflexivity.
  - intros other Hother. cbn.
    rewrite !list_lookup_insert_ne by congruence. auto.
Qed.

(** ** StartEpoch: more on the shares *)

Section MoreStartEpoch.

Context `{ReaderLib}.

(** What a call of [StartEpoch] that returned tells of its arguments and
    leaves in the reader. *)
Lemma StartEpoch_Ok_share s config s' :
  epoch_state_ok s -> epoch_config_ok config ->
  StartEpoch s config = Ok s' ->
  let E := globalEpochSize s config in
  let M := EpochConfiguration.m_minibatchSizeInSamples config in
  let W := m_numberOfWorkers s in
  0 < M /\ 0 < W /\ M mod W = 0 /\ is_size_t E /\
  m_minibatchSize s' = M /\ m_numberOfWorkers s' = W /\
  m_workerRank s' = m_workerRank s /\
  m_currEpochSampleCount s' = 0 /\
  m_epochSize s' =
    E / M * M / W + E mod M / W
    + (if m_workerRank s <? E mod M mod W then 1 else 0) /\
  m_appendLastMinibatch s' =
    (E mod M / W =? 0) && (m_workerRank s <? E mod M mod W).
Proof.
  intros (Hrank & HW & _) (_ & _ & HM & Htotal) Hok E M W.
  destruct (StartEpoch_ok_inv s config s' Hok) as (Hacc & HW0 & HM0).
  rewrite (StartEpoch_accepts s config Hacc HW0 HM0) in Hok.
  injection Hok as <-. cbn.
  assert (HMpos : 0 < M) by (unfold is_size_t in HM; subst M; lia).
  assert (HWpos : 0 < W) by (unfold is_size_t in HW; subst W; lia).
  assert (HE : is_size_t E) by (apply globalEpochSize_size_t, Htotal).
  fold E M W.
  rewrite (thisReaderEpochSize_eq E M W HE HMpos HWpos (m_workerRank s))
    by (destruct Hrank; assumption).
  cbn [fst snd].
  assert (Hdiv : M mod W = 0).
  { destruct (Z.eq_dec (M mod W) 0) as [Hz | Hnz]; [exact Hz |].
    exfalso. apply Hacc. unfold StartEpoch_rejects. fold M W. tauto. }
  repeat split; try assumption; try reflexivity.
  - destruct HE; assumption.
  - destruct HE; assumption.
Qed.

(** X6.  The epoch sizes [StartEpoch] leaves in two readers of one job
    differ by at most one sample, and the reader of the lower rank never has
    the smaller one. *)
Theorem shares_differ_by_one (s : DataSource) (config : EpochConfiguration.t)
    (rank1 rank2 size1 size2 : Z) :
  epoch_state_ok s -> epoch_config_ok config ->
  0 <= rank1 <= rank2 -> rank2 < 2 ^ 64 ->
  epochSizeOfWorker s config rank1 = Some size1 ->
  epochSizeOfWorker s config rank2 = Some size2 ->
  size2 <= size1 <= size2 + 1.
Proof.
  intros Hs Hc Hranks Hr2 H1 H2. unfold epochSizeOfWorker in H1, H2.
  destruct (StartEpoch (at_rank s rank1) (config_at_rank config rank1))
    as [s1 | |] eqn:Hok1; [| discriminate ..].
  destruct (StartEpoch (at_rank s rank2) (config_at_rank config rank2))
    as [s2 | |] eqn:Hok2; [| discriminate ..].
  injection H1 as <-. injection H2 as <-.
  assert (Hs1 : epoch_state_ok (at_rank s rank1)).
  { unfold epoch_state_ok, epoch_config_ok, is_size_t in *. cbn. lia. }
  assert (Hs2 : epoch_state_ok (at_rank s rank2)).
  { unfold epoch_state_ok, epoch_config_ok, is_size_t in *. cbn. lia. }
  assert (Hc1 : epoch_config_ok (config_at_rank config rank1)).
  { unfold epoch_state_ok, epoch_config_ok, is_size_t in *. cbn. lia. }
  assert (Hc2 : epoch_config_ok (config_at_rank config rank2)).
  { unfold epoch_state_ok, epoch_config_ok, is_size_t in *. cbn. lia. }
  pose proof (StartEpoch_Ok_share _ _ _ Hs1 Hc1 Hok1) as F1.
  pose proof (StartEpoch_Ok_share _ _ _ Hs2 Hc2 Hok2) as F2.
  cbn zeta in F1, F2.
  destruct F1 as (_ & _ & _ & _ & _ & _ & _ & _ & -> & _).
  destruct F2 as (_ & _ & _ & _ & _ & _ & _ & _ & -> & _).
  change (globalEpochSize (at_rank s rank2) (config_at_rank config rank2))
    with (globalEpochSize (at_rank s rank1) (config_at_rank config rank1)).
  cbn [at_rank config_at_rank m_workerRank m_numberOfWorkers
       EpochConfiguration.m_minibatchSizeInSamples].
  set (x := _ mod _ mod _).
  destruct (Z.ltb_spec rank1 x); destruct (Z.ltb_spec rank2 x); lia.
Qed.

(** X7.  When the minibatch size divides the epoch size of the job,
    [StartEpoch] gives every reader the same share, the epoch size divided
    by the number of workers, and lets no reader append its last
    minibatch. *)
Theorem StartEpoch_divisible (s : DataSource) (config : EpochConfiguration.t)
    (s' : DataSource) :
  epoch_state_ok s -> epoch_config_ok config ->
  StartEpoch s config = Ok s' ->
  globalEpochSize s config
    mod EpochConfiguration.m_minibatchSizeInSamples config = 0 ->
  m_epochSize s' * m_numberOfWorkers s = globalEpochSize s config /\
  m_epochSize s' = globalEpochSize s config / m_numberOfWorkers s /\
  m_appendLastMinibatch s' = false.
Proof.
  intros Hs Hc Hok Hdiv.
  pose proof (StartEpoch_Ok_share _ _ _ Hs Hc Hok) as F. cbn zeta in F.
  destruct F as (HM & HW & HMW & HE & _ & _ & _ & _ & -> & ->).
  rewrite Hdiv, Z.div_0_l, Z.mod_0_l by lia.
  destruct Hs as ((Hr0 & _) & _).
  destruct (Z.ltb_spec (m_workerRank s) 0); [lia |].
  rewrite andb_false_r, !Z.add_0_r.
  set (E := globalEpochSize s config) in *.
  set (M := EpochConfiguration.m_minibatchSizeInSamples config) in *.
  set (W := m_numberOfWorkers s) in *.
  assert (HEM : E / M * M = E).
  { pose proof (Z.div_mod E M ltac:(lia)). lia. }
  pose proof (exact_split (E / M) M W HW HMW) as Hx.
  rewrite HEM in *. split; [lia | split; reflexivity].
Qed.

(** X8.  Right after a call of [StartEpoch] that returned, a second call
    fails on the check that the previous epoch was read to the end, unless
    the reader has an epoch of no samples. *)
Theorem StartEpoch_twice (s : DataSource) (config : EpochConfiguration.t)
    (s' : DataSource) (config' : EpochConfiguration.t) :
  StartEpoch s config = Ok s' ->
  (StartEpoch s' config' = Fatal EpochNotFinished <-> m_epochSize s' <> 0).
Proof.
  intros Hok.
  destruct (StartEpoch_ok_inv s config s' Hok) as (Hacc & HW0 & HM0).
  rewrite (StartEpoch_accepts s config Hacc HW0 HM0) in Hok.
  injection Hok as <-. cbn zeta.
  set (share := thisReaderEpochSize _ _ _ _).
  unfold StartEpoch. cbn [m_epochSize m_currEpochSampleCount].
  destruct (Z.eqb_spec (fst share) 0) as [Hz | Hnz]; cbn [negb].
  - split; [| tauto].
    repeat match goal with
           | |- context [if ?b then _ else _] => destruct b
           | |- context [let '(_, _) := ?p in _] => destruct p
           end; discriminate.
  - split; [intros _; exact Hnz | reflexivity].
Qed.

(** X9.  After a call of [StartEpoch] that returned, [SetConfiguration]
    returns, leaving the reader as it is, exactly for the number of workers,
    the rank and the minibatch size of that call, and fails fatally for any
    other. *)
Theorem SetConfiguration_after_StartEpoch (s : DataSource)
    (config : EpochConfiguration.t) (s' : DataSource)
    (later : ReaderConfiguration.t) :
  StartEpoch s config = Ok s' ->
  let same :=
    ReaderConfiguration.m_numberOfWorkers later
      = EpochConfiguration.m_numberOfWorkers config /\
    ReaderConfiguration.m_workerRank later
      = EpochConfiguration.m_workerRank config /\
    ReaderConfiguration.m_minibatchSizeInSamples later
      = EpochConfiguration.m_minibatchSizeInSamples config in
  (same -> SetConfiguration s' later = Ok s') /\
  (~ same -> is_fatal (SetConfiguration s' later)).
Proof.
  intros Hok same. subst same.
  destruct (StartEpoch_ok_inv s config s' Hok) as (Hacc & HW0 & HM0).
  rewrite (StartEpoch_accepts s config Hacc HW0 HM0) in Hok.
  injection Hok as <-. cbn zeta.
  unfold StartEpoch_rejects in Hacc.
  assert (HW : m_numberOfWorkers s
               = EpochConfiguration.m_numberOfWorkers config) by lia.
  assert (Hr : m_workerRank s = EpochConfiguration.m_workerRank config)
    by lia.
  unfold SetConfiguration, is_fatal.
  cbn [m_numberOfWorkers m_workerRank m_minibatchSize].
  rewrite HW, Hr.
  destruct (Z.eqb_spec (ReaderConfiguration.m_numberOfWorkers later)
              (EpochConfiguration.m_numberOfWorkers config));
    destruct (Z.eqb_spec (ReaderConfiguration.m_workerRank later)
                (EpochConfiguration.m_workerRank config));
    destruct (Z.eqb_spec (ReaderConfiguration.m_minibatchSizeInSamples later)
                (EpochConfiguration.m_minibatchSizeInSamples config));
    cbn [negb]; split; intros Hx; try tauto; eauto.
Qed.

End MoreStartEpoch.

(** ** The constructor: the stream tables *)

Lemma tables_ok_empty : tables_ok (mkStreamTables [] [] 0 0).
Proof.
  unfold tables_ok. cbn. split; [constructor | split; [reflexivity |]].
  split; [reflexivity |]. intros i sd Hl. discriminate.
Qed.

Lemma tables_ok_app tb ins outs :
  tables_ok tb ->
  Forall2 output_of ins outs ->
  (forall k sd,
     ins !! k = Some sd ->
     StreamDescription.m_id sd
     = to_size_t (stream_id_in tb + Z.of_nat k)) ->
  tables_ok
    (mkStreamTables (inputStreams tb ++ ins) (outputStreams tb ++ outs)
       (stream_id_in tb + Z.of_nat (length ins))
       (stream_id_out tb + Z.of_nat (length outs))).
Proof.
  intros (Hpar & Hin & Hout & Hid) Hnew Hids. unfold tables_ok. cbn.
  split; [apply Forall2_app; assumption |].
  rewrite !length_app, Hin, Hout.
  split; [lia | split; [lia |]].
  intros i sd Hl. apply lookup_app_Some in Hl as [Hl | [Hge Hl]].
  - apply Hid. exact Hl.
  - rewrite (Hids _ _ Hl), Hin. f_equal. lia.
Qed.

Lemma tables_ok_ids tb : tables_ok tb -> stream_id_out tb = stream_id_in tb.
Proof.
  intros (Hpar & Hin & Hout & _). apply Forall2_length in Hpar. lia.
Qed.

(** The id of a stream just added at position [k] of the new ones. *)
Ltac new_stream_id k Hl :=
  repeat (destruct k as [| k]; cbn in Hl;
          [injection Hl as <-; cbn; f_equal; lia |]);
  discriminate Hl.

(** One turn of the constructor's loop that returned: the tables grow by the
    streams of the descriptor, in the order the stream loop expects. *)
Lemma describe_stream_step blobNames ex tb d tb' :
  describe_stream blobNames ex tb d = Ok tb' ->
  describable blobNames ex d /\
  (tables_ok tb -> tables_ok tb') /\
  exists new,
    inputStreams tb' = inputStreams tb ++ new /\
    forall more rest,
      lockstep more rest -> lockstep (new ++ more) (d :: rest).
Proof.
  unfold describe_stream, describable, sparse_shape_ok.
  destruct (decide (datasetName d ∈ blobNames)) as [Hin |]; [| discriminate].
  destruct (GetBlobShape ex (datasetName d)) as [shape | |];
    cbn [mbind result_bind]; [| discriminate ..].
  unfold reverse_shape. cbn [shape0 shape1 shape2].
  destruct (datasetStorageType d) eqn:Hst; cbn [bool_decide andb].
  - (* dense *)
    rewrite bool_decide_eq_false_2 by discriminate. cbn [andb].
    intros [= <-].
    split; [split; [exact Hin | discriminate] |].
    split.
    + intros Hok. pose proof (tables_ok_ids tb Hok) as Hsame.
      destruct (ignoreStream d); apply (tables_ok_app tb); try exact Hok;
        try (rewrite Hsame; repeat constructor; fail);
        intros k sd Hl; new_stream_id k Hl.
    + eexists. split.
      * cbn. destruct (ignoreStream d); reflexivity.
      * intros more rest Hmore. cbn [lockstep app]. rewrite Hst.
        destruct (ignoreStream d); cbn; auto.
  - (* sparse *)
    rewrite bool_decide_eq_true_2 by reflexivity. cbn [andb].
    destruct (Z.eqb_spec (shape0 shape) 1) as [H1 |]; cbn [negb];
      [| discriminate].
    intros [= <-].
    split; [split; [exact Hin | reflexivity] |].
    split.
    + intros Hok. pose proof (tables_ok_ids tb Hok) as Hsame.
      destruct (ignoreStream d) as [ig |]; apply (tables_ok_app tb);
        try exact Hok; try (rewrite Hsame; repeat constructor; fail);
        intros k sd Hl; new_stream_id k Hl.
    + eexists. split.
      * cbn. reflexivity.
      * intros more rest Hmore. cbn [lockstep app]. rewrite Hst.
        destruct (ignoreStream d) as [ig |]; cbn; auto 10.
Qed.

Lemma describe_streams_steps blobNames ex descriptors :
  forall tb tb',
  describe_streams blobNames ex tb descriptors = Ok tb' ->
  Forall (describable blobNames ex) descriptors /\
  (tables_ok tb -> tables_ok tb') /\
  exists new,
    inputStreams tb' = inputStreams tb ++ new /\
    lockstep new descriptors.
Proof.
  induction descriptors as [| d rest IH]; intros tb tb' Hds;
    cbn [describe_streams] in Hds.
  - injection Hds as <-. split; [constructor | split; [auto |]].
    exists []. rewrite app_nil_r. split; reflexivity.
  - bind_inv Hds.
    apply describe_stream_step in Ha as (Hd & Hok & new & Hnew & Hlock).
    apply IH in Hds as (Hrest & Hok' & new' & Hnew' & Hlock').
    split; [constructor; assumption | split; [auto |]].
    exists (new ++ new'). split.
    + rewrite Hnew', Hnew, app_assoc. reflexivity.
    + apply Hlock. exact Hlock'.
Qed.

Lemma ReshapeBlob_adapter ex index channels height width ex' :
  adapter_ok ex ->
  ReshapeBlob ex index channels height width = Ok ex' ->
  adapter_ok ex' /\ m_blobNames ex' = m_blobNames ex.
Proof.
  intros [Hb Hs]. unfold ReshapeBlob.
  destruct (decide _); [| discriminate].
  destruct (decide _); [| discriminate].
  intros Hr. bind_inv Hr. injection Hr as <-.
  unfold adapter_ok. cbn. rewrite !length_insert. auto.
Qed.

Lemma WriteBlobMemory_adapter ex index values ex' :
  adapter_ok ex ->
  WriteBlobMemory ex index values = Ok ex' ->
  adapter_ok ex' /\ m_blobNames ex' = m_blobNames ex.
Proof.
  intros [Hb Hs]. unfold WriteBlobMemory.
  intros Hw. bind_inv Hw. destruct (decide _); [| discriminate].
  injection Hw as <-.
  unfold adapter_ok. cbn. rewrite !length_insert. auto.
Qed.

Lemma fill_blobs_adapter blobs :
  forall ex ib ex',
  adapter_ok ex ->
  fill_blobs ex ib blobs = Ok ex' ->
  adapter_ok ex' /\ m_blobNames ex' = m_blobNames ex.
Proof.
  induction blobs as [| [shape values] rest IH]; intros ex ib ex' Hok Hf;
    cbn [fill_blobs] in Hf.
  - injection Hf as <-. auto.
  - bind_inv Hf. bind_inv Hf.
    apply (ReshapeBlob_adapter _ _ _ _ _ _ Hok) in Ha as [Hok1 Hn1].
    apply (WriteBlobMemory_adapter _ _ _ _ Hok1) in Ha0 as [Hok2 Hn2].
    apply (IH _ _ _ Hok2) in Hf as [Hok3 Hn3].
    split; [exact Hok3 | congruence].
Qed.

Lemma GetBlobShape_known ex blobName :
  adapter_ok ex -> blobName ∈ m_blobNames ex ->
  exists shape, GetBlobShape ex blobName = Ok shape.
Proof.
  intros [_ Hs] Hin. destruct (find_blob_elem_of _ _ Hin) as [index Hf].
  pose proof (find_blob_bound _ _ _ Hf) as Hlt.
  destruct (lookup_lt_is_Some_2 (m_blob_shapes ex) index ltac:(lia))
    as [shape Hshape].
  exists shape. unfold GetBlobShape, BlobIndexFromName. rewrite Hf. cbn.
  rewrite Hshape. reflexivity.
Qed.

Lemma describe_stream_accepts blobNames ex tb d :
  adapter_ok ex -> m_blobNames ex = blobNames ->
  describable blobNames ex d ->
  exists tb', describe_stream blobNames ex tb d = Ok tb'.
Proof.
  intros Hok Hnames [Hin Hsparse]. unfold describe_stream.
  rewrite decide_True by exact Hin.
  destruct (GetBlobShape_known ex (datasetName d) Hok) as [shape Hshape];
    [rewrite Hnames; exact Hin |].
  rewrite Hshape. cbn [mbind result_bind].
  destruct (datasetStorageType d) eqn:Hst.
  - rewrite bool_decide_eq_false_2 by discriminate. cbn [andb]. eauto.
  - rewrite bool_decide_eq_true_2 by reflexivity. cbn [andb].
    specialize (Hsparse eq_refl). unfold sparse_shape_ok in Hsparse.
    rewrite Hshape in Hsparse. unfold reverse_shape. cbn [shape2].
    rewrite Hsparse. cbn [negb]. eauto.
Qed.

Lemma describe_stream_refuses blobNames ex tb d :
  adapter_ok ex -> m_blobNames ex = blobNames ->
  ~ describable blobNames ex d ->
  describe_stream blobNames ex tb d = Fatal (describe_error blobNames d).
Proof.
  intros Hok Hnames Hnot. unfold describe_stream, describe_error.
  destruct (decide (datasetName d ∈ blobNames)) as [Hin |]; [| reflexivity].
  destruct (GetBlobShape_known ex (datasetName d) Hok) as [shape Hshape];
    [rewrite Hnames; exact Hin |].
  rewrite Hshape. cbn [mbind result_bind].
  destruct (datasetStorageType d) eqn:Hst.
  - exfalso. apply Hnot. split; [exact Hin | congruence].
  - rewrite bool_decide_eq_true_2 by reflexivity. cbn [andb].
    unfold reverse_shape. cbn [shape2].
    destruct (Z.eqb_spec (shape0 shape) 1) as [H1 | H1]; cbn [negb];
      [| reflexivity].
    exfalso. apply Hnot. split; [exact Hin |]. intros _.
    unfold sparse_shape_ok. rewrite Hshape. apply Z.eqb_eq. exact H1.
Qed.

Lemma describe_streams_outcome blobNames ex descriptors :
  adapter_ok ex -> m_blobNames ex = blobNames ->
  forall tb,
  (Forall (describable blobNames ex) descriptors ->
   exists tb', describe_streams blobNames ex tb descriptors = Ok tb') /\
  (forall k d,
     descriptors !! k = Some d ->
     Forall (describable blobNames ex) (take k descriptors) ->
     ~ describable blobNames ex d ->
     describe_streams blobNames ex tb descriptors
     = Fatal (describe_error blobNames d)).
Proof.
  intros Hok Hnames.
  induction descriptors as [| d rest IH]; intros tb; cbn [describe_streams].
  - split; [eauto |]. intros k d Hl. discriminate.
  - split.
    + intros Hall. apply Forall_cons in Hall as [Hd Hrest].
      destruct (describe_stream_accepts blobNames ex tb d Hok Hnames Hd)
        as [tb1 ->].
      cbn [mbind result_bind]. apply IH. exact Hrest.
    + intros [| k] d' Hl Hbefore Hnot.
      * injection Hl as ->.
        rewrite (describe_stream_refuses blobNames ex tb d' Hok Hnames Hnot).
        reflexivity.
      * cbn in Hl, Hbefore. apply Forall_cons in Hbefore as [Hd Hbefore].
        destruct (describe_stream_accepts blobNames ex tb d Hok Hnames Hd)
          as [tb1 ->].
        cbn [mbind result_bind]. apply (IH tb1) with (k := k); assumption.
Qed.

Lemma DataSource_new_parts config garbageSize garbageFlag s :
  DataSource_new config garbageSize garbageFlag = Ok s ->
  exists ex0 ld tb,
    ImageDatasetExample_new (GetBlobNames (loader config)) = Ok ex0 /\
    GetExample (loader config) ex0 = Ok (ld, m_example s) /\
    describe_streams (GetBlobNames (loader config)) (m_example s)
      (mkStreamTables [] [] 0 0) (streamDescriptors config) = Ok tb /\
    m_inputStreams s = inputStreams tb /\
    m_outputStreams s = outputStreams tb /\
    m_streamDescriptors s = streamDescriptors config /\
    m_dsLoader s = ld.
Proof.
  unfold DataSource_new. intros Hnew.
  bind_inv Hnew. bind_inv Hnew. destruct a0 as [ld ex]. bind_inv Hnew.
  injection Hnew as <-. cbn. exists a, ld, a0. auto 10.
Qed.

(** X10.  In a reader the constructor returned, the input and the output
    streams come in pairs of the same id, name and sample layout, every
    output stream is dense, and the id of a stream is its position. *)
Theorem DataSource_new_streams (config : ConfigParameters) (garbageSize : Z)
    (garbageFlag : bool) (s : DataSource) :
  DataSource_new config garbageSize garbageFlag = Ok s ->
  Forall2 output_of (m_inputStreams s) (m_outputStreams s) /\
  (forall i sd,
     m_inputStreams s !! i = Some sd ->
     StreamDescription.m_id sd = to_size_t (Z.of_nat i)) /\
  (forall i sd,
     m_outputStreams s !! i = Some sd ->
     StreamDescription.m_id sd = to_size_t (Z.of_nat i) /\
     StreamDescription.m_storageType sd = dense).
Proof.
  intros Hnew.
  destruct (DataSource_new_parts _ _ _ _ Hnew)
    as (ex0 & ld & tb & _ & _ & Hds & -> & -> & _).
  apply describe_streams_steps in Hds as (_ & Hok & _).
  destruct (Hok tables_ok_empty) as (Hpar & _ & _ & Hid).
  split; [exact Hpar | split; [exact Hid |]].
  intros i sd Hl.
  destruct (Forall2_lookup_r _ _ _ _ _ Hpar Hl) as (sd' & Hl' & Hout).
  destruct Hout as (Hid' & _ & _ & Hdense).
  rewrite Hid'. split; [apply Hid; exact Hl' | exact Hdense].
Qed.

(** X11.  In a reader the constructor returned, the input streams stand in
    the order of the stream descriptors: one stream of the name and storage
    of each descriptor, and right after the stream of a sparse descriptor
    with an ignore label its dense mask stream, of the same first two
    dimensions and one channel; a dense descriptor has one stream whether
    or not it names an ignore label. *)
Theorem DataSource_new_lockstep (config : ConfigParameters) (garbageSize : Z)
    (garbageFlag : bool) (s : DataSource) :
  DataSource_new config garbageSize garbageFlag = Ok s ->
  m_streamDescriptors s = streamDescriptors config /\
  lockstep (m_inputStreams s) (m_streamDescriptors s).
Proof.
  intros Hnew.
  destruct (DataSource_new_parts _ _ _ _ Hnew)
    as (ex0 & ld & tb & _ & _ & Hds & -> & _ & -> & _).
  apply describe_streams_steps in Hds as (_ & _ & new & Hnew' & Hlock).
  cbn in Hnew'. rewrite Hnew'. split; [reflexivity | exact Hlock].
Qed.

(** X12.  Once the adapter holds the first example, the constructor returns
    exactly when every stream descriptor names a blob of the loader and
    every sparse descriptor a blob of one channel; otherwise it fails
    fatally on the first descriptor that does not, with the error for an
    unknown blob or for the shape of sparse data. *)
Theorem DataSource_new_outcome (config : ConfigParameters) (garbageSize : Z)
    (garbageFlag : bool) (ex0 : ImageDatasetExample) (ld : IDsLoader)
    (ex : ImageDatasetExample) :
  let blobNames := GetBlobNames (loader config) in
  ImageDatasetExample_new blobNames = Ok ex0 ->
  GetExample (loader config) ex0 = Ok (ld, ex) ->
  (Forall (describable blobNames ex) (streamDescriptors config) <->
   exists s, DataSource_new config garbageSize garbageFlag = Ok s) /\
  (forall k d,
     streamDescriptors config !! k = Some d ->
     Forall (describable blobNames ex) (take k (streamDescriptors config)) ->
     ~ describable blobNames ex d ->
     DataSource_new config garbageSize garbageFlag
     = Fatal (describe_error blobNames d)).
Proof.
  intros blobNames Hex0 Hget.
  assert (Hok : adapter_ok ex /\ m_blobNames ex = blobNames).
  { unfold GetExample in Hget. bind_inv Hget. injection Hget as _ <-.
    unfold ImageDatasetExample_new in Hex0.
    destruct (decide _); [discriminate |]. injection Hex0 as <-.
    apply fill_blobs_adapter in Ha; [exact Ha |].
    unfold adapter_ok. cbn. rewrite !length_replicate. auto. }
  destruct Hok as [Hok Hnames].
  pose proof (describe_streams_outcome blobNames ex (streamDescriptors config)
                Hok Hnames (mkStreamTables [] [] 0 0)) as [Hacc Hrej].
  split; [split |].
  - intros Hall. destruct (Hacc Hall) as [tb Htb].
    unfold DataSource_new. fold blobNames. rewrite Hex0. cbn.
    rewrite Hget. cbn. rewrite Htb. cbn. eauto.
  - intros [s Hnew].
    destruct (DataSource_new_parts _ _ _ _ Hnew)
      as (ex0' & ld' & tb & Hex0' & Hget' & Hds & _).
    fold blobNames in Hex0', Hds. rewrite Hex0 in Hex0'.
    injection Hex0' as <-. rewrite Hget in Hget'. injection Hget' as _ ->.
    apply describe_streams_steps in Hds as (Hall & _). exact Hall.
  - intros k d Hl Hbefore Hnot.
    unfold DataSource_new. fold blobNames. rewrite Hex0. cbn.
    rewrite Hget. cbn. rewrite (Hrej k d Hl Hbefore Hnot). reflexivity.
Qed.

(** ** A whole epoch *)

Lemma div_between (a c q : Z) :
  0 < c -> q * c <= a < (q + 1) * c -> a / c = q.
Proof.
  intros Hc Ha. symmetry. apply (Z.div_unique a c q (a - q * c)); lia.
Qed.

Lemma slice_positive (M W : Z) :
  0 < W -> 0 < M -> M mod W = 0 -> 1 <= M / W /\ M = M / W * W.
Proof.
  intros HW HM Hdiv. pose proof (Z.div_mod M W ltac:(lia)) as Hdm.
  rewrite Hdiv in Hdm. split; [| lia].
  destruct (Z.le_gt_cases 1 (M / W)) as [| Hlt]; [assumption |].
  pose proof (Z.div_pos M W ltac:(lia) HW). nia.
Qed.

Section WholeEpoch.

Context `{ReaderLib}.

(** A call of [StartEpoch] that returned, for an epoch with a sample for
    every worker, leaves a reader in the middle of an epoch, with as many
    calls to go as the epoch takes. *)
Lemma StartEpoch_in_epoch s config s' :
  let E := globalEpochSize s config in
  let M := EpochConfiguration.m_minibatchSizeInSamples config in
  let W := m_numberOfWorkers s in
  epoch_state_ok s -> epoch_config_ok config ->
  StartEpoch s config = Ok s' ->
  W <= E -> M / W + 1 < 2 ^ 31 ->
  in_epoch s' /\ calls_left s' = calls_per_epoch E M W.
Proof.
  intros E M W Hs Hc Hok HWE Hfit.
  pose proof (StartEpoch_Ok_share _ _ _ Hs Hc Hok) as F. cbn zeta in F.
  fold E M W in F.
  destruct F as (HM & HW & Hdiv & HE & HM' & HW' & Hr' & HC' & Hsize & Happ).
  destruct (slice_positive M W HW HM Hdiv) as [Hsc HMsc].
  set (sc := M / W) in *.
  pose proof (Z.div_mod E M ltac:(lia)) as HEdm.
  pose proof (Z.mod_pos_bound E M HM) as [Hr0 Hr1].
  set (k := E / M) in *. set (r := E mod M) in *.
  assert (Hk0 : 0 <= k) by (apply Z.div_pos; destruct HE; lia).
  assert (Hfull : k * M / W = k * sc).
  { rewrite HMsc, Z.mul_assoc, Z.div_mul by lia. reflexivity. }
  pose proof (Z.div_mod r W ltac:(lia)) as Hrdm.
  pose proof (Z.mod_pos_bound r W HW) as [Hx0 Hx1].
  set (p := r / W) in *. set (x := r mod W) in *.
  assert (Hp0 : 0 <= p) by (apply Z.div_pos; lia).
  assert (Hp1 : p < sc) by (apply Z.div_lt_upper_bound; lia).
  rewrite Hfull in Hsize.
  destruct Hs as (Hrank & HWr & _).
  assert (Hrank0 : 0 <= m_workerRank s) by (destruct Hrank; assumption).
  assert (Hksc : 0 <= k * sc) by nia.
  assert (HMk : M * k = k * sc * W) by (rewrite HMsc at 1; ring).
  assert (Hwide : k * sc <= k * sc * W) by nia.
  assert (Hpw : p <= W * p) by nia.
  assert (HEbound : k * sc + p + x <= E) by lia.
  assert (HE64 : E < 2 ^ 64) by (destruct HE; assumption).
  unfold in_epoch, calls_left, calls_per_epoch, epoch_state_ok.
  rewrite HM', HW', Hr', HC', Hsize, Happ, Z.sub_0_r.
  fold sc k r p x.
  assert (Hrange :
    is_size_t (k * sc + p + (if m_workerRank s <? x then 1 else 0))).
  { unfold is_size_t. destruct (Z.ltb_spec (m_workerRank s) x); lia. }
  assert (Hzero : is_size_t 0) by (unfold is_size_t; lia).
  assert (Hstate :
    is_size_t (m_workerRank s) /\ is_size_t (m_numberOfWorkers s) /\
    is_size_t (k * sc + p + (if m_workerRank s <? x then 1 else 0)) /\
    is_size_t 0) by auto.
  destruct (Z.eqb_spec p 0) as [Hpz | Hpnz]; cbn [andb].
  - assert (Hk : 1 <= k).
    { destruct (Z.le_gt_cases 1 k); [assumption |].
      assert (k = 0) by lia. subst p. nia. }
    destruct (Z.ltb_spec (m_workerRank s) x) as [Hlt | Hge].
    + split.
      * split; [exact Hstate |].
        split; [lia | split; [lia | split; [exact Hdiv | split; [lia |]]]].
        split; [lia |]. intros _. right. exists k. lia.
      * destruct (Z.eqb_spec (k * sc + p + 1) 0); [lia |].
        replace (k * sc + p + 1 - 1) with (k * sc) by lia.
        rewrite Z.div_mul by lia. lia.
    + split.
      * split; [exact Hstate |].
        split; [lia | split; [lia | split; [exact Hdiv | split; [lia |]]]].
        split; [lia | discriminate].
      * rewrite (div_between (k * sc + p + 0 + sc - 1) sc k); lia.
  - split.
    + split; [exact Hstate |].
      split; [lia | split; [lia | split; [exact Hdiv | split; [lia |]]]].
      split; [| discriminate].
      destruct (Z.ltb_spec (m_workerRank s) x); lia.
    + rewrite (div_between _ sc (k + 1)); [reflexivity | lia |].
      destruct (Z.ltb_spec (m_workerRank s) x); lia.
Qed.

Lemma in_epoch_call_in_range s :
  in_epoch s -> call_in_range s (m_minibatchSize s).
Proof.
  unfold in_epoch, call_in_range.
  intros (Hs & HW & HM & _ & Hfit & Hrem & _).
  split; [exact Hs | split; [lia | split; [exact HW | split; [lia |]]]].
  exact Hfit.
Qed.

Lemma in_epoch_not_rejected s :
  in_epoch s -> 1 <= calls_left s ->
  ~ call_rejected s (m_minibatchSize s).
Proof.
  unfold in_epoch, calls_left, call_rejected.
  intros (Hs & HW & HM & Hdiv & Hfit & Hrem & Happ) Hleft.
  destruct (slice_positive _ _ HW HM Hdiv) as [Hsc _].
  set (sc := m_minibatchSize s / m_numberOfWorkers s) in *.
  set (rem := m_epochSize s - m_currEpochSampleCount s) in *.
  intros [Hne | [Hz | (Ha & Hle & Hne)]]; [congruence | lia |].
  rewrite Ha in Hleft.
  destruct (Happ Ha) as [Hzero | (j & Hj & Hremj)].
  - rewrite Hzero in Hleft. cbn in Hleft. lia.
  - assert (j = 1) by nia. subst j. lia.
Qed.

(** One call in the middle of an epoch: it leaves the reader in the middle
    of the epoch with one call less to go, and marks the end of the epoch
    exactly when it was the last call to go. *)
Lemma GetNextSequences_counts_down s s' sequences :
  in_epoch s -> 1 <= calls_left s ->
  GetNextSequences s (m_minibatchSize s) = Ok (s', sequences) ->
  in_epoch s' /\ calls_left s' = calls_left s - 1 /\
  (m_endOfEpoch sequences = true <-> calls_left s = 1).
Proof.
  intros Hin Hleft Hok.
  pose proof (in_epoch_call_in_range s Hin) as Hrange.
  pose proof (in_epoch_not_rejected s Hin Hleft) as Hacc.
  destruct (GetNextSequences_Ok_inv _ _ _ _ Hok) as (n & ld & ex & Hn & ->).
  rewrite (samplesForThisCall_accepted _ _ Hrange Hacc) in Hn.
  injection Hn as <- Hmark. rewrite <- Hmark.
  rewrite (counter_after _ _ Hrange Hacc).
  destruct (samples_taken_range _ _ Hrange Hacc) as (Ht & Htle & _).
  revert Ht Htle.
  unfold in_epoch, calls_left, samples_taken, marks_end, epoch_state_ok
    in *.
  cbn [after_reading m_minibatchSize m_numberOfWorkers m_epochSize
       m_currEpochSampleCount m_appendLastMinibatch m_workerRank].
  destruct Hin as ((Hr & HWs & HEs & HCs) & HW & HM & Hdiv & Hfit & Hrem
                   & Happ).
  destruct (slice_positive _ _ HW HM Hdiv) as [Hsc _].
  set (sc := m_minibatchSize s / m_numberOfWorkers s) in *.
  set (rem := m_epochSize s - m_currEpochSampleCount s) in *.
  unfold is_size_t in *.
  destruct (m_appendLastMinibatch s) eqn:Ha; cbn [andb negb orb].
  - destruct (Happ eq_refl) as [Hzero | (j & Hj & Hremj)].
    { rewrite Hzero in Hleft. cbn in Hleft. lia. }
    destruct (Z.eqb_spec rem 0) as [| Hnz]; [lia |].
    assert (Hcl : (rem - 1) / sc = j).
    { replace (rem - 1) with (j * sc) by lia. apply Z.div_mul. lia. }
    rewrite Hcl in *.
    destruct (Z.eqb_spec rem (sc + 1)) as [Hlast | Hmore].
    + intros Ht Htle. assert (j = 1) by nia. subst j.
      replace (m_epochSize s - (m_currEpochSampleCount s + rem)) with 0
        by lia.
      cbn. split; [| split; [lia | tauto]].
      split; [lia |].
      split; [lia | split; [lia | split; [exact Hdiv | split; [lia |]]]].
      split; [lia | auto].
    + intros Ht Htle. assert (2 <= j) by nia.
      replace (m_epochSize s - (m_currEpochSampleCount s + sc))
        with ((j - 1) * sc + 1) by lia.
      destruct (Z.eqb_spec ((j - 1) * sc + 1) 0) as [| _]; [nia |].
      replace ((j - 1) * sc + 1 - 1) with ((j - 1) * sc) by lia.
      rewrite Z.div_mul by lia.
      split; [| split; [lia | split; [discriminate | lia]]].
      split; [lia |].
      split; [lia | split; [lia | split; [exact Hdiv | split; [lia |]]]].
      split; [nia |]. intros _. right. exists (j - 1). lia.
  - assert (Hrem1 : 1 <= rem).
    { destruct (Z.le_gt_cases 1 rem); [assumption |].
      assert (rem = 0) by lia.
      rewrite (div_between (rem + sc - 1) sc 0) in Hleft; lia. }
    destruct (Z.leb_spec rem sc) as [Hlast | Hmore].
    + intros Ht Htle.
      replace (m_epochSize s - (m_currEpochSampleCount s + rem)) with 0
        by lia.
      rewrite (div_between (rem + sc - 1) sc 1) by lia.
      rewrite (div_between (0 + sc - 1) sc 0) by lia.
      split; [| split; [lia | tauto]].
      split; [lia |].
      split; [lia | split; [lia | split; [exact Hdiv | split; [lia |]]]].
      split; [lia | discriminate].
    + intros Ht Htle.
      replace (m_epochSize s - (m_currEpochSampleCount s + sc))
        with (rem - sc) by lia.
      pose proof (Z.div_mod (rem + sc - 1) sc ltac:(lia)) as Hdm.
      pose proof (Z.mod_pos_bound (rem + sc - 1) sc ltac:(lia)) as [Ht0 Ht1].
      set (q := (rem + sc - 1) / sc) in *.
      assert (Hq : 2 <= q) by nia.
      rewrite (div_between (rem - sc + sc - 1) sc (q - 1)) by nia.
      split; [| split; [lia | split; [discriminate | lia]]].
      split; [lia |].
      split; [lia | split; [lia | split; [exact Hdiv | split; [lia |]]]].
      split; [lia | discriminate].
Qed.

(** Calls in a row in the middle of an epoch, no more than are left. *)
Lemma Reads_counts_down s count mark s' :
  Reads s count mark s' ->
  in_epoch s -> Z.of_nat count <= calls_left s ->
  in_epoch s' /\ calls_left s' = calls_left s - Z.of_nat count /\
  (1 <= Z.of_nat count -> (mark = true <-> Z.of_nat count = calls_left s)).
Proof.
  induction 1 as [s | s count mark s1 s' sequences _ IH Hcall];
    intros Hin Hle.
  - split; [exact Hin | split; [lia | lia]].
  - destruct (IH Hin ltac:(lia)) as (Hin1 & Hleft1 & _).
    destruct (GetNextSequences_counts_down s1 s' sequences Hin1 ltac:(lia)
                Hcall) as (Hin' & Hleft' & Hmark).
    split; [exact Hin' | split; [lia |]]. intros _. rewrite Hmark. lia.
Qed.

(** X13.  After a call of [StartEpoch] that returned, for an epoch [E] with
    at least one sample for every worker: of the calls of
    [GetNextSequences] that follow and return, the one that marks the end of
    the epoch is call number [floor(E/M)], or [floor(E/M) + 1] when the rest
    [E mod M] gives every worker a sample.  The number does not depend on
    the rank, so all readers of a job reach the end of the epoch on the
    same call, and then the reader has read its whole share. *)
Theorem epoch_ends_on_same_call (s : DataSource)
    (config : EpochConfiguration.t) (s0 : DataSource) (count : nat)
    (mark : bool) (s' : DataSource) :
  let E := globalEpochSize s config in
  let M := EpochConfiguration.m_minibatchSizeInSamples config in
  let W := m_numberOfWorkers s in
  epoch_state_ok s -> epoch_config_ok config ->
  W <= E -> M / W + 1 < 2 ^ 31 ->
  StartEpoch s config = Ok s0 ->
  Reads s0 count mark s' ->
  1 <= Z.of_nat count <= calls_per_epoch E M W ->
  (mark = true <-> Z.of_nat count = calls_per_epoch E M W) /\
  m_currEpochSampleCount s' <= m_epochSize s' /\
  (mark = true -> m_currEpochSampleCount s' = m_epochSize s').
Proof.
  intros E M W Hs Hc HWE Hfit Hstart Hreads Hcount.
  destruct (StartEpoch_in_epoch s config s0 Hs Hc Hstart HWE Hfit)
    as [Hin Hleft].
  fold E M W in Hleft.
  destruct (Reads_counts_down _ _ _ _ Hreads Hin ltac:(lia))
    as (Hin' & Hleft' & Hmark).
  rewrite Hleft in Hmark, Hleft'.
  split; [apply Hmark; lia |].
  pose proof Hin' as (_ & HW' & HM' & Hdiv' & _ & Hrem' & Happ').
  split; [lia |].
  intros Htrue. apply Hmark in Htrue; [| lia].
  assert (Hzero : calls_left s' = 0) by lia.
  unfold calls_left in Hzero.
  destruct (slice_positive _ _ HW' HM' Hdiv') as [Hsc _].
  set (sc := m_minibatchSize s' / m_numberOfWorkers s') in *.
  set (rem := m_epochSize s' - m_currEpochSampleCount s') in *.
  destruct (m_appendLastMinibatch s').
  - destruct (Happ' eq_refl) as [Hz | (j & Hj & Hremj)]; [lia |].
    destruct (Z.eqb_spec rem 0); [lia |].
    replace (rem - 1) with (j * sc) in Hzero by lia.
    rewrite Z.div_mul in Hzero by lia. lia.
  - destruct (Z.le_gt_cases rem 0); [lia |].
    pose proof (Z.div_mod (rem + sc - 1) sc ltac:(lia)) as Hdm.
    pose proof (Z.mod_pos_bound (rem + sc - 1) sc ltac:(lia)).
    rewrite Hzero in Hdm. lia.
Qed.

(** X14.  In such an epoch the checks of [GetNextSequences] on the epoch
    state never fail before the end of the epoch: after fewer calls than the
    epoch takes, the next call for the minibatch size is not rejected, so
    it returns unless filling in a sample fails. *)
Theorem epoch_calls_not_rejected (s : DataSource)
    (config : EpochConfiguration.t) (s0 : DataSource) (count : nat)
    (mark : bool) (s' : DataSource) :
  let E := globalEpochSize s config in
  let M := EpochConfiguration.m_minibatchSizeInSamples config in
  let W := m_numberOfWorkers s in
  epoch_state_ok s -> epoch_config_ok config ->
  W <= E -> M / W + 1 < 2 ^ 31 ->
  StartEpoch s config = Ok s0 ->
  Reads s0 count mark s' ->
  Z.of_nat count < calls_per_epoch E M W ->
  m_minibatchSize s' = M /\
  exists taken endOfEpoch,
    samplesForThisCall s' M = Ok (taken, endOfEpoch) /\
    1 <= taken <= m_epochSize s' - m_currEpochSampleCount s'.
Proof.
  intros E M W Hs Hc HWE Hfit Hstart Hreads Hcount.
  destruct (StartEpoch_in_epoch s config s0 Hs Hc Hstart HWE Hfit)
    as [Hin Hleft].
  fold E M W in Hleft.
  destruct (Reads_counts_down _ _ _ _ Hreads Hin ltac:(lia))
    as (Hin' & Hleft' & _).
  assert (HM' : m_minibatchSize s' = M).
  { pose proof (StartEpoch_Ok_share _ _ _ Hs Hc Hstart) as F.
    cbn zeta in F. destruct F as (_ & _ & _ & _ & HM0 & _).
    fold M in HM0. rewrite <- HM0. clear - Hreads.
    induction Hreads as [| s count mark s1 s' sequences _ IH Hcall];
      [reflexivity |].
    destruct (GetNextSequences_Ok_inv _ _ _ _ Hcall) as (n & ld & ex & _ & ->).
    cbn. exact IH. }
  split; [exact HM' |].
  pose proof (in_epoch_call_in_range s' Hin') as Hrange.
  pose proof (in_epoch_not_rejected s' Hin' ltac:(lia)) as Hacc.
  rewrite HM' in Hrange, Hacc.
  exists (samples_taken s' M), (marks_end s' M).
  split; [apply samplesForThisCall_accepted; assumption |].
  destruct (samples_taken_range _ _ Hrange Hacc) as (Ht & Htle & _).
  split; [| exact Htle].
  unfold samples_taken. rewrite <- HM'.
  pose proof Hin' as (_ & HW' & HMp & Hdiv' & _ & Hrem' & Happ').
  destruct (slice_positive _ _ HW' HMp Hdiv') as [Hsc _].
  assert (Hleft1 : 1 <= calls_left s') by lia.
  unfold calls_left in Hleft1.
  set (sc := m_minibatchSize s' / m_numberOfWorkers s') in *.
  set (rem := m_epochSize s' - m_currEpochSampleCount s') in *.
  destruct (m_appendLastMinibatch s'); cbn [andb negb].
  - destruct (Z.eqb_spec rem 0) as [| Hnz]; [lia |].
    destruct (Z.eqb_spec rem (sc + 1)); lia.
  - assert (1 <= rem).
    { destruct (Z.le_gt_cases 1 rem); [assumption |].
      assert (rem = 0) by lia.
      rewrite (div_between (rem + sc - 1) sc 0) in Hleft1; lia. }
    destruct (Z.leb_spec rem sc); lia.
Qed.

(** X15.  A call of [GetNextSequences] for the minibatch size, made when
    the reader has read its whole epoch: a reader that does not append its
    last minibatch returns no sample for any stream, marks the end of the
    epoch again and stays as it is; a reader that appends fails fatally. *)
Theorem GetNextSequences_after_end (s : DataSource) :
  let M := m_minibatchSize s in
  let W := m_numberOfWorkers s in
  is_size_t (m_currEpochSampleCount s) ->
  0 < W -> 1 <= M / W -> M / W + 1 < 2 ^ 64 ->
  m_epochSize s = m_currEpochSampleCount s ->
  GetNextSequences s M =
    if m_appendLastMinibatch s then Fatal AppendingMoreThanOne
    else Ok (s, mkSequences (replicate (length (m_inputStreams s)) []) true).
Proof.
  intros M W HC HW Hsc Hfit Hend.
  assert (Hsamples :
    samplesForThisCall s M =
      if m_appendLastMinibatch s then Fatal AppendingMoreThanOne
      else Ok (0, true)).
  { unfold samplesForThisCall. fold M W.
    rewrite Z.eqb_refl. cbn [negb].
    destruct (Z.eqb_spec W 0); [lia |].
    destruct (Z.eqb_spec (M / W) 0); [lia |].
    rewrite Hend, Z.sub_diag.
    replace (to_size_t 0) with 0 by reflexivity.
    pose proof (to_size_t_range (2 * (M / W))) as H2.
    unfold is_size_t in H2.
    rewrite (to_size_t_small (M / W + 1)) by (unfold is_size_t; lia).
    destruct (m_appendLastMinibatch s); cbn [andb negb].
    - destruct (Z.leb_spec 0 (to_size_t (2 * (M / W)))); [| lia].
      destruct (Z.eqb_spec 0 (M / W + 1)); [lia | reflexivity].
    - destruct (Z.leb_spec 0 (M / W)); [reflexivity | lia]. }
  unfold GetNextSequences. fold M. rewrite Hsamples.
  destruct (m_appendLastMinibatch s) eqn:Ha; [reflexivity |].
  cbn. replace (to_int 0) with 0 by reflexivity.
  rewrite Z.add_0_r, to_size_t_small by exact HC.
  destruct s; cbn in *. subst. reflexivity.
Qed.

(** X16.  An epoch with fewer samples than workers: [StartEpoch] leaves one
    sample to the readers of a rank below the epoch size, set to append
    it, and none to the others.  A reader with the one sample can never
    read it: every call of [GetNextSequences] fails fatally, and so does
    every later call of [StartEpoch], since the epoch is never read to its
    end. *)
Theorem StartEpoch_fewer_samples_than_workers (s : DataSource)
    (config : EpochConfiguration.t) (s' : DataSource) :
  let E := globalEpochSize s config in
  let M := EpochConfiguration.m_minibatchSizeInSamples config in
  let W := m_numberOfWorkers s in
  epoch_state_ok s -> epoch_config_ok config ->
  StartEpoch s config = Ok s' ->
  0 < E < W -> 2 * (M / W) < 2 ^ 64 ->
  (E <= m_workerRank s ->
   m_epochSize s' = 0 /\ m_appendLastMinibatch s' = false) /\
  (m_workerRank s < E ->
   m_epochSize s' = 1 /\ m_appendLastMinibatch s' = true /\
   (forall total,
      GetNextSequences s' total =
        Fatal (if total =? M then AppendingMoreThanOne
               else SampleCountMismatch)) /\
   (forall config', StartEpoch s' config' = Fatal EpochNotFinished)).
Proof.
  intros E M W Hs Hc Hok HEW Hfit.
  pose proof (StartEpoch_Ok_share _ _ _ Hs Hc Hok) as F. cbn zeta in F.
  fold E M W in F.
  destruct F as (HM & HW & Hdiv & HE & HM' & HW' & Hr' & HC' & Hsize & Happ).
  destruct (slice_positive M W HW HM Hdiv) as [Hsc HMsc].
  assert (HWM : W <= M) by nia.
  rewrite (Z.div_small E M), (Z.mod_small E M), (Z.div_small E W),
    (Z.mod_small E W) in Hsize by lia.
  rewrite (Z.mod_small E M), (Z.div_small E W), (Z.mod_small E W) in Happ
    by lia.
  cbn [Z.mul Z.add Z.eqb andb] in Hsize, Happ.
  rewrite Z.div_0_l in Hsize by lia. cbn [Z.add] in Hsize.
  split.
  - intros Hrank. destruct (Z.ltb_spec (m_workerRank s) E); [lia |].
    auto.
  - intros Hrank. destruct (Z.ltb_spec (m_workerRank s) E); [| lia].
    change (m_epochSize s' = 1) in Hsize.
    split; [exact Hsize | split; [exact Happ | split]].
    + intros total.
      assert (Hsamples :
        samplesForThisCall s' total =
          Fatal (if total =? M then AppendingMoreThanOne
                 else SampleCountMismatch)).
      { unfold samplesForThisCall. rewrite HM', HW', HC', Hsize, Happ.
        destruct (Z.eqb_spec total M) as [-> |]; cbn [negb]; [| reflexivity].
        fold M W.
        destruct (Z.eqb_spec W 0); [lia |].
        destruct (Z.eqb_spec (M / W) 0); [lia |].
        replace (to_size_t (1 - 0)) with 1 by reflexivity.
        rewrite (to_size_t_small (2 * (M / W))) by (unfold is_size_t; lia).
        rewrite (to_size_t_small (M / W + 1)) by (unfold is_size_t; lia).
        cbn [andb].
        destruct (Z.leb_spec 1 (2 * (M / W))); [| lia].
        destruct (Z.eqb_spec 1 (M / W + 1)); [lia | reflexivity]. }
      unfold GetNextSequences. rewrite Hsamples. reflexivity.
    + intros config'. unfold StartEpoch. rewrite Hsize, HC'. reflexivity.
Qed.

(** X17.  With the epoch override, when the epoch is to take all examples
    of the dataset, [StartEpoch] gives every reader the whole dataset: the
    epoch size of the reader is the example count of the loader, whatever
    its rank, the number of workers and the minibatch size, and no reader
    appends its last minibatch. *)
Theorem StartEpoch_override_whole_dataset (s : DataSource)
    (config : EpochConfiguration.t) (s' : DataSource) :
  let N := GetExamplesCount (m_dsLoader s) in
  let W := m_numberOfWorkers s in
  epoch_state_ok s -> epoch_config_ok config ->
  StartEpoch s config = Ok s' ->
  m_epochOverride s = true ->
  EpochConfiguration.m_totalEpochSizeInSamples config = requestDataSize ->
  0 <= N -> W * N < 2 ^ 64 ->
  m_epochSize s' = N /\ m_appendLastMinibatch s' = false.
Proof.
  intros N W Hs Hc Hok Hover Htotal HN Hfit.
  pose proof (StartEpoch_Ok_share _ _ _ Hs Hc Hok) as F. cbn zeta in F.
  fold W in F.
  destruct F as (HM & HW & Hdiv & _ & _ & _ & _ & _ & Hsize & Happ).
  set (M := EpochConfiguration.m_minibatchSizeInSamples config) in *.
  destruct (slice_positive M W HW HM Hdiv) as [Hsc HMsc].
  assert (HE : globalEpochSize s config = N * W).
  { unfold globalEpochSize, UseAllExamplesFromDatasetForEpoch.
    rewrite Htotal, Z.eqb_refl, Hover. fold W N.
    assert (HNW : N <= W * N) by nia.
    rewrite (to_size_t_small N) by (unfold is_size_t; lia).
    rewrite to_size_t_small by (unfold is_size_t; nia). ring. }
  destruct Hs as (Hrank & _).
  rewrite HE in Hsize, Happ. clear HE.
  set (sc := M / W) in *.
  assert (Hquot : N * W / M = N / sc)
    by (rewrite HMsc; apply Z.div_mul_cancel_r; lia).
  assert (Hrest : (N * W) mod M = N mod sc * W)
    by (rewrite HMsc; apply Z.mul_mod_distr_r; lia).
  rewrite Hquot, Hrest in Hsize. rewrite Hrest in Happ.
  rewrite Z.mod_mul in Hsize, Happ by lia.
  rewrite Z.div_mul in Hsize by lia.
  replace (N / sc * M / W) with (N / sc * sc) in Hsize
    by (rewrite HMsc at 1; rewrite Z.mul_assoc, Z.div_mul by lia;
        reflexivity).
  destruct (Z.ltb_spec (m_workerRank s) 0) as [Hneg |];
    [unfold is_size_t in Hrank; lia |].
  rewrite andb_false_r in Happ.
  split; [| exact Happ].
  pose proof (Z.div_mod N sc ltac:(lia)). lia.
Qed.

End WholeEpoch.

(** ** The sequences of a minibatch *)

Lemma slot_at_insert data istr ismpl row cell :
  data !! istr = Some row -> (ismpl < length row)%nat ->
  slot_at (<[istr := <[ismpl := cell]> row]> data) istr ismpl = Some cell /\
  forall j i, j <> istr \/ i <> ismpl ->
    slot_at (<[istr := <[ismpl := cell]> row]> data) j i = slot_at data j i.
Proof.
  intros Hrow Hlt. pose proof (lookup_lt_Some _ _ _ Hrow) as Hlen.
  unfold slot_at. split.
  - rewrite list_lookup_insert, decide_True by auto.
    rewrite list_lookup_insert, decide_True by auto. reflexivity.
  - intros j i Hne. destruct (decide (j = istr)) as [-> | Hj].
    + rewrite list_lookup_insert, decide_True by auto. rewrite Hrow.
      apply list_lookup_insert_ne. destruct Hne; congruence.
    + rewrite list_lookup_insert_ne by congruence. reflexivity.
Qed.

Lemma store_sequence_filled data istr ismpl q data' :
  store_sequence data istr ismpl q = Ok data' ->
  m_id q = Z.of_nat ismpl -> m_numberOfSamples q = 1 ->
  filled data' istr ismpl /\
  forall j i, filled data j i -> filled data' j i.
Proof.
  unfold store_sequence. intros Hst Hid Hn. bind_inv Hst.
  apply defined_Ok in Ha. destruct (decide _) as [Hlt |]; [| discriminate].
  injection Hst as <-.
  destruct (slot_at_insert data istr ismpl a (Some q) Ha Hlt) as [Hnew Hold].
  assert (Hfilled : filled (<[istr := <[ismpl := Some q]> a]> data) istr ismpl)
    by (exists q; auto).
  split; [exact Hfilled |].
  intros j i Hji.
  destruct (decide (j = istr)) as [-> | Hj];
    [destruct (decide (i = ismpl)) as [-> | Hi] |].
  - exact Hfilled.
  - unfold filled. rewrite Hold by auto. exact Hji.
  - unfold filled. rewrite Hold by auto. exact Hji.
Qed.

Lemma clear_ignore_entry_filled data istr ismpl inz data' :
  clear_ignore_entry data istr ismpl inz = Ok data' ->
  forall j i, filled data j i -> filled data' j i.
Proof.
  unfold clear_ignore_entry. intros Hcl. bind_inv Hcl. bind_inv Hcl.
  apply defined_Ok in Ha, Ha0.
  destruct a0 as [[id n layout owned | ] |]; try discriminate.
  destruct (decide _); [| discriminate]. injection Hcl as <-.
  pose proof (lookup_lt_Some _ _ _ Ha0) as Hlt.
  destruct (slot_at_insert data istr ismpl a
              (Some (DenseSequenceDataIds id n layout
                       (<[inz := float_zero]> owned))) Ha Hlt)
    as [Hnew Hold].
  intros j i (q & Hq & Hid & Hn).
  destruct (decide (j = istr /\ i = ismpl)) as [[-> ->] | Hne].
  - unfold slot_at in Hq. rewrite Ha, Ha0 in Hq. injection Hq as <-.
    eexists. split; [exact Hnew | auto].
  - exists q. rewrite Hold by (destruct (decide (j = istr)); tauto). auto.
Qed.

Lemma SwapBlobData_adapter ex blobName outer ex' buffer :
  SwapBlobData ex blobName outer = Ok (ex', buffer) ->
  (adapter_ok ex -> adapter_ok ex') /\ m_blobNames ex' = m_blobNames ex.
Proof.
  unfold SwapBlobData. intros Hw. bind_inv Hw. bind_inv Hw.
  injection Hw as <- _. split; [| reflexivity].
  intros [Hb Hs]. unfold adapter_ok. cbn. rewrite !length_insert. auto.
Qed.

Lemma SwapBlobData_known ex blobName outer :
  adapter_ok ex -> blobName ∈ m_blobNames ex ->
  exists r, SwapBlobData ex blobName outer = Ok r.
Proof.
  intros [Hb _] Hin. destruct (find_blob_elem_of _ _ Hin) as [index Hf].
  pose proof (find_blob_bound _ _ _ Hf) as Hlt.
  destruct (lookup_lt_is_Some_2 (m_blobs ex) index ltac:(lia))
    as [buffer Hbuf].
  unfold SwapBlobData, BlobIndexFromName. rewrite Hf. cbn.
  rewrite Hbuf. cbn. eauto.
Qed.

Lemma raises_only_Ok {A : Type} (a : A) : raises_only (Ok a).
Proof. intros e. discriminate. Qed.

Lemma raises_only_Undefined {A : Type} : raises_only (@Undefined A).
Proof. intros e. discriminate. Qed.

Lemma raises_only_defined {A : Type} (o : option A) : raises_only (defined o).
Proof. destruct o; intros e; discriminate. Qed.

Lemma raises_only_Fatal {A : Type} (e : RuntimeError) :
  call_error e = true -> raises_only (@Fatal A e).
Proof. intros He e' [= <-]. exact He. Qed.

Lemma raises_only_bind {A B : Type} (r : result A) (k : A -> result B) :
  raises_only r -> (forall a, r = Ok a -> raises_only (k a)) ->
  raises_only (r ≫= k).
Proof.
  intros Hr Hk. destruct r as [a | e |]; cbn.
  - apply Hk. reflexivity.
  - intros e' [= <-]. apply Hr. reflexivity.
  - apply raises_only_Undefined.
Qed.

Ltac bind_inv_as Hb a Ha := apply bind_Ok in Hb as (a & Ha & Hb).

Create HintDb raises.

#[local] Hint Resolve raises_only_Ok raises_only_Undefined
  raises_only_defined : raises.

Lemma store_sequence_raises data istr ismpl q :
  raises_only (store_sequence data istr ismpl q).
Proof.
  unfold store_sequence. apply raises_only_bind; [auto with raises |].
  intros row _. destruct (decide _); auto with raises.
Qed.

Lemma clear_ignore_entry_raises data istr ismpl inz :
  raises_only (clear_ignore_entry data istr ismpl inz).
Proof.
  unfold clear_ignore_entry. apply raises_only_bind; [auto with raises |].
  intros row _. apply raises_only_bind; [auto with raises |].
  intros [[id n layout owned |] |] _; auto with raises.
  destruct (decide _); auto with raises.
Qed.

Lemma fill_blobs_raises blobs :
  forall ex ib, raises_only (fill_blobs ex ib blobs).
Proof.
  induction blobs as [| [shape values] rest IH]; intros ex ib;
    cbn [fill_blobs]; [auto with raises |].
  apply raises_only_bind.
  - unfold ReshapeBlob. repeat (destruct (decide _); auto with raises).
    apply raises_only_bind; auto with raises.
  - intros ex1 _. apply raises_only_bind; [| intros; apply IH].
    unfold WriteBlobMemory. apply raises_only_bind; [auto with raises |].
    intros buf _. destruct (decide _); auto with raises.
Qed.

Lemma GetExample_raises ld ex : raises_only (GetExample ld ex).
Proof.
  unfold GetExample. apply raises_only_bind; [apply fill_blobs_raises |].
  auto with raises.
Qed.

Lemma GetExample_adapter ld ex ld' ex' :
  adapter_ok ex -> GetExample ld ex = Ok (ld', ex') ->
  adapter_ok ex' /\ m_blobNames ex' = m_blobNames ex.
Proof.
  intros Hok Hget. unfold GetExample in Hget. bind_inv Hget.
  injection Hget as _ <-. eapply fill_blobs_adapter; eassumption.
Qed.

Section Minibatch.

Context `{ReaderLib}.

Lemma convert_labels_filled ignore ignoreBuffer ismpl spatialSize outChannels
    labels :
  forall inz data indicesMemory data' indicesMemory',
  convert_labels ignore ignoreBuffer ismpl spatialSize outChannels labels inz
    data indicesMemory = Ok (data', indicesMemory') ->
  forall j i, filled data j i -> filled data' j i.
Proof.
  induction labels as [| x rest IH]; intros inz data ind data' ind' Hc;
    cbn [convert_labels] in Hc.
  - injection Hc as <- _. auto.
  - bind_inv Hc.
    destruct ignoreBuffer as [istrIgnore |]; [destruct ignore as [ig |] |].
    + destruct (a =? ignoreLabel ig).
      * bind_inv Hc. intros j i Hji. eapply IH; [exact Hc |].
        eapply clear_ignore_entry_filled; eassumption.
      * destruct (_ || _); [discriminate |]. eapply IH. exact Hc.
    + discriminate.
    + destruct (_ || _); [discriminate |]. eapply IH. exact Hc.
Qed.

Lemma convert_labels_raises ignore ignoreBuffer ismpl spatialSize outChannels
    labels :
  forall inz data indicesMemory,
  raises_only
    (convert_labels ignore ignoreBuffer ismpl spatialSize outChannels labels
       inz data indicesMemory).
Proof.
  induction labels as [| x rest IH]; intros inz data ind;
    cbn [convert_labels]; [auto with raises |].
  apply raises_only_bind; [auto with raises |]. intros c _.
  destruct ignoreBuffer as [istrIgnore |]; [destruct ignore as [ig |] |].
  - destruct (c =? ignoreLabel ig).
    + apply raises_only_bind; [apply clear_ignore_entry_raises |].
      intros; apply IH.
    + destruct (_ || _); [apply raises_only_Fatal; reflexivity | apply IH].
  - auto with raises.
  - destruct (_ || _); [apply raises_only_Fatal; reflexivity | apply IH].
Qed.

(** One turn of the stream loop that returned: it went on by one stream, or
    by two for a sparse stream with its mask stream, and filled the slots of
    the sample in the streams it went over; the stream was not a dense one
    with an ignore label. *)
Lemma stream_step_Ok inputs ex data d istr ismpl istr' ex' data' :
  stream_step inputs ex data d istr ismpl = Ok (istr', ex', data') ->
  exists sd,
    inputs !! istr = Some sd /\
    (StreamDescription.m_storageType sd = dense -> ignoreStream d = None) /\
    istr' =
      match StreamDescription.m_storageType sd, ignoreStream d with
      | sparse_csc, Some _ => S (S istr)
      | _, _ => S istr
      end /\
    (adapter_ok ex -> adapter_ok ex') /\
    m_blobNames ex' = m_blobNames ex /\
    (forall j i, filled data j i -> filled data' j i) /\
    (forall j, (istr <= j < istr')%nat -> filled data' j ismpl).
Proof.
  unfold stream_step. intros Hst. bind_inv_as Hst sd Hsd.
  apply defined_Ok in Hsd.
  exists sd. split; [exact Hsd |].
  destruct (decide (StreamDescription.m_storageType sd = dense)) as [Hd | Hs].
  - rewrite Hd. unfold dense_stream in Hst.
    destruct (ignoreStream d); [discriminate |].
    bind_inv_as Hst shape Hshape. bind_inv_as Hst swapped Hswap.
    destruct swapped as [ex1 owned].
    bind_inv_as Hst data1 Hstore. injection Hst as <- <- <-.
    apply SwapBlobData_adapter in Hswap as [Hok Hnames].
    apply store_sequence_filled in Hstore as [Hnew Hmono];
      [| reflexivity ..].
    split; [reflexivity |]. split; [reflexivity |].
    split; [exact Hok | split; [exact Hnames | split; [exact Hmono |]]].
    intros j Hj. replace j with istr by lia. exact Hnew.
  - destruct (StreamDescription.m_storageType sd); [congruence |].
    split; [discriminate |].
    unfold sparse_stream in Hst. bind_inv_as Hst masked Hmasked.
    destruct masked as [buffer data1].
    bind_inv_as Hst input Hinput. bind_inv_as Hst swapped Hswap.
    destruct swapped as [ex1 labels].
    destruct (negb _); [discriminate |].
    bind_inv_as Hst converted Hconvert. destruct converted as [data2 indices].
    bind_inv_as Hst data3 Hstore.
    injection Hst as <- <- <-.
    apply SwapBlobData_adapter in Hswap as [Hok Hnames].
    pose proof (fun j i =>
      convert_labels_filled _ _ _ _ _ _ _ _ _ _ _ Hconvert j i) as Hconv.
    apply store_sequence_filled in Hstore as [Hnew Hmono];
      [| reflexivity ..].
    destruct (ignoreStream d) as [ig |].
    + destruct (decide _); [discriminate |].
      bind_inv_as Hmasked ignoreInput HignoreInput. bind_inv_as Hmasked data0 Hstore0.
      injection Hmasked as _ <-.
      apply store_sequence_filled in Hstore0 as [Hfilled Hmono1];
        [| reflexivity ..].
      split; [reflexivity |].
      split; [exact Hok | split; [exact Hnames | split; [auto |]]].
      intros j Hj. destruct (decide (j = istr)) as [-> | Hne];
        [exact Hnew |].
      replace j with (istr + 1)%nat by lia. auto.
    + injection Hmasked as _ <-.
      split; [reflexivity |].
      split; [exact Hok | split; [exact Hnames | split; [auto |]]].
      intros j Hj. replace j with istr by lia. exact Hnew.
Qed.

(** The errors of one turn in a stream that has its mask stream where the
    descriptor names an ignore label, for a blob the adapter has. *)
Lemma stream_step_raises inputs ex data d istr ismpl :
  adapter_ok ex -> datasetName d ∈ m_blobNames ex ->
  (ignoreStream d <> None ->
   forall sd, inputs !! istr = Some sd ->
   StreamDescription.m_storageType sd = sparse_csc ->
   (S istr < length inputs)%nat) ->
  raises_only (stream_step inputs ex data d istr ismpl).
Proof.
  intros Hok Hin Hmask. unfold stream_step.
  apply raises_only_bind; [auto with raises |]. intros sd Hsd.
  apply defined_Ok in Hsd.
  destruct (SwapBlobData_known ex (datasetName d) [] Hok Hin) as [[ex1 buf] Hsw].
  destruct (decide _) as [Hd | Hs].
  - unfold dense_stream.
    destruct (ignoreStream d); [apply raises_only_Fatal; reflexivity |].
    destruct (GetBlobShape_known ex (datasetName d) Hok Hin) as [shape ->].
    cbn [mbind result_bind]. rewrite Hsw. cbn [mbind result_bind].
    apply raises_only_bind; [apply store_sequence_raises |].
    auto with raises.
  - unfold sparse_stream. apply raises_only_bind.
    + destruct (ignoreStream d) as [ig |]; [| auto with raises].
      destruct (decide _) as [Hshort |].
      * exfalso. specialize (Hmask ltac:(discriminate) sd Hsd).
        destruct (StreamDescription.m_storageType sd); [congruence |].
        specialize (Hmask eq_refl). lia.
      * apply raises_only_bind; [auto with raises |]. intros mask _.
        apply raises_only_bind; [apply store_sequence_raises |].
        auto with raises.
    + intros [buffer data1] _.
      apply raises_only_bind; [auto with raises |]. intros input _.
      rewrite Hsw. cbn [mbind result_bind].
      destruct (negb _); [apply raises_only_Fatal; reflexivity |].
      apply raises_only_bind; [apply convert_labels_raises |].
      intros [data2 indices] _.
      apply raises_only_bind; [apply store_sequence_raises |].
      auto with raises.
Qed.

Lemma fill_streams_Ok inputs descriptors ismpl :
  forall istr ex data ex' data',
  fill_streams inputs descriptors istr ismpl ex data = Ok (ex', data') ->
  (adapter_ok ex -> adapter_ok ex') /\
  m_blobNames ex' = m_blobNames ex /\
  (forall j i, filled data j i -> filled data' j i) /\
  ((forall j, (j < istr)%nat -> filled data j ismpl) ->
   forall j, (j < length inputs)%nat -> filled data' j ismpl).
Proof.
  induction descriptors as [| d rest IH]; intros istr ex data ex' data' Hf;
    cbn [fill_streams] in Hf;
    destruct (decide (istr < length inputs)%nat) as [Hlt | Hge];
    try discriminate.
  - injection Hf as <- <-.
    split; [auto | split; [reflexivity | split; [auto |]]].
    intros Hall j Hj. apply Hall. lia.
  - bind_inv Hf. destruct a as [[istr1 ex1] data1].
    apply stream_step_Ok in Ha
      as (sd & _ & _ & Histr & Hok & Hnames & Hmono & Hnew).
    apply IH in Hf as (Hok' & Hnames' & Hmono' & Hall').
    split; [auto | split; [congruence | split; [auto |]]].
    intros Hall. apply Hall'. intros j Hj.
    destruct (decide (j < istr)%nat); [auto |].
    apply Hnew. lia.
  - injection Hf as <- <-.
    split; [auto | split; [reflexivity | split; [auto |]]].
    intros Hall j Hj. apply Hall. lia.
Qed.

(** The stream loop over input streams that stand in the order of the
    descriptors: it never fails for a missing mask stream or an unknown
    blob, and it returns only when no descriptor is a dense one with an
    ignore label. *)
Lemma fill_streams_lockstep inputs descriptors ismpl :
  forall istr ex data,
  lockstep (drop istr inputs) descriptors ->
  adapter_ok ex ->
  Forall (fun d => datasetName d ∈ m_blobNames ex) descriptors ->
  raises_only (fill_streams inputs descriptors istr ismpl ex data) /\
  (forall r,
     fill_streams inputs descriptors istr ismpl ex data = Ok r ->
     Forall (fun d => ~ dense_with_ignore d) descriptors).
Proof.
  induction descriptors as [| d rest IH]; intros istr ex data Hlock Hok Hall;
    cbn [fill_streams].
  - destruct (decide _) as [Hlt |].
    + destruct (drop istr inputs) eqn:Hdrop; [| discriminate Hlock].
      apply (f_equal length) in Hdrop. rewrite length_drop in Hdrop.
      cbn in Hdrop. lia.
    + split; [auto with raises | constructor].
  - apply Forall_cons in Hall as [Hd Hrest].
    destruct (inputs !! istr) as [sd |] eqn:Hsd.
    2:{ apply lookup_ge_None in Hsd. rewrite drop_ge in Hlock by exact Hsd.
        contradiction. }
    pose proof (lookup_lt_Some _ _ _ Hsd) as Hlt.
    rewrite decide_True by exact Hlt.
    rewrite (drop_S _ _ _ Hsd) in Hlock. cbn [lockstep] in Hlock.
    destruct Hlock as (_ & Hstorage & Hlock).
    assert (Hstep : raises_only (stream_step inputs ex data d istr ismpl)).
    { apply stream_step_raises; [exact Hok | exact Hd |].
      intros Hig sd' Hsd' Hsparse. rewrite Hsd in Hsd'. injection Hsd' as <-.
      rewrite Hstorage in Hsparse. rewrite Hsparse in Hlock.
      destruct Hlock as [_ Hlock].
      destruct (ignoreStream d); [| congruence].
      destruct (drop (S istr) inputs) eqn:Hdrop; [contradiction |].
      apply (f_equal length) in Hdrop. rewrite length_drop in Hdrop.
      cbn in Hdrop. lia. }
    assert (Hnext : forall istr1 ex1 data1,
      stream_step inputs ex data d istr ismpl = Ok (istr1, ex1, data1) ->
      ~ dense_with_ignore d /\ adapter_ok ex1 /\
      m_blobNames ex1 = m_blobNames ex /\
      lockstep (drop istr1 inputs) rest).
    { intros istr1 ex1 data1 Hs1.
      apply stream_step_Ok in Hs1
        as (sd' & Hsd' & Hdense & -> & Hok1 & Hnames1 & _).
      rewrite Hsd in Hsd'. injection Hsd' as <-.
      split; [| split; [auto | split; [exact Hnames1 |]]].
      - intros [Hdd Hig]. apply Hig, Hdense. congruence.
      - rewrite Hstorage. destruct (datasetStorageType d); [exact Hlock |].
        destruct Hlock as [_ Hlock].
        destruct (ignoreStream d); [| exact Hlock].
        destruct (drop (S istr) inputs) as [| mask more] eqn:Hdrop;
          [contradiction |].
        destruct Hlock as (_ & _ & _ & Hlock).
        assert (Hmask : inputs !! S istr = Some mask).
        { rewrite <- (Nat.add_0_r (S istr)), <- lookup_drop, Hdrop.
          reflexivity. }
        rewrite (drop_S _ _ _ Hmask) in Hdrop. injection Hdrop as <-.
        exact Hlock. }
    split.
    + apply raises_only_bind; [exact Hstep |].
      intros [[istr1 ex1] data1] Hs1.
      destruct (Hnext _ _ _ Hs1) as (_ & Hok1 & Hnames1 & Hlock1).
      apply IH; [exact Hlock1 | exact Hok1 |].
      rewrite Hnames1. exact Hrest.
    + intros r Hr. bind_inv Hr. destruct a as [[istr1 ex1] data1].
      destruct (Hnext _ _ _ Ha) as (Hnot & Hok1 & Hnames1 & Hlock1).
      constructor; [exact Hnot |].
      eapply (IH istr1 ex1 data1); [exact Hlock1 | exact Hok1 | | exact Hr].
      rewrite Hnames1. exact Hrest.
Qed.

Lemma fill_samples_filled inputs descriptors count :
  forall ismpl ld ex data ld' ex' data',
  fill_samples inputs descriptors count ismpl ld ex data
    = Ok (ld', ex', data') ->
  (forall j i, filled data j i -> filled data' j i) /\
  (forall j i, (j < length inputs)%nat ->
     (ismpl <= i < ismpl + count)%nat -> filled data' j i).
Proof.
  induction count as [| count IH]; intros ismpl ld ex data ld' ex' data' Hf;
    cbn [fill_samples] in Hf.
  - injection Hf as _ _ <-. split; [auto |]. intros j i _ Hi. lia.
  - bind_inv Hf. destruct a as [ex1 data1]. bind_inv Hf.
    destruct a as [ld1 ex2].
    apply fill_streams_Ok in Ha as (_ & _ & Hmono & Hall).
    apply IH in Hf as (Hmono' & Hall').
    split; [auto |]. intros j i Hj Hi.
    destruct (decide (i = ismpl)) as [-> | Hne].
    + apply Hmono', Hall; [| exact Hj]. intros j' Hj'. lia.
    + apply Hall'; [exact Hj | lia].
Qed.

Lemma fill_samples_lockstep inputs descriptors count :
  forall ismpl ld ex data,
  lockstep inputs descriptors ->
  adapter_ok ex ->
  Forall (fun d => datasetName d ∈ m_blobNames ex) descriptors ->
  raises_only (fill_samples inputs descriptors count ismpl ld ex data) /\
  (forall ld' ex' data',
     fill_samples inputs descriptors count ismpl ld ex data
       = Ok (ld', ex', data') ->
     adapter_ok ex' /\ m_blobNames ex' = m_blobNames ex /\
     (count = 0%nat \/ Forall (fun d => ~ dense_with_ignore d) descriptors)).
Proof.
  induction count as [| count IH]; intros ismpl ld ex data Hlock Hok Hall;
    cbn [fill_samples].
  - split; [auto with raises |]. intros ld' ex' data' [= _ <- _]. auto.
  - destruct (fill_streams_lockstep inputs descriptors ismpl 0 ex data
                Hlock Hok Hall) as [Hraise Hdense].
    assert (Hnext : forall ex1 data1 ld1 ex2,
      fill_streams inputs descriptors 0 ismpl ex data = Ok (ex1, data1) ->
      GetExample ld ex1 = Ok (ld1, ex2) ->
      adapter_ok ex2 /\ m_blobNames ex2 = m_blobNames ex).
    { intros ex1 data1 ld1 ex2 Hs Hg.
      apply fill_streams_Ok in Hs as (Hok1 & Hnames1 & _).
      apply GetExample_adapter in Hg as [Hok2 Hnames2]; [| auto].
      split; [exact Hok2 | congruence]. }
    split.
    + apply raises_only_bind; [exact Hraise |]. intros [ex1 data1] Hs.
      apply raises_only_bind; [apply GetExample_raises |].
      intros [ld1 ex2] Hg.
      destruct (Hnext _ _ _ _ Hs Hg) as [Hok2 Hnames2].
      apply IH; [exact Hlock | exact Hok2 |]. rewrite Hnames2. exact Hall.
    + intros ld' ex' data' Hf. bind_inv Hf. destruct a as [ex1 data1].
      bind_inv Hf. destruct a as [ld1 ex2].
      destruct (Hnext _ _ _ _ Ha Ha0) as [Hok2 Hnames2].
      destruct (IH (S ismpl) ld1 ex2 data1 Hlock Hok2) as [_ Hrec];
        [rewrite Hnames2; exact Hall |].
      destruct (Hrec _ _ _ Hf) as (Hok' & Hnames' & _).
      split; [exact Hok' | split; [congruence |]].
      right. eapply Hdense. exact Ha.
Qed.

Lemma samplesForThisCall_raises s total :
  raises_only (samplesForThisCall s total).
Proof.
  unfold samplesForThisCall.
  repeat match goal with
         | |- raises_only (if ?b then _ else _) => destruct b
         end;
    first [apply raises_only_Fatal; reflexivity | auto with raises].
Qed.

Lemma StartEpoch_streams s config s' :
  StartEpoch s config = Ok s' ->
  m_inputStreams s' = m_inputStreams s /\
  m_streamDescriptors s' = m_streamDescriptors s /\
  m_example s' = m_example s.
Proof.
  intros Hok. destruct (StartEpoch_ok_inv s config s' Hok) as (Hacc & HW & HM).
  rewrite (StartEpoch_accepts s config Hacc HW HM) in Hok.
  injection Hok as <-. auto.
Qed.

(** A call of [GetNextSequences] that returned, in its parts. *)
Lemma GetNextSequences_Ok_parts s total s' sequences :
  GetNextSequences s total = Ok (s', sequences) ->
  exists n ld,
    samplesForThisCall s total = Ok (n, m_endOfEpoch sequences) /\
    fill_samples (m_inputStreams s) (m_streamDescriptors s) (Z.to_nat n) 0
      (m_dsLoader s) (m_example s) (blank_sequences s n)
    = Ok (ld, m_example s', m_data sequences) /\
    m_inputStreams s' = m_inputStreams s /\
    m_streamDescriptors s' = m_streamDescriptors s.
Proof.
  rewrite GetNextSequences_unfold. intros Hg. bind_inv Hg.
  destruct a as [n flag]. bind_inv Hg. destruct a as [[ld ex] data].
  injection Hg as <- <-. exists n, ld. auto.
Qed.

(** The streams of every reader a caller can hold are those the
    constructor made. *)
Lemma Reachable_streams_ok s : Reachable s -> streams_ok s.
Proof.
  induction 1 as [config g1 g2 s _ _ _ Hnew
                 | s config s' _ IH _ _ Hstart
                 | s total s' sequences _ IH Hcall].
  - destruct (DataSource_new_parts _ _ _ _ Hnew)
      as (ex0 & ld & tb & Hex0 & Hget & Hds & Hin & _ & Hdescs & _).
    assert (Hok : adapter_ok (m_example s) /\
                  m_blobNames (m_example s) = GetBlobNames (loader config)).
    { unfold ImageDatasetExample_new in Hex0.
      destruct (decide _); [discriminate |]. injection Hex0 as <-.
      apply GetExample_adapter in Hget; [exact Hget |].
      unfold adapter_ok. cbn. rewrite !length_replicate. auto. }
    destruct Hok as [Hok Hnames].
    apply describe_streams_steps in Hds as (Hall & _ & new & Hnew' & Hlock).
    cbn in Hnew'. unfold streams_ok. rewrite Hin, Hdescs, Hnew', Hnames.
    split; [exact Hlock | split; [exact Hok |]].
    eapply Forall_impl; [exact Hall |]. intros d [Hd _]. exact Hd.
  - apply StartEpoch_streams in Hstart as (Hi & Hd & He).
    unfold streams_ok. rewrite Hi, Hd, He. exact IH.
  - apply GetNextSequences_Ok_parts in Hcall
      as (n & ld & _ & Hfill & Hi & Hd).
    destruct IH as (Hlock & Hok & Hall).
    destruct (fill_samples_lockstep _ _ (Z.to_nat n) 0%nat (m_dsLoader s)
                (m_example s) (blank_sequences s n) Hlock Hok Hall)
      as [_ Hrec].
    destruct (Hrec _ _ _ Hfill) as (Hok' & Hnames' & _).
    unfold streams_ok. rewrite Hi, Hd, Hnames'. auto.
Qed.

(** X18.  A call of [GetNextSequences] that returns hands out one row of
    sequences for every input stream, and no slot of a row is left null:
    the slot of sample [i] holds the sequence with [m_id = i] and
    [m_numberOfSamples = 1]. *)
Theorem GetNextSequences_no_empty_slot (s : DataSource)
    (totalSampleCount : Z) (s' : DataSource) (sequences : Sequences) :
  GetNextSequences s totalSampleCount = Ok (s', sequences) ->
  length (m_data sequences) = length (m_inputStreams s) /\
  forall istr row,
    m_data sequences !! istr = Some row ->
    forall ismpl, (ismpl < length row)%nat ->
    exists q,
      row !! ismpl = Some (Some q) /\
      m_id q = Z.of_nat ismpl /\ m_numberOfSamples q = 1.
Proof.
  intros Hcall.
  apply GetNextSequences_Ok_parts in Hcall as (n & ld & _ & Hfill & _).
  pose proof (fill_samples_slots _ _ _ _ _ _ _ _ _ _ Hfill) as [Hslots _].
  apply fill_samples_filled in Hfill as [_ Hall].
  assert (Hlen : length (m_data sequences) = length (m_inputStreams s)).
  { apply (f_equal length) in Hslots. unfold slots, blank_sequences in Hslots.
    rewrite !length_fmap, length_replicate in Hslots. exact Hslots. }
  split; [exact Hlen |].
  intros istr row Hrow ismpl Hlt.
  pose proof (lookup_lt_Some _ _ _ Hrow) as Histr.
  assert (Hwidth : length row = Z.to_nat n).
  { assert (Hs : slots (m_data sequences) !! istr = Some (length row))
      by (unfold slots; rewrite list_lookup_fmap, Hrow; reflexivity).
    rewrite Hslots in Hs. unfold slots, blank_sequences in Hs.
    rewrite list_lookup_fmap in Hs.
    rewrite lookup_replicate_2 in Hs by lia.
    cbn in Hs. rewrite length_replicate in Hs. congruence. }
  destruct (Hall istr ismpl ltac:(lia) ltac:(lia)) as (q & Hq & Hid & Hn).
  unfold slot_at in Hq. rewrite Hrow in Hq. eauto.
Qed.

(** X19.  On a reader a caller can hold, one the constructor returned and
    calls of [StartEpoch] and [GetNextSequences] that returned have changed,
    a call of [GetNextSequences] never fails for a sparse stream without
    its mask stream, nor for a blob the adapter does not know: its fatal
    errors are those of the three checks on the call and the epoch, of a
    dense stream with an ignore label, of the number of sparse values and
    of a label that is no channel. *)
Theorem GetNextSequences_errors (s : DataSource) (totalSampleCount : Z)
    (e : RuntimeError) :
  Reachable s ->
  GetNextSequences s totalSampleCount = Fatal e ->
  e ∈ [SampleCountMismatch; MoreWorkersThanSamples; AppendingMoreThanOne;
       DenseWithIgnore; UnexpectedSparseCount; InvalidChannel].
Proof.
  intros Hreach Hcall.
  destruct (Reachable_streams_ok s Hreach) as (Hlock & Hok & Hall).
  assert (Hraise : raises_only (GetNextSequences s totalSampleCount)).
  { rewrite GetNextSequences_unfold.
    apply raises_only_bind; [apply samplesForThisCall_raises |].
    intros [n flag] _. apply raises_only_bind; [| intros [[? ?] ?] _;
                                                   auto with raises].
    apply fill_samples_lockstep; assumption. }
  specialize (Hraise e Hcall).
  destruct e; try discriminate Hraise; repeat constructor.
Qed.

(** X20.  A reader a caller can hold, one of whose dense stream descriptors
    names an ignore label, never delivers a sample: a call of
    [GetNextSequences] returns only when it has no sample to read, with
    empty rows.  The constructor raises no error for such a descriptor. *)
Theorem dense_with_ignore_reads_nothing (s : DataSource)
    (totalSampleCount : Z) (s' : DataSource) (sequences : Sequences) :
  Reachable s ->
  Exists dense_with_ignore (m_streamDescriptors s) ->
  GetNextSequences s totalSampleCount = Ok (s', sequences) ->
  Forall (fun row => row = []) (m_data sequences).
Proof.
  intros Hreach Hdense Hcall.
  destruct (Reachable_streams_ok s Hreach) as (Hlock & Hok & Hall).
  apply GetNextSequences_Ok_parts in Hcall as (n & ld & Hn & Hfill & _).
  destruct (fill_samples_lockstep _ _ (Z.to_nat n) 0%nat (m_dsLoader s)
              (m_example s) (blank_sequences s n) Hlock Hok Hall)
    as [_ Hrec].
  destruct (Hrec _ _ _ Hfill) as (_ & _ & [Hzero | Hnone]).
  2:{ exfalso. apply Exists_exists in Hdense as (d & Hd & Hbad).
      rewrite Forall_forall in Hnone. exact (Hnone d Hd Hbad). }
  pose proof (fill_samples_slots _ _ _ _ _ _ _ _ _ _ Hfill) as [Hslots _].
  apply Forall_forall. intros row Hrow.
  apply list_elem_of_lookup in Hrow as [istr Hrow].
  assert (Hs : slots (m_data sequences) !! istr = Some (length row))
    by (unfold slots; rewrite list_lookup_fmap, Hrow; reflexivity).
  rewrite Hslots in Hs. unfold slots, blank_sequences in Hs.
  rewrite list_lookup_fmap in Hs.
  destruct (replicate _ _ !! istr) as [blank |] eqn:Hblank;
    [| discriminate].
  apply lookup_replicate in Hblank as [-> _].
  cbn in Hs. rewrite length_replicate, Hzero in Hs.
  destruct row; [reflexivity | discriminate].
Qed.

End Minibatch.

(** * The turns of the stream loop inside a call *)

Lemma store_sequence_frame data istr ismpl q data' :
  store_sequence data istr ismpl q = Ok data' ->
  slot_at data' istr ismpl = Some (Some q) /\
  forall r i, r <> istr \/ i <> ismpl ->
    slot_at data' r i = slot_at data r i.
Proof.
  unfold store_sequence. intros Hst. bind_inv_as Hst row Hrow.
  apply defined_Ok in Hrow. destruct (decide _) as [Hlt |]; [| discriminate].
  injection Hst as <-. apply slot_at_insert; assumption.
Qed.

Lemma clear_ignore_entry_frame data istr ismpl inz data' :
  clear_ignore_entry data istr ismpl inz = Ok data' ->
  forall r i, r <> istr \/ i <> ismpl ->
    slot_at data' r i = slot_at data r i.
Proof.
  unfold clear_ignore_entry. intros Hcl. bind_inv_as Hcl row Hrow.
  bind_inv_as Hcl cell Hcell. apply defined_Ok in Hrow, Hcell.
  destruct cell as [[id n layout owned | ] |]; try discriminate.
  destruct (decide _); [| discriminate]. injection Hcl as <-.
  apply slot_at_insert; [exact Hrow |]. eapply lookup_lt_Some. exact Hcell.
Qed.

Section TurnsOfCall.

Context `{ReaderLib}.

Lemma convert_labels_frame ignore ignoreBuffer ismpl spatialSize outChannels
    labels :
  forall inz data indicesMemory data' indicesMemory',
  convert_labels ignore ignoreBuffer ismpl spatialSize outChannels labels inz
    data indicesMemory = Ok (data', indicesMemory') ->
  forall r i, ignoreBuffer <> Some r \/ i <> ismpl ->
    slot_at data' r i = slot_at data r i.
Proof.
  induction labels as [| x rest IH]; intros inz data ind data' ind' Hc;
    cbn [convert_labels] in Hc.
  - injection Hc as <- _. auto.
  - bind_inv_as Hc c Hcast.
    destruct ignoreBuffer as [istrIgnore |]; [destruct ignore as [ig |] |].
    + destruct (c =? ignoreLabel ig).
      * bind_inv_as Hc data1 Hclear. intros r i Hri.
        rewrite (IH _ _ _ _ _ Hc r i Hri).
        apply (clear_ignore_entry_frame _ _ _ _ _ Hclear).
        destruct Hri as [Hr | Hi]; [left; congruence | right; exact Hi].
      * destruct (_ || _); [discriminate |]. eapply IH. exact Hc.
    + discriminate.
    + destruct (_ || _); [discriminate |]. eapply IH. exact Hc.
Qed.

(** A turn changes no slot but those of its sample in the streams it goes
    over. *)
Lemma stream_step_frame inputs ex data d istr ismpl next ex' data' :
  stream_step inputs ex data d istr ismpl = Ok (next, ex', data') ->
  (istr < next)%nat /\
  forall r i, (r < istr \/ next <= r \/ i <> ismpl)%nat ->
    slot_at data' r i = slot_at data r i.
Proof.
  intros Hst. pose proof (stream_step_slots _ _ _ _ _ _ _ _ _ Hst) as [_ Hlt].
  split; [exact Hlt |].
  unfold stream_step in Hst. bind_inv_as Hst sd Hsd.
  destruct (decide (StreamDescription.m_storageType sd = dense)) as [Hd | Hs].
  - unfold dense_stream in Hst.
    destruct (ignoreStream d); [discriminate |].
    bind_inv_as Hst shape Hshape. bind_inv_as Hst swapped Hswap.
    destruct swapped as [ex1 owned].
    bind_inv_as Hst data1 Hstore. injection Hst as <- <- <-.
    apply store_sequence_frame in Hstore as [_ Hframe].
    intros r i Hri. apply Hframe. lia.
  - unfold sparse_stream in Hst. bind_inv_as Hst masked Hmasked.
    destruct masked as [buffer data1].
    bind_inv_as Hst input Hinput. bind_inv_as Hst swapped Hswap.
    destruct swapped as [ex1 labels].
    destruct (negb _); [discriminate |].
    bind_inv_as Hst converted Hconvert. destruct converted as [data2 indices].
    bind_inv_as Hst data3 Hstore.
    injection Hst as <- <- <-.
    pose proof (fun r i =>
      convert_labels_frame _ _ _ _ _ _ _ _ _ _ _ Hconvert r i) as Hconv.
    apply store_sequence_frame in Hstore as [_ Hframe].
    destruct (ignoreStream d) as [ig |].
    + destruct (decide _); [discriminate |].
      bind_inv_as Hmasked ignoreInput HignoreInput.
      bind_inv_as Hmasked data0 Hstore0.
      injection Hmasked as Hbuffer Hdata. subst buffer data1.
      apply store_sequence_frame in Hstore0 as [_ Hframe0].
      intros r i Hri.
      rewrite Hframe by lia.
      rewrite Hconv
        by (destruct (decide (i = ismpl));
            [left; intros [= Heq]; lia | right; assumption]).
      apply Hframe0. lia.
    + injection Hmasked as Hbuffer Hdata. subst buffer data1.
      intros r i Hri. rewrite Hframe by lia. apply Hconv. left. discriminate.
Qed.

Lemma fill_streams_frame inputs descriptors ismpl :
  forall istr ex data ex' data',
  fill_streams inputs descriptors istr ismpl ex data = Ok (ex', data') ->
  forall r i, (r < istr \/ i <> ismpl)%nat ->
    slot_at data' r i = slot_at data r i.
Proof.
  induction descriptors as [| d rest IH]; intros istr ex data ex' data' Hf;
    cbn [fill_streams] in Hf;
    destruct (decide (istr < length inputs)%nat) as [Hlt | Hge];
    try discriminate.
  - injection Hf as <- <-. auto.
  - bind_inv_as Hf turned Hturn. destruct turned as [[istr1 ex1] data1].
    apply stream_step_frame in Hturn as [Hnext Hframe].
    intros r i Hri.
    rewrite (IH _ _ _ _ _ Hf r i) by lia. apply Hframe. lia.
  - injection Hf as <- <-. auto.
Qed.

Lemma fill_samples_frame inputs descriptors count :
  forall ismpl ld ex data ld' ex' data',
  fill_samples inputs descriptors count ismpl ld ex data
    = Ok (ld', ex', data') ->
  forall r i, (i < ismpl)%nat -> slot_at data' r i = slot_at data r i.
Proof.
  induction count as [| count IH]; intros ismpl ld ex data ld' ex' data' Hf;
    cbn [fill_samples] in Hf.
  - injection Hf as _ _ <-. auto.
  - bind_inv_as Hf streamed Hstreams. destruct streamed as [ex1 data1].
    bind_inv_as Hf fetched Hget. destruct fetched as [ld1 ex2].
    intros r i Hi.
    rewrite (IH _ _ _ _ _ _ _ Hf r i) by lia.
    apply (fill_streams_frame _ _ _ _ _ _ _ _ Hstreams). lia.
Qed.

(** The loop over the samples, in two parts. *)
Lemma fill_samples_app inputs descriptors first :
  forall rest ismpl ld ex data,
  fill_samples inputs descriptors (first + rest) ismpl ld ex data =
    '(ld1, ex1, data1) ←
      fill_samples inputs descriptors first ismpl ld ex data;
    fill_samples inputs descriptors rest (ismpl + first) ld1 ex1 data1.
Proof.
  induction first as [| first IH]; intros rest ismpl ld ex data.
  - cbn. rewrite Nat.add_0_r. reflexivity.
  - cbn [Nat.add fill_samples].
    destruct (fill_streams inputs descriptors 0 ismpl ex data)
      as [[ex1 data1] | e |]; cbn [mbind result_bind]; [| reflexivity ..].
    destruct (GetExample ld ex1) as [[ld1 ex2] | e |];
      cbn [mbind result_bind]; [| reflexivity ..].
    rewrite IH. replace (S ismpl + first)%nat with (ismpl + S first)%nat by lia.
    reflexivity.
Qed.

(** The stream loop of a sample from the turn it has come to. *)
Lemma fill_streams_reach inputs ismpl j :
  forall descriptors istr ex data istr1 ex1 data1,
  stream_loop_before inputs descriptors j istr ismpl ex data
    = Some (istr1, ex1, data1) ->
  fill_streams inputs descriptors istr ismpl ex data
  = fill_streams inputs (drop j descriptors) istr1 ismpl ex1 data1.
Proof.
  induction j as [| j IH]; intros descriptors istr ex data istr1 ex1 data1 Hl;
    cbn [stream_loop_before] in Hl.
  - injection Hl as <- <- <-. rewrite drop_0. reflexivity.
  - destruct (decide (istr < length inputs)%nat) as [Hlt |]; [| discriminate].
    destruct descriptors as [| d rest]; [discriminate |].
    destruct (stream_step inputs ex data d istr ismpl)
      as [[[istr2 ex2] data2] | e |] eqn:Hstep; try discriminate.
    cbn [fill_streams drop]. rewrite decide_True by exact Hlt.
    rewrite Hstep. cbn [mbind result_bind]. apply IH. exact Hl.
Qed.

Lemma stream_loop_before_slots inputs ismpl j :
  forall descriptors istr ex data istr1 ex1 data1,
  stream_loop_before inputs descriptors j istr ismpl ex data
    = Some (istr1, ex1, data1) ->
  slots data1 = slots data.
Proof.
  induction j as [| j IH]; intros descriptors istr ex data istr1 ex1 data1 Hl;
    cbn [stream_loop_before] in Hl.
  - injection Hl as _ _ <-. reflexivity.
  - destruct (decide (istr < length inputs)%nat) as [Hlt |]; [| discriminate].
    destruct descriptors as [| d rest]; [discriminate |].
    destruct (stream_step inputs ex data d istr ismpl)
      as [[[istr2 ex2] data2] | e |] eqn:Hstep; try discriminate.
    apply stream_step_slots in Hstep as [Hslots _].
    rewrite (IH _ _ _ _ _ _ _ Hl). exact Hslots.
Qed.

(** The call from the turn it has come to: the rest of the stream loop of
    the sample, the next example, and the samples after it. *)
Lemma call_reaches_rest s total ismpl j d istr ex data :
  call_reaches s total ismpl j d istr ex data ->
  (istr < length (m_inputStreams s))%nat ->
  exists taken endOfEpoch later ld1,
    samplesForThisCall s total = Ok (taken, endOfEpoch) /\
    Z.to_nat taken = (ismpl + S later)%nat /\
    slots data = slots (blank_sequences s taken) /\
    GetNextSequences s total =
      '(ld, ex2, data2) ←
        ('(ex1, data1) ←
           ('(next, ex', data') ←
              stream_step (m_inputStreams s) ex data d istr ismpl;
            fill_streams (m_inputStreams s)
              (drop (S j) (m_streamDescriptors s)) next ismpl ex' data');
         '(ld', ex2) ← GetExample ld1 ex1;
         fill_samples (m_inputStreams s) (m_streamDescriptors s) later
           (S ismpl) ld' ex2 data1);
      Ok (after_reading s ld ex2
            (to_size_t (m_currEpochSampleCount s + to_int taken)
             - m_currEpochSampleCount s),
          mkSequences data2 endOfEpoch).
Proof.
  intros (taken & flag & Hsamples & Hlt & Hd & Hturn) Histr.
  unfold turn_state in Hturn.
  destruct (fill_samples _ _ ismpl _ _ _ _) as [[[ld1 ex1] data1] | e |]
    eqn:Hbefore; try discriminate.
  exists taken, flag, (Z.to_nat taken - ismpl - 1)%nat, ld1.
  split; [exact Hsamples |].
  split; [lia |].
  split.
  { rewrite (stream_loop_before_slots _ _ _ _ _ _ _ _ _ _ Hturn).
    apply fill_samples_slots in Hbefore as [Hslots _]. exact Hslots. }
  rewrite GetNextSequences_unfold, Hsamples. cbn [mbind result_bind].
  replace (Z.to_nat taken)
    with (ismpl + S (Z.to_nat taken - ismpl - 1))%nat at 1 by lia.
  rewrite fill_samples_app, Hbefore. cbn [mbind result_bind Nat.add].
  cbn [fill_samples].
  rewrite (fill_streams_reach _ _ _ _ _ _ _ _ _ _ Hturn).
  rewrite (drop_S _ _ _ Hd). cbn [fill_streams].
  rewrite decide_True by exact Histr. reflexivity.
Qed.

(** A turn that fails ends the call with its error. *)
Lemma call_reaches_fatal s total ismpl j d istr ex data e :
  call_reaches s total ismpl j d istr ex data ->
  (istr < length (m_inputStreams s))%nat ->
  stream_step (m_inputStreams s) ex data d istr ismpl = Fatal e ->
  GetNextSequences s total = Fatal e.
Proof.
  intros Hreach Histr Hstep.
  destruct (call_reaches_rest _ _ _ _ _ _ _ _ Hreach Histr)
    as (taken & flag & later & ld1 & _ & _ & _ & ->).
  rewrite Hstep. reflexivity.
Qed.

(** What a turn stores is what the call hands out in those slots. *)
Lemma call_reaches_slots s total ismpl j d istr ex data next ex' data' s'
    sequences :
  call_reaches s total ismpl j d istr ex data ->
  (istr < length (m_inputStreams s))%nat ->
  stream_step (m_inputStreams s) ex data d istr ismpl = Ok (next, ex', data') ->
  GetNextSequences s total = Ok (s', sequences) ->
  forall r, (r < next)%nat ->
    slot_at (m_data sequences) r ismpl = slot_at data' r ismpl.
Proof.
  intros Hreach Histr Hstep Hcall.
  destruct (call_reaches_rest _ _ _ _ _ _ _ _ Hreach Histr)
    as (taken & flag & later & ld1 & _ & _ & _ & Heq).
  rewrite Heq, Hstep in Hcall. cbn [mbind result_bind] in Hcall.
  bind_inv_as Hcall filled_in Hfilled. destruct filled_in as [[ld ex2] data2].
  injection Hcall as _ <-. cbn [m_data].
  bind_inv_as Hfilled streamed Hstreams. destruct streamed as [ex1 data1].
  bind_inv_as Hfilled fetched Hget. destruct fetched as [ld' ex3].
  intros r Hr.
  rewrite (fill_samples_frame _ _ _ _ _ _ _ _ _ _ Hfilled r ismpl) by lia.
  apply (fill_streams_frame _ _ _ _ _ _ _ _ Hstreams). lia.
Qed.

(** The row of a stream, when the call comes to a turn. *)
Lemma call_reaches_row s total ismpl j d istr ex data :
  call_reaches s total ismpl j d istr ex data ->
  (istr < length (m_inputStreams s))%nat ->
  exists row, data !! istr = Some row /\ (ismpl < length row)%nat.
Proof.
  intros Hreach Histr.
  destruct (call_reaches_rest _ _ _ _ _ _ _ _ Hreach Histr)
    as (taken & flag & later & ld1 & _ & Hcount & Hslots & _).
  assert (Hwidth : slots data !! istr = Some (Z.to_nat taken)).
  { rewrite Hslots. unfold slots, blank_sequences.
    rewrite list_lookup_fmap, lookup_replicate_2 by exact Histr.
    cbn. rewrite length_replicate. reflexivity. }
  unfold slots in Hwidth. rewrite list_lookup_fmap in Hwidth.
  destruct (data !! istr) as [row |]; [| discriminate].
  injection Hwidth as Hwidth. exists row. split; [reflexivity | lia].
Qed.

End TurnsOfCall.

Section Claims_Streams.

Context `{ReaderLib}.

Lemma slot_at_stored (data : list (list (option SequenceData)))
    (istr ismpl : nat) (row : list (option SequenceData))
    (cell : option SequenceData) :
  data !! istr = Some (<[ismpl := cell]> row) -> (ismpl < length row)%nat ->
  slot_at data istr ismpl = Some cell.
Proof.
  intros Hrow Hlt. unfold slot_at. rewrite Hrow.
  apply list_lookup_insert_eq. exact Hlt.
Qed.

(** C5.  When a call of [GetNextSequences] comes to the turn of a sparse
    stream none of whose labels is an ignore label: if the label buffer the
    adapter holds does not have exactly [spatial0 * spatial1] elements, the
    call fails fatally; if it has, and every label is a channel, the turn
    returns, and the call, when it returns, hands out in the slot of the
    sample in this stream a sparse sequence whose index at each position is
    [label * spatialSize + position], whose values are all 1.0 and whose
    count of nonzeros is the spatial size.  On the sample reader, whose
    examples carry the labels [2, 0, 1] on three positions and three
    channels, the call hands out the indices [6, 1, 5] with 3 nonzeros. *)
Theorem sparse_stream_one_hot
    (s : DataSource) (totalSampleCount : Z) (ismpl j : nat)
    (d : StreamDescriptor) (istr : nat) (ex : ImageDatasetExample)
    (data : list (list (option SequenceData)))
    (input ignoreInput : StreamDescription.t)
    (row ignoreRow : list (option SequenceData)) (index : nat)
    (xs : list float) (cs : list Z) :
  let inputs := m_inputStreams s in
  let dims := StreamDescription.m_sampleLayout input in
  let spatialSize := dim0 dims * dim1 dims in
  call_reaches s totalSampleCount ismpl j d istr ex data ->
  sparse_turn inputs ex data d istr ismpl input row index xs cs ->
  (ignoreStream d <> None ->
   ignore_turn inputs data istr ismpl input ignoreInput ignoreRow) ->
  Forall (fun label => is_ignored (ignoreStream d) label = false) cs ->
  (Z.of_nat (length xs) <> spatialSize ->
   GetNextSequences s totalSampleCount = Fatal UnexpectedSparseCount) /\
  (Z.of_nat (length xs) = spatialSize ->
   Forall (fun label => 0 <= label < dim2 dims) cs ->
   (exists next ex' data',
      stream_step inputs ex data d istr ismpl = Ok (next, ex', data')) /\
   forall s' sequences,
     GetNextSequences s totalSampleCount = Ok (s', sequences) ->
     exists indices,
       slot_at (m_data sequences) istr ismpl =
         Some (Some (SparseSequenceDataIds (Z.of_nat ismpl) 1
                       [spatialSize] spatialSize indices
                       (replicate (Z.to_nat spatialSize) float_one))) /\
       length indices = Z.to_nat spatialSize /\
       forall position label,
         cs !! position = Some label ->
         indices !! position
         = Some (label * spatialSize + Z.of_nat position)) /\
  m_data (snd (@next_sequences sample_lib sample_epoch 2)) !! 1%nat =
    Some [ Some (SparseSequenceDataIds 0 1 [3] 3 [6; 1; 5]
                   [float_one; float_one; float_one]);
           Some (SparseSequenceDataIds 1 1 [3] 3 [6; 1; 5]
                   [float_one; float_one; float_one]) ].
Proof.
  intros inputs dims spatialSize Hreach Hturn Hmask Hnone.
  pose proof (sparse_turn_one_hot inputs ex data d istr ismpl input
                ignoreInput row ignoreRow index xs cs Hturn Hmask Hnone)
    as (Hwrong & Hright & _).
  fold dims spatialSize in Hwrong, Hright.
  pose proof Hturn as (Hinput & _ & _ & Hslot & _).
  pose proof (lookup_lt_Some _ _ _ Hinput) as Histr.
  split; [| split].
  - intros Hne. eapply call_reaches_fatal; eauto.
  - intros Hcount Hchannels.
    destruct (Hright Hcount Hchannels)
      as (next & ex' & data' & indices & Hstep & Hrow' & Hlen & Hindex).
    split; [eauto |].
    intros s' sequences Hcall. exists indices.
    split; [| split; [exact Hlen | exact Hindex]].
    pose proof (stream_step_frame _ _ _ _ _ _ _ _ _ Hstep) as [Hnext _].
    rewrite (call_reaches_slots _ _ _ _ _ _ _ _ _ _ _ _ _ Hreach Histr Hstep
               Hcall istr Hnext).
    eapply slot_at_stored; eassumption.
  - vm_compute. reflexivity.
Qed.

(** C6 (as amended).  When a call of [GetNextSequences] comes to the turn
    of a sparse stream of at least one channel that is paired with an
    ignore stream, with a label buffer of exactly [spatial0 * spatial1]
    elements: the turn fails fatally exactly when the label at some
    position is not the ignore label and lies outside [0, outChannels), and
    the call then fails with that error.  Otherwise the turn returns, and
    the call, when it returns, hands out the dense mask sequence and the
    sparse sequence of the sample; the mask is 1.0 at every position but
    those whose label is the ignore label, where it is 0 and where the
    sparse index is the position itself, the index of channel 0 there,
    inside the layout.  On the sample reader with ignore label 2, whose
    examples carry the labels [2, 1, 0], the call hands out the mask
    [0, 1, 1]. *)
Theorem sparse_stream_ignore_mask
    (s : DataSource) (totalSampleCount : Z) (ismpl j : nat)
    (d : StreamDescriptor) (ig : IgnoreStreamDescriptor) (istr : nat)
    (ex : ImageDatasetExample) (data : list (list (option SequenceData)))
    (input ignoreInput : StreamDescription.t)
    (row ignoreRow : list (option SequenceData)) (index : nat)
    (xs : list float) (cs : list Z) :
  let inputs := m_inputStreams s in
  let dims := StreamDescription.m_sampleLayout input in
  let spatialSize := dim0 dims * dim1 dims in
  let outChannels := dim2 dims in
  let turn := stream_step inputs ex data d istr ismpl in
  let bad_label :=
    exists position label,
      cs !! position = Some label /\ label <> ignoreLabel ig /\
      ~ 0 <= label < outChannels in
  call_reaches s totalSampleCount ismpl j d istr ex data ->
  sparse_turn inputs ex data d istr ismpl input row index xs cs ->
  ignoreStream d = Some ig ->
  ignore_turn inputs data istr ismpl input ignoreInput ignoreRow ->
  Z.of_nat (length xs) = spatialSize ->
  (is_fatal turn <-> bad_label) /\
  (bad_label -> GetNextSequences s totalSampleCount = Fatal InvalidChannel) /\
  (~ bad_label ->
   (exists ex' data', turn = Ok (S (S istr), ex', data')) /\
   forall s' sequences,
     GetNextSequences s totalSampleCount = Ok (s', sequences) ->
     exists mask indices,
       slot_at (m_data sequences) (istr + 1) ismpl =
         Some (Some (DenseSequenceDataIds (Z.of_nat ismpl) 1
                       (mkTensorShape (dim0 dims) (dim1 dims) 1) mask)) /\
       slot_at (m_data sequences) istr ismpl =
         Some (Some (SparseSequenceDataIds (Z.of_nat ismpl) 1
                       [spatialSize] spatialSize indices
                       (replicate (Z.to_nat spatialSize) float_one))) /\
       length mask = Z.to_nat spatialSize /\
       length indices = Z.to_nat spatialSize /\
       forall position label,
         cs !! position = Some label ->
         (label = ignoreLabel ig ->
          mask !! position = Some float_zero /\
          indices !! position = Some (Z.of_nat position) /\
          0 <= Z.of_nat position < outChannels * spatialSize) /\
         (label <> ignoreLabel ig ->
          mask !! position = Some float_one /\
          indices !! position
          = Some (label * spatialSize + Z.of_nat position))) /\
  m_data (snd (@next_sequences sample_lib sample_epoch_ignore 1)) =
    [ [ Some (DenseSequenceDataIds 0 1 (mkTensorShape 3 1 2) sample_pixels) ];
      [ Some (SparseSequenceDataIds 0 1 [3] 3 [0; 4; 2]
                [float_one; float_one; float_one]) ];
      [ Some (DenseSequenceDataIds 0 1 (mkTensorShape 3 1 1)
                [float_zero; float_one; float_one]) ] ].
Proof.
  intros inputs dims spatialSize outChannels turn bad_label
    Hreach Hturn Hig Hmask Hcount.
  pose proof (sparse_turn_ignore_mask inputs ex data d ig istr ismpl input
                ignoreInput row ignoreRow index xs cs Hturn Hig Hmask Hcount)
    as (Hiff & Hgood & _).
  fold dims spatialSize outChannels turn in Hiff, Hgood.
  fold bad_label in Hiff.
  pose proof Hturn as (Hinput & _ & _ & Hslot & _).
  pose proof Hmask as (_ & _ & _ & Hslot').
  pose proof (lookup_lt_Some _ _ _ Hinput) as Histr.
  split; [exact Hiff | split; [| split]].
  - intros Hbad. apply Hiff in Hbad as [e He].
    assert (e = InvalidChannel) as ->.
    { pose proof (stream_step_sparse inputs ex data d istr ismpl input row
                    index xs cs Hturn) as Hstep.
      pose proof (sparse_stream_eq inputs ex data d istr ismpl input
                    ignoreInput row ignoreRow index xs cs Hturn
                    (fun _ => Hmask)) as Heq.
      cbv zeta in Heq. rewrite <- Hstep in Heq.
      fold dims spatialSize turn in Heq.
      rewrite He, (proj2 (Z.eqb_eq _ _) Hcount) in Heq. cbn [negb] in Heq.
      destruct (forallb _ cs); [discriminate Heq |].
      injection Heq as ->. reflexivity. }
    eapply call_reaches_fatal; eauto.
  - intros Hnot.
    assert (Hnf : ~ is_fatal turn) by (rewrite Hiff; exact Hnot).
    destruct (Hgood Hnf)
      as (ex' & data' & mask & indices & Hstep & Hmask' & Hrow' & Hlm & Hli
          & Hpos).
    split; [eauto |].
    intros s' sequences Hcall. exists mask, indices.
    split; [| split; [| split; [exact Hlm | split; [exact Hli | exact Hpos]]]].
    + rewrite (call_reaches_slots _ _ _ _ _ _ _ _ _ _ _ _ _ Hreach Histr
                 Hstep Hcall (istr + 1)%nat ltac:(lia)).
      eapply slot_at_stored; eassumption.
    + rewrite (call_reaches_slots _ _ _ _ _ _ _ _ _ _ _ _ _ Hreach Histr
                 Hstep Hcall istr ltac:(lia)).
      eapply slot_at_stored; eassumption.
  - vm_compute. reflexivity.
Qed.

(** C7.  When a call of [GetNextSequences] comes to the turn of a dense
    stream without an ignore stream and the call returns, the dense
    sequence it hands out in the slot of the sample in this stream owns
    exactly the values the adapter held for the blob right before the turn,
    element for element; the sequence is one sample, and its shape is the
    shape of the blob with the order of the dimensions reversed.  The turn
    leaves the adapter with the empty buffer that was swapped in, and its
    other buffers as they were. *)
Theorem dense_stream_moves_buffer
    (s : DataSource) (totalSampleCount : Z) (s' : DataSource)
    (sequences : Sequences) (ismpl j : nat) (d : StreamDescriptor)
    (istr : nat) (ex : ImageDatasetExample)
    (data : list (list (option SequenceData)))
    (input : StreamDescription.t) (index : nat)
    (buffer : list float) (shape : BlobShape) :
  call_reaches s totalSampleCount ismpl j d istr ex data ->
  m_inputStreams s !! istr = Some input ->
  StreamDescription.m_storageType input = dense ->
  ignoreStream d = None ->
  find_blob (datasetName d) (m_blobNames ex) 0 = Some index ->
  m_blobs ex !! index = Some buffer ->
  m_blob_shapes ex !! index = Some shape ->
  0 <= shape0 shape < 2 ^ 31 -> 0 <= shape1 shape < 2 ^ 31 ->
  0 <= shape2 shape < 2 ^ 31 ->
  GetNextSequences s totalSampleCount = Ok (s', sequences) ->
  slot_at (m_data sequences) istr ismpl =
    Some (Some (DenseSequenceDataIds (Z.of_nat ismpl) 1
                  (mkTensorShape (shape2 shape) (shape1 shape) (shape0 shape))
                  buffer)) /\
  exists ex' data',
    stream_step (m_inputStreams s) ex data d istr ismpl
    = Ok (S istr, ex', data') /\
    m_blobs ex' !! index = Some [] /\
    (forall other,
       other <> index -> m_blobs ex' !! other = m_blobs ex !! other).
Proof.
  intros Hreach Hinput Hdense Hig Hfind Hblob Hshape H0 H1 H2 Hcall.
  pose proof (lookup_lt_Some _ _ _ Hinput) as Histr.
  destruct (call_reaches_row _ _ _ _ _ _ _ _ Hreach Histr)
    as (row & Hrow & Hslot).
  destruct (dense_turn_moves_buffer (m_inputStreams s) ex data d istr ismpl
              input row index buffer shape Hinput Hdense Hig Hfind Hblob
              Hshape H0 H1 H2 Hrow Hslot)
    as (ex' & data' & Hstep & Hrow' & Hempty & Hothers).
  split; [| eauto 6].
  rewrite (call_reaches_slots _ _ _ _ _ _ _ _ _ _ _ _ _ Hreach Histr Hstep
             Hcall istr ltac:(lia)).
  eapply slot_at_stored; eassumption.
Qed.

End Claims_Streams.

(** * The counter of samples read *)

Section Counter.

Context `{ReaderLib}.

(** The loop over the samples of a reader without streams, on a loader that
    hands out the same example every time, once the adapter holds it. *)
Lemma fill_samples_no_streams blobs count :
  forall ismpl ld ex data,
  (forall p, examples ld p = blobs) ->
  fill_blobs ex 0 blobs = Ok ex ->
  fill_samples [] [] count ismpl ld ex data
  = Ok (mkIDsLoader (GetBlobNames ld) (GetExamplesCount ld) (examples ld)
          (position ld + count), ex, data).
Proof.
  induction count as [| count IH]; intros ismpl ld ex data Hsame Hfix;
    cbn [fill_samples].
  - rewrite Nat.add_0_r. destruct ld; reflexivity.
  - cbn [fill_streams length]. rewrite decide_False by lia.
    cbn [mbind result_bind]. unfold GetExample. rewrite Hsame, Hfix.
    cbn [mbind result_bind].
    rewrite IH by assumption. cbn [GetBlobNames GetExamplesCount examples
                                   position].
    replace (S (position ld) + count)%nat with (position ld + S count)%nat
      by lia.
    reflexivity.
Qed.

Lemma GetNextSequences_no_streams s total taken endOfEpoch blobs :
  m_inputStreams s = [] -> m_streamDescriptors s = [] ->
  samplesForThisCall s total = Ok (taken, endOfEpoch) ->
  (forall p, examples (m_dsLoader s) p = blobs) ->
  fill_blobs (m_example s) 0 blobs = Ok (m_example s) ->
  exists ld,
    GetNextSequences s total =
      Ok (after_reading s ld (m_example s)
            (to_size_t (m_currEpochSampleCount s + to_int taken)
             - m_currEpochSampleCount s),
          mkSequences [] endOfEpoch).
Proof.
  intros Hin Hdescs Hsamples Hsame Hfix.
  rewrite GetNextSequences_unfold, Hsamples. cbn [mbind result_bind].
  unfold blank_sequences. rewrite Hin, Hdescs. cbn [length replicate].
  rewrite (fill_samples_no_streams blobs) by assumption.
  cbn [mbind result_bind]. eauto.
Qed.

End Counter.
(** * The properties on the sample installation *)

#[local] Existing Instance sample_lib.

(** The sample readers are readers the constructor returns. *)
Lemma sample_reader_constructed rank workers :
  DataSource_new
    (sample_config false [sample_dense; sample_sparse 3 None] [2; 0; 1]
       rank workers) 0 false
  = Ok (sample_reader rank workers).
Proof. reflexivity. Qed.

Lemma sample_reader_ignore_constructed :
  DataSource_new
    (sample_config false [sample_dense; sample_sparse 2 (Some sample_ignore)]
       [2; 1; 0] 0 1) 0 false
  = Ok sample_reader_ignore.
Proof. reflexivity. Qed.

Lemma sample_reader_bad_label_constructed :
  DataSource_new
    (sample_config false [sample_dense; sample_sparse 3 None] [5; 0; 1] 0 1)
    0 false
  = Ok sample_reader_bad_label.
Proof. reflexivity. Qed.

(** Closed facts about sample values, by evaluation.  Labels are converted
    one at a time, never under a binder. *)
Ltac evaluate :=
  unfold sparse_turn, ignore_turn, call_in_range, epoch_state_ok,
    epoch_config_ok, is_size_t;
  cbv zeta;
  repeat match goal with
         | |- _ /\ _ => split
         | |- _ <-> _ => split
         | |- Forall2 _ _ _ => constructor
         | |- Forall _ _ => constructor
         end;
  try (vm_compute;
       first [ reflexivity | lia | discriminate
             | intro; first [ discriminate | assumption ] ]).

(** Three readers, minibatches of 6, an epoch of 20 samples: 7, 7 and 6. *)
Lemma StartEpoch_shares_sum_witness :
  exists sizes,
    mapM (epochSizeOfWorker (sample_reader 0 3)
            (EpochConfiguration.mk 3 0 6 20)) (seqZ 0 3) = Some sizes /\
    sumZ sizes = 20.
Proof.
  refine (StartEpoch_shares_sum (sample_reader 0 3)
            (EpochConfiguration.mk 3 0 6 20) _ _ _ _ _ _); evaluate.
Defined.

(** The reader of rank 1 of these three: 6 + 0 + 1 samples, and its last
    minibatch is appended. *)
Lemma StartEpoch_reader_share_witness :
  exists s',
    StartEpoch (sample_reader 1 3) (EpochConfiguration.mk 3 1 6 20) = Ok s' /\
    m_epochSize s' = 20 / 6 * 6 / 3 + 0 + 1 /\
    (m_appendLastMinibatch s' = true <->
     0 < 20 mod 6 /\ 20 mod 6 / 3 = 0 /\ 1 < 20 mod 6 mod 3).
Proof.
  refine (StartEpoch_reader_share (sample_reader 1 3)
            (EpochConfiguration.mk 3 1 6 20) _ _ _ _ _ _ _ _); evaluate.
Defined.

(** In a reader of three workers [StartEpoch] is rejected for minibatches
    of 10 and for nothing else here. *)
Lemma StartEpoch_fatal_iff_witness :
  is_fatal (StartEpoch (sample_reader 0 3) (EpochConfiguration.mk 3 0 10 100))
  <->
  m_epochSize (sample_reader 0 3) <> m_currEpochSampleCount (sample_reader 0 3)
  \/ m_workerRank (sample_reader 0 3) <> 0
  \/ m_numberOfWorkers (sample_reader 0 3) <> 3
  \/ 10 mod m_numberOfWorkers (sample_reader 0 3) <> 0.
Proof.
  refine (proj1 (StartEpoch_fatal_iff (sample_reader 0 3)
                   (EpochConfiguration.mk 3 0 10 100) _)).
  evaluate.
Defined.

(** With the epoch override and the reserved total, three workers over the
    7 examples of the loader make an epoch of 21 samples. *)
Lemma StartEpoch_global_size_witness :
  globalEpochSize (sample_reader_override 0 3)
    (EpochConfiguration.mk 3 0 6 (2 ^ 62 - 1))
  = 3 * 7.
Proof.
  refine (proj1 (StartEpoch_global_size (sample_reader_override 0 3)
                   (EpochConfiguration.mk 3 0 6 (2 ^ 62 - 1)) _ _)).
  - evaluate.
  - intros _. evaluate.
Defined.

(** C4 as stated fails: the reader of rank 0 of three workers is
    ready for a new epoch, and [StartEpoch] with minibatches of 10 and a
    total of 100 samples raises the fatal error of line 381; it leaves no
    epoch size of 30. *)
Lemma StartEpoch_100_10_3_rejected :
  m_epochSize (sample_reader 0 3) = m_currEpochSampleCount (sample_reader 0 3)
  /\ StartEpoch (sample_reader 0 3) (EpochConfiguration.mk 3 0 10 100)
     = Fatal MinibatchNotDivisible
  /\ ~ (exists s',
          StartEpoch (sample_reader 0 3) (EpochConfiguration.mk 3 0 10 100)
          = Ok s' /\ m_epochSize s' = 30).
Proof.
  split; [reflexivity | split; [reflexivity |]].
  intros (s' & Hok & _). discriminate Hok.
Qed.

Lemma StartEpoch_100_10_3_witness :
  is_fatal (StartEpoch (sample_reader 0 3) (EpochConfiguration.mk 3 0 10 100))
  /\ 100 mod 10 = 0
  /\ (forall rank, thisReaderEpochSize 100 10 3 rank = (33, false)).
Proof.
  refine (StartEpoch_100_10_3 (sample_reader 0 3)
            (EpochConfiguration.mk 3 0 10 100) _ _); evaluate.
Defined.

Lemma sample_epoch_Reachable : Reachable sample_epoch.
Proof.
  apply (Reachable_StartEpoch (sample_reader 0 1)
           (EpochConfiguration.mk 1 0 2 5)).
  - apply (Reachable_new
             (sample_config false [sample_dense; sample_sparse 3 None]
                [2; 0; 1] 0 1) 0 false); evaluate.
  - evaluate.
  - evaluate.
  - reflexivity.
Defined.

Lemma consumed_within_epoch_witness :
  GetNextSequences sample_epoch 2 = Ok sample_after /\
  m_currEpochSampleCount (fst sample_after) <= m_epochSize (fst sample_after)
  /\
  (m_endOfEpoch (snd sample_after) = true <->
   m_currEpochSampleCount (fst sample_after) = m_epochSize (fst sample_after))
  /\
  (m_endOfEpoch (snd sample_after) = true ->
   forall config,
     StartEpoch (fst sample_after) config <> Fatal EpochNotFinished).
Proof.
  split; [vm_compute; reflexivity |].
  refine (consumed_within_epoch sample_epoch 2 (fst sample_after)
            (snd sample_after) sample_epoch_Reachable _ _).
  - evaluate.
  - vm_compute. reflexivity.
Defined.

Lemma GetNextSequences_outcome_witness :
  call_in_range sample_epoch 2 /\
  (is_fatal (samplesForThisCall sample_epoch 2)
     <-> call_rejected sample_epoch 2) /\
  (is_fatal (GetNextSequences sample_epoch 2) <->
   call_rejected sample_epoch 2 \/
   is_fatal
     (fill_samples (m_inputStreams sample_epoch)
        (m_streamDescriptors sample_epoch) 2 0 (m_dsLoader sample_epoch)
        (m_example sample_epoch) [[None; None]; [None; None]])).
Proof.
  assert (Hrange : call_in_range sample_epoch 2) by evaluate.
  split; [exact Hrange |].
  pose proof (GetNextSequences_outcome sample_epoch 2 Hrange) as (H1 & H2 & _).
  split; [exact H1 | exact H2].
Defined.

(** C3 as stated fails: the checks of lines 475-496 pass for a
    reader whose next example carries the label 5 on a stream of three
    channels, and the call fails fatally all the same, at line 634. *)
Lemma GetNextSequences_fatal_past_checks :
  GetNextSequences sample_epoch_bad_label 2 = Fatal InvalidChannel /\
  ~ (2 <> m_minibatchSize sample_epoch_bad_label \/
     2 / m_numberOfWorkers sample_epoch_bad_label = 0 \/
     (m_appendLastMinibatch sample_epoch_bad_label = true /\
      m_epochSize sample_epoch_bad_label
        - m_currEpochSampleCount sample_epoch_bad_label
      <= 2 * (2 / m_numberOfWorkers sample_epoch_bad_label) /\
      m_epochSize sample_epoch_bad_label
        - m_currEpochSampleCount sample_epoch_bad_label
      <> 2 / m_numberOfWorkers sample_epoch_bad_label + 1)).
Proof.
  split; [vm_compute; reflexivity |].
  vm_compute. intros [Hne | [Hz | (Happ & _)]].
  - apply Hne. reflexivity.
  - discriminate Hz.
  - discriminate Happ.
Qed.

(** The turn for the sparse stream of the first sample of [sample_epoch]:
    the labels [2, 0, 1] on three positions and three channels. *)
Lemma sparse_turn_one_hot_sample :
  exists next ex' data' indices,
    stream_step (m_inputStreams sample_epoch) (m_example sample_epoch)
      [[None]; [None]] (sample_sparse 3 None) 1 0 = Ok (next, ex', data') /\
    data' !! 1%nat =
      Some [Some (SparseSequenceDataIds 0 1 [3] 3 indices
                    [float_one; float_one; float_one])] /\
    length indices = 3%nat /\
    forall position label,
      [2; 0; 1] !! position = Some label ->
      indices !! position = Some (label * 3 + Z.of_nat position).
Proof.
  refine (proj1 (proj2
    (sparse_turn_one_hot (m_inputStreams sample_epoch)
       (m_example sample_epoch) [[None]; [None]] (sample_sparse 3 None) 1 0
       (StreamDescription.mk 1 "labels" sparse_csc (mkTensorShape 3 1 3))
       (StreamDescription.mk 1 "labels" sparse_csc (mkTensorShape 3 1 3))
       [None] [] 1 (float_of_Z <$> [2; 0; 1]) [2; 0; 1] _ _ _)) _ _).
  - evaluate.
  - intros Hignore. exfalso. apply Hignore. reflexivity.
  - evaluate.
  - reflexivity.
  - evaluate.
Defined.

Lemma sparse_turn_ignore_mask_sample :
  is_fatal
    (stream_step (m_inputStreams sample_epoch_ignore)
       (m_example sample_epoch_ignore) [[None]; [None]; [None]]
       (sample_sparse 2 (Some sample_ignore)) 1 0)
  <->
  exists position label,
    [2; 1; 0] !! position = Some label /\ label <> 2 /\ ~ 0 <= label < 2.
Proof.
  refine (proj1
    (sparse_turn_ignore_mask (m_inputStreams sample_epoch_ignore)
       (m_example sample_epoch_ignore) [[None]; [None]; [None]]
       (sample_sparse 2 (Some sample_ignore)) sample_ignore 1 0
       (StreamDescription.mk 1 "labels" sparse_csc (mkTensorShape 3 1 2))
       (StreamDescription.mk 2 "ignore" dense (mkTensorShape 3 1 1))
       [None] [None] 1 (float_of_Z <$> [2; 1; 0]) [2; 1; 0] _ _ _ _)).
  - evaluate.
  - reflexivity.
  - evaluate.
  - reflexivity.
Defined.

(** The turn for the dense stream of the first sample of [sample_epoch]. *)
Lemma dense_turn_moves_buffer_sample :
  exists ex' data',
    stream_step (m_inputStreams sample_epoch) (m_example sample_epoch)
      [[None]; [None]] sample_dense 0 0 = Ok (1%nat, ex', data') /\
    data' !! 0%nat =
      Some [Some (DenseSequenceDataIds 0 1 (mkTensorShape 3 1 2)
                    sample_pixels)] /\
    m_blobs ex' !! 0%nat = Some [] /\
    (forall other,
       other <> 0%nat ->
       m_blobs ex' !! other = m_blobs (m_example sample_epoch) !! other).
Proof.
  refine (dense_turn_moves_buffer (m_inputStreams sample_epoch)
            (m_example sample_epoch) [[None]; [None]] sample_dense 0 0
            (StreamDescription.mk 0 "features" dense (mkTensorShape 3 1 2))
            [None] 0 sample_pixels (mkBlobShape 2 1 3)
            _ _ _ _ _ _ _ _ _ _ _); evaluate.
Defined.

(** The whole call on the samples: two samples of [sample_epoch] carry the
    values of the loader and the indices [6, 1, 5]; one sample of
    [sample_epoch_ignore] carries the mask [0, 1, 1] and the indices
    [0, 4, 2]. *)
Example GetNextSequences_sample :
  m_data (snd (next_sequences sample_epoch 2)) =
    [ [ Some (DenseSequenceDataIds 0 1 (mkTensorShape 3 1 2) sample_pixels);
        Some (DenseSequenceDataIds 1 1 (mkTensorShape 3 1 2) sample_pixels) ];
      [ Some (SparseSequenceDataIds 0 1 [3] 3 [6; 1; 5]
                [float_one; float_one; float_one]);
        Some (SparseSequenceDataIds 1 1 [3] 3 [6; 1; 5]
                [float_one; float_one; float_one]) ] ].
Proof. vm_compute. reflexivity. Qed.

Example GetNextSequences_sample_ignore :
  m_data (snd (next_sequences sample_epoch_ignore 1)) =
    [ [ Some (DenseSequenceDataIds 0 1 (mkTensorShape 3 1 2) sample_pixels) ];
      [ Some (SparseSequenceDataIds 0 1 [3] 3 [0; 4; 2]
                [float_one; float_one; float_one]) ];
      [ Some (DenseSequenceDataIds 0 1 (mkTensorShape 3 1 1)
                [float_zero; float_one; float_one]) ] ].
Proof. vm_compute. reflexivity. Qed.

(** * The further properties on the sample installation *)

(** The label blob is in the sample adapter, at position 1. *)
Lemma BlobIndexFromName_first_witness :
  BlobIndexFromName sample_adapter "label" = Ok 1%nat <->
  m_blobNames sample_adapter !! 1%nat = Some "label"%string /\
  forall j, (j < 1)%nat ->
    m_blobNames sample_adapter !! j <> Some "label"%string.
Proof.
  exact (proj1 (BlobIndexFromName_first sample_adapter "label") 1%nat).
Defined.

Lemma adapter_vectors_parallel_witness :
  adapter_ok sample_blank_adapter /\
  m_blobNames sample_blank_adapter = ["data"; "label"]%string /\
  Forall (fun buffer => buffer = []) (m_blobs sample_blank_adapter).
Proof.
  refine (proj1 (proj2 adapter_vectors_parallel) ["data"; "label"]%string
            sample_blank_adapter _).
  reflexivity.
Defined.

Lemma adapter_lookup_total_witness :
  exists index buffer shape,
    BlobIndexFromName sample_adapter "label" = Ok index /\
    m_blobs sample_adapter !! index = Some buffer /\
    SwapBlobData sample_adapter "label" []
    = Ok (mkImageDatasetExample (m_blobNames sample_adapter)
            (<[index := []]> (m_blobs sample_adapter))
            (m_blob_shapes sample_adapter),
          buffer) /\
    GetBlobShape sample_adapter "label" = Ok shape /\
    m_blob_shapes sample_adapter !! index = Some shape.
Proof.
  refine (proj1 (adapter_lookup_total sample_adapter "label" [] _) _).
  - unfold adapter_ok. evaluate.
  - vm_compute. repeat constructor.
Defined.

Lemma SwapBlobData_round_trip_witness :
  SwapBlobData (fst sample_swapped) "label" (snd sample_swapped)
  = Ok (sample_adapter, []).
Proof.
  refine (SwapBlobData_round_trip sample_adapter "label" []
            (fst sample_swapped) (snd sample_swapped) _).
  vm_compute. reflexivity.
Defined.

Lemma ReshapeBlob_shape_witness :
  exists old buffer,
    m_blobs sample_adapter !! 1%nat = Some old /\
    m_blobs sample_reshaped !! 1%nat = Some buffer /\
    Z.of_nat (length buffer) = 1 * 2 * 2 /\
    forall k x,
      (k < length buffer)%nat -> old !! k = Some x -> buffer !! k = Some x.
Proof.
  refine (proj1 (ReshapeBlob_shape sample_adapter 1 1 2 2 sample_reshaped _)).
  vm_compute. reflexivity.
Defined.

(** Three readers, minibatches of 6, an epoch of 20 samples: rank 0 has 7
    and rank 2 has 6. *)
Lemma shares_differ_by_one_witness : 6 <= 7 <= 6 + 1.
Proof.
  refine (shares_differ_by_one (sample_reader 0 3)
            (EpochConfiguration.mk 3 0 6 20) 0 2 7 6 _ _ _ _ _ _); evaluate.
Defined.

Lemma StartEpoch_divisible_witness :
  m_epochSize sample_epoch_even * m_numberOfWorkers (sample_reader 0 3)
  = globalEpochSize (sample_reader 0 3) (EpochConfiguration.mk 3 0 6 18) /\
  m_epochSize sample_epoch_even
  = globalEpochSize (sample_reader 0 3) (EpochConfiguration.mk 3 0 6 18)
    / m_numberOfWorkers (sample_reader 0 3) /\
  m_appendLastMinibatch sample_epoch_even = false.
Proof.
  refine (StartEpoch_divisible (sample_reader 0 3)
            (EpochConfiguration.mk 3 0 6 18) sample_epoch_even _ _ _ _);
    evaluate.
Defined.

Lemma StartEpoch_twice_witness :
  StartEpoch sample_epoch (EpochConfiguration.mk 1 0 2 5)
  = Fatal EpochNotFinished
  <-> m_epochSize sample_epoch <> 0.
Proof.
  refine (StartEpoch_twice (sample_reader 0 1) (EpochConfiguration.mk 1 0 2 5)
            sample_epoch (EpochConfiguration.mk 1 0 2 5) _).
  vm_compute. reflexivity.
Defined.

Lemma SetConfiguration_after_StartEpoch_witness :
  SetConfiguration sample_epoch (ReaderConfiguration.mk 1 0 2)
  = Ok sample_epoch.
Proof.
  refine (proj1 (SetConfiguration_after_StartEpoch (sample_reader 0 1)
                   (EpochConfiguration.mk 1 0 2 5) sample_epoch
                   (ReaderConfiguration.mk 1 0 2) _) _).
  - vm_compute. reflexivity.
  - evaluate.
Defined.

Lemma DataSource_new_streams_witness :
  Forall2 output_of (m_inputStreams sample_reader_ignore)
    (m_outputStreams sample_reader_ignore) /\
  (forall i sd,
     m_inputStreams sample_reader_ignore !! i = Some sd ->
     StreamDescription.m_id sd = to_size_t (Z.of_nat i)) /\
  (forall i sd,
     m_outputStreams sample_reader_ignore !! i = Some sd ->
     StreamDescription.m_id sd = to_size_t (Z.of_nat i) /\
     StreamDescription.m_storageType sd = dense).
Proof.
  refine (DataSource_new_streams
            (sample_config false
               [sample_dense; sample_sparse 2 (Some sample_ignore)]
               [2; 1; 0] 0 1) 0 false sample_reader_ignore _).
  reflexivity.
Defined.

Lemma DataSource_new_lockstep_witness :
  m_streamDescriptors sample_reader_ignore
  = [sample_dense; sample_sparse 2 (Some sample_ignore)] /\
  lockstep (m_inputStreams sample_reader_ignore)
    (m_streamDescriptors sample_reader_ignore).
Proof.
  refine (DataSource_new_lockstep
            (sample_config false
               [sample_dense; sample_sparse 2 (Some sample_ignore)]
               [2; 1; 0] 0 1) 0 false sample_reader_ignore _).
  reflexivity.
Defined.

Lemma DataSource_new_outcome_witness :
  Forall
    (describable ["data"; "label"]%string (m_example sample_reader_ignore))
    [sample_dense; sample_sparse 2 (Some sample_ignore)]
  <->
  exists s,
    DataSource_new
      (sample_config false
         [sample_dense; sample_sparse 2 (Some sample_ignore)]
         [2; 1; 0] 0 1) 0 false
    = Ok s.
Proof.
  refine (proj1 (DataSource_new_outcome
                   (sample_config false
                      [sample_dense; sample_sparse 2 (Some sample_ignore)]
                      [2; 1; 0] 0 1) 0 false sample_blank_adapter
                   (m_dsLoader sample_reader_ignore)
                   (m_example sample_reader_ignore) _ _)).
  - vm_compute. reflexivity.
  - vm_compute. reflexivity.
Defined.

(** The epoch of [sample_epoch], 5 samples read 2 at a time, takes three
    calls. *)
Lemma sample_epoch_Reads_once :
  Reads sample_epoch 1 (m_endOfEpoch (snd sample_after)) (fst sample_after).
Proof.
  refine (Reads_more sample_epoch 0 false sample_epoch (fst sample_after)
            (snd sample_after) (Reads_none sample_epoch) _).
  vm_compute. reflexivity.
Defined.

Lemma sample_epoch_Reads :
  Reads sample_epoch 3 (m_endOfEpoch (snd sample_after3)) (fst sample_after3).
Proof.
  refine (Reads_more sample_epoch 2 (m_endOfEpoch (snd sample_after2))
            (fst sample_after2) (fst sample_after3) (snd sample_after3) _ _).
  - refine (Reads_more sample_epoch 1 (m_endOfEpoch (snd sample_after))
              (fst sample_after) (fst sample_after2) (snd sample_after2)
              sample_epoch_Reads_once _).
    vm_compute. reflexivity.
  - vm_compute. reflexivity.
Defined.

Lemma epoch_ends_on_same_call_witness :
  (m_endOfEpoch (snd sample_after3) = true
   <-> Z.of_nat 3 = calls_per_epoch 5 2 1) /\
  m_currEpochSampleCount (fst sample_after3)
  <= m_epochSize (fst sample_after3) /\
  (m_endOfEpoch (snd sample_after3) = true ->
   m_currEpochSampleCount (fst sample_after3)
   = m_epochSize (fst sample_after3)).
Proof.
  refine (epoch_ends_on_same_call (sample_reader 0 1)
            (EpochConfiguration.mk 1 0 2 5) sample_epoch 3
            (m_endOfEpoch (snd sample_after3)) (fst sample_after3)
            _ _ _ _ _ sample_epoch_Reads _); evaluate.
Defined.

Lemma epoch_calls_not_rejected_witness :
  m_minibatchSize (fst sample_after) = 2 /\
  exists taken endOfEpoch,
    samplesForThisCall (fst sample_after) 2 = Ok (taken, endOfEpoch) /\
    1 <= taken
    <= m_epochSize (fst sample_after)
       - m_currEpochSampleCount (fst sample_after).
Proof.
  refine (epoch_calls_not_rejected (sample_reader 0 1)
            (EpochConfiguration.mk 1 0 2 5) sample_epoch 1
            (m_endOfEpoch (snd sample_after)) (fst sample_after)
            _ _ _ _ _ sample_epoch_Reads_once _); evaluate.
Defined.

(** After its three calls [sample_epoch] answers with empty rows. *)
Lemma GetNextSequences_after_end_witness :
  GetNextSequences (fst sample_after3) 2
  = Ok (fst sample_after3, mkSequences [[]; []] true).
Proof.
  refine (GetNextSequences_after_end (fst sample_after3) _ _ _ _ _);
    evaluate.
Defined.

(** Two samples for three workers: the reader of rank 0 has one sample and
    never reads it. *)
Lemma StartEpoch_fewer_samples_than_workers_witness :
  m_epochSize sample_epoch_short = 1 /\
  m_appendLastMinibatch sample_epoch_short = true /\
  (forall total,
     GetNextSequences sample_epoch_short total =
       Fatal (if total =? 3 then AppendingMoreThanOne
              else SampleCountMismatch)) /\
  (forall config',
     StartEpoch sample_epoch_short config' = Fatal EpochNotFinished).
Proof.
  refine (proj2 (StartEpoch_fewer_samples_than_workers (sample_reader 0 3)
                   (EpochConfiguration.mk 3 0 3 2) sample_epoch_short
                   _ _ _ _ _) _); evaluate.
Defined.

(** With the override every one of the three readers has the 7 examples of
    the loader. *)
Lemma StartEpoch_override_whole_dataset_witness :
  m_epochSize sample_epoch_override = 7 /\
  m_appendLastMinibatch sample_epoch_override = false.
Proof.
  refine (StartEpoch_override_whole_dataset (sample_reader_override 1 3)
            (EpochConfiguration.mk 3 1 6 (2 ^ 62 - 1)) sample_epoch_override
            _ _ _ _ _ _ _); evaluate.
Defined.

Lemma GetNextSequences_no_empty_slot_witness :
  length (m_data (snd sample_after_ignore))
  = length (m_inputStreams sample_epoch_ignore) /\
  forall istr row,
    m_data (snd sample_after_ignore) !! istr = Some row ->
    forall ismpl, (ismpl < length row)%nat ->
    exists q,
      row !! ismpl = Some (Some q) /\
      m_id q = Z.of_nat ismpl /\ m_numberOfSamples q = 1.
Proof.
  refine (GetNextSequences_no_empty_slot sample_epoch_ignore 1
            (fst sample_after_ignore) (snd sample_after_ignore) _).
  vm_compute. reflexivity.
Defined.

Lemma sample_epoch_bad_label_Reachable : Reachable sample_epoch_bad_label.
Proof.
  apply (Reachable_StartEpoch sample_reader_bad_label
           (EpochConfiguration.mk 1 0 2 5)).
  - apply (Reachable_new
             (sample_config false [sample_dense; sample_sparse 3 None]
                [5; 0; 1] 0 1) 0 false); evaluate.
  - evaluate.
  - evaluate.
  - reflexivity.
Defined.

(** The label 5 on a stream of three channels. *)
Lemma GetNextSequences_errors_witness :
  InvalidChannel
  ∈ [SampleCountMismatch; MoreWorkersThanSamples; AppendingMoreThanOne;
     DenseWithIgnore; UnexpectedSparseCount; InvalidChannel].
Proof.
  refine (GetNextSequences_errors sample_epoch_bad_label 2 InvalidChannel
            sample_epoch_bad_label_Reachable _).
  vm_compute. reflexivity.
Defined.

Lemma sample_epoch_empty_Reachable : Reachable sample_epoch_empty.
Proof.
  apply (Reachable_StartEpoch sample_reader_dense_ignore
           (EpochConfiguration.mk 1 0 1 0)).
  - apply (Reachable_new
             (sample_config false [sample_dense_ignore] [2; 0; 1] 0 1)
             0 false); evaluate.
  - evaluate.
  - evaluate.
  - reflexivity.
Defined.

(** The constructor took the dense descriptor with an ignore label; in an
    epoch of no samples the call returns, with an empty row. *)
Lemma dense_with_ignore_reads_nothing_witness :
  Forall (fun row => row = [])
    (m_data (snd (next_sequences sample_epoch_empty 1))).
Proof.
  refine (dense_with_ignore_reads_nothing sample_epoch_empty 1
            (fst (next_sequences sample_epoch_empty 1))
            (snd (next_sequences sample_epoch_empty 1))
            sample_epoch_empty_Reachable _ _).
  - apply Exists_cons_hd. split; [reflexivity | discriminate].
  - vm_compute. reflexivity.
Defined.

(** * The turns of the stream loop on the sample installation *)

(** A call comes to a turn: its checks pass, the sample is one of the call,
    and the loops before the turn return. *)
Ltac reaches taken endOfEpoch :=
  exists taken, endOfEpoch;
  split; [vm_compute; reflexivity |];
  split; [vm_compute; lia |];
  split; vm_compute; reflexivity.

(** The second sample of the first call of [sample_epoch]: the labels
    [2, 0, 1] on three positions and three channels. *)
Lemma sparse_stream_one_hot_witness :
  exists indices,
    slot_at (m_data (snd sample_after)) 1 1 =
      Some (Some (SparseSequenceDataIds 1 1 [3] 3 indices
                    [float_one; float_one; float_one])) /\
    length indices = 3%nat /\
    forall position label,
      [2; 0; 1] !! position = Some label ->
      indices !! position = Some (label * 3 + Z.of_nat position).
Proof.
  refine (proj2 (proj1 (proj2
    (sparse_stream_one_hot sample_epoch 2 1 1 (sample_sparse 3 None) 1
       (snd (fst sample_sparse_turn)) (snd sample_sparse_turn)
       (StreamDescription.mk 1 "labels" sparse_csc (mkTensorShape 3 1 3))
       (StreamDescription.mk 1 "labels" sparse_csc (mkTensorShape 3 1 3))
       [Some (SparseSequenceDataIds 0 1 [3] 3 [6; 1; 5]
                [float_one; float_one; float_one]); None]
       [] 1 (float_of_Z <$> [2; 0; 1]) [2; 0; 1] _ _ _ _)) _ _)
    (fst sample_after) (snd sample_after) _).
  - reaches 2 false.
  - evaluate.
  - intros Hignore. exfalso. apply Hignore. reflexivity.
  - evaluate.
  - reflexivity.
  - evaluate.
  - vm_compute. reflexivity.
Defined.

(** The one sample of the first call of [sample_epoch_ignore]: the labels
    [2, 1, 0] with the ignore label 2 on two channels. *)
Lemma sparse_stream_ignore_mask_witness :
  exists mask indices,
    slot_at (m_data (snd sample_after_ignore)) 2 0 =
      Some (Some (DenseSequenceDataIds 0 1 (mkTensorShape 3 1 1) mask)) /\
    slot_at (m_data (snd sample_after_ignore)) 1 0 =
      Some (Some (SparseSequenceDataIds 0 1 [3] 3 indices
                    [float_one; float_one; float_one])) /\
    length mask = 3%nat /\
    length indices = 3%nat /\
    forall position label,
      [2; 1; 0] !! position = Some label ->
      (label = 2 ->
       mask !! position = Some float_zero /\
       indices !! position = Some (Z.of_nat position) /\
       0 <= Z.of_nat position < 2 * 3) /\
      (label <> 2 ->
       mask !! position = Some float_one /\
       indices !! position = Some (label * 3 + Z.of_nat position)).
Proof.
  refine (proj2 (proj1 (proj2 (proj2
    (sparse_stream_ignore_mask sample_epoch_ignore 1 0 1
       (sample_sparse 2 (Some sample_ignore)) sample_ignore 1
       (snd (fst sample_ignore_turn)) (snd sample_ignore_turn)
       (StreamDescription.mk 1 "labels" sparse_csc (mkTensorShape 3 1 2))
       (StreamDescription.mk 2 "ignore" dense (mkTensorShape 3 1 1))
       [None] [None] 1 (float_of_Z <$> [2; 1; 0]) [2; 1; 0] _ _ _ _ _))) _)
    (fst sample_after_ignore) (snd sample_after_ignore) _).
  - reaches 1 false.
  - evaluate.
  - reflexivity.
  - evaluate.
  - reflexivity.
  - intros (position & label & Hl & Hne & Hout).
    destruct position as [| [| [| position]]]; cbn in Hl;
      try discriminate Hl; injection Hl as <-; cbn in Hne, Hout; lia.
  - vm_compute. reflexivity.
Defined.

(** C6 as stated fails in both directions.  A label buffer of
    another size makes the call fatal, by the check of line 597, though
    every label is the ignore label or a channel: the later examples of
    [sample_loader_short] carry two labels for three positions.  And on a
    stream configured with no channel the check of line 632 lets every
    label that is not negative pass, since [outChannels - 1] wraps: the
    call returns for the labels [2, 1, 5], with the indices [0, 4, 17],
    though 1 and 5 lie outside the empty range of channels. *)
Lemma GetNextSequences_ignore_not_exactly :
  (GetNextSequences sample_epoch_short_labels 2 = Fatal UnexpectedSparseCount
   /\ Forall (fun label => label = 2 \/ 0 <= label < 2) [2; 1; 0; 1; 0]) /\
  (GetNextSequences sample_epoch_no_channel 1
   = Ok (fst (next_sequences sample_epoch_no_channel 1),
         mkSequences
           [ [ Some (DenseSequenceDataIds 0 1 (mkTensorShape 3 1 2)
                       sample_pixels) ];
             [ Some (SparseSequenceDataIds 0 1 [3] 3 [0; 4; 17]
                       [float_one; float_one; float_one]) ];
             [ Some (DenseSequenceDataIds 0 1 (mkTensorShape 3 1 1)
                       [float_zero; float_one; float_one]) ] ]
           false)
   /\ (StreamDescription.m_sampleLayout <$> m_inputStreams sample_epoch_no_channel)
        !! 1%nat = Some (mkTensorShape 3 1 0)
   /\ [2; 1; 5] !! 1%nat = Some 1 /\ 1 <> 2 /\ ~ 0 <= 1 < 0).
Proof.
  split; [split; [vm_compute; reflexivity |] | split; [| split; [| split]]].
  - repeat constructor; lia.
  - vm_compute. reflexivity.
  - vm_compute. reflexivity.
  - reflexivity.
  - split; lia.
Qed.

(** The dense stream of the second sample of the first call of
    [sample_epoch]. *)
Lemma dense_stream_moves_buffer_witness :
  slot_at (m_data (snd sample_after)) 0 1 =
    Some (Some (DenseSequenceDataIds 1 1 (mkTensorShape 3 1 2)
                  sample_pixels)) /\
  exists ex' data',
    stream_step (m_inputStreams sample_epoch) (snd (fst sample_dense_turn))
      (snd sample_dense_turn) sample_dense 0 1 = Ok (1%nat, ex', data') /\
    m_blobs ex' !! 0%nat = Some [] /\
    (forall other,
       other <> 0%nat ->
       m_blobs ex' !! other
       = m_blobs (snd (fst sample_dense_turn)) !! other).
Proof.
  refine (dense_stream_moves_buffer sample_epoch 2 (fst sample_after)
            (snd sample_after) 1 0 sample_dense 0
            (snd (fst sample_dense_turn)) (snd sample_dense_turn)
            (StreamDescription.mk 0 "features" dense (mkTensorShape 3 1 2))
            0 sample_pixels (mkBlobShape 2 1 3)
            _ _ _ _ _ _ _ _ _ _ _).
  - reaches 2 false.
  - reflexivity.
  - reflexivity.
  - reflexivity.
  - vm_compute. reflexivity.
  - vm_compute. reflexivity.
  - vm_compute. reflexivity.
  - evaluate.
  - evaluate.
  - evaluate.
  - vm_compute. reflexivity.
Defined.

(** * The counter of samples read, past the epoch size *)

Lemma sample_epoch_wide_Reachable : Reachable sample_epoch_wide.
Proof.
  apply (Reachable_StartEpoch sample_reader_no_streams
           (EpochConfiguration.mk 1 0 (2 ^ 31) (2 ^ 33))).
  - apply (Reachable_new (sample_config false [] [2; 0; 1] 0 1) 0 false);
      evaluate.
  - evaluate.
  - evaluate.
  - vm_compute. reflexivity.
Qed.

(** C10 (defect of line 658).  The count of samples a call has read is added
    to the counter as an [int].  A single reader at the start of an epoch
    of [2^33] samples, read in minibatches of [2^31], is a reader a caller
    can hold; its first call of [GetNextSequences] returns without the
    end-of-epoch mark, having read [2^31] samples, and leaves the counter
    at [2^64 - 2^31], above the epoch size [2^33]. *)
Theorem counter_passes_epoch_size :
  Reachable sample_epoch_wide /\
  m_epochSize sample_epoch_wide = 2 ^ 33 /\
  m_currEpochSampleCount sample_epoch_wide = 0 /\
  exists s',
    GetNextSequences sample_epoch_wide (2 ^ 31)
    = Ok (s', mkSequences [] false) /\
    m_epochSize s' = 2 ^ 33 /\
    m_currEpochSampleCount s' = 2 ^ 64 - 2 ^ 31 /\
    ~ m_currEpochSampleCount s' <= m_epochSize s'.
Proof.
  split; [exact sample_epoch_wide_Reachable |].
  split; [vm_compute; reflexivity | split; [vm_compute; reflexivity |]].
  destruct (GetNextSequences_no_streams sample_epoch_wide (2 ^ 31) (2 ^ 31)
              false (sample_blobs [2; 0; 1]))
    as [ld Hcall].
  - vm_compute. reflexivity.
  - vm_compute. reflexivity.
  - vm_compute. reflexivity.
  - intros p. reflexivity.
  - vm_compute. reflexivity.
  - eexists. split; [exact Hcall |].
    unfold after_reading.
    cbn [m_epochSize m_currEpochSampleCount].
    split; [vm_compute; reflexivity |].
    split; [vm_compute; reflexivity |].
    vm_compute. intros Hle. apply Hle. reflexivity.
Qed.
